(** * CSS class index: parser front end, index store and ranked search

    A shallow embedding of the indexing core of the CSS utilities
    extension: [CSSParser] (selector scanning, category inference,
    description extraction) and [CSSIndexer] (the name-keyed index, its
    per-file update and the ranked search).

    Conventions of the embedding.
    - A JavaScript string is a [string]: a sequence of code units.  The
      embedding covers the code units below 256; [toLowerCase], [trim]
      and the regular-expression classes are given on that range.
    - Numbers that the code only ever uses as integers are in [Z].
    - The [Map] holding the index is an association list in insertion
      order, because iteration order is observable through search.
    - The stylesheet grammar (postcss) and the file system are outside
      the repository; they enter as section variables.  The grammar
      gives every rule it parses the 1-based position of its first
      character; the statements on positions take this as a hypothesis
      on the grammar. *)

From Stdlib Require Import List String Ascii ZArith Lia Bool Arith.
From Stdlib Require Import Permutation Sorted.
Import ListNotations.

Open Scope string_scope.
Open Scope Z_scope.

(** ** JavaScript string primitives *)

Module JS.

Definition code (c : ascii) : nat := nat_of_ascii c.

Definition between (lo hi : nat) (c : ascii) : bool :=
  (Nat.leb lo (code c) && Nat.leb (code c) hi)%bool.

Definition isUpper (c : ascii) : bool := between 65 90 c.
Definition isLower (c : ascii) : bool := between 97 122 c.
Definition isDigit (c : ascii) : bool := between 48 57 c.

(** [String.prototype.toLowerCase], one code unit at a time: A-Z and
    the upper-case letters of the Latin-1 block move up by 32. *)
Definition lowerChar (c : ascii) : ascii :=
  if (isUpper c
      || between 192 214 c
      || between 216 222 c)%bool
  then ascii_of_nat (code c + 32)
  else c.

Fixpoint toLowerCase (s : string) : string :=
  match s with
  | EmptyString => EmptyString
  | String c s' => String (lowerChar c) (toLowerCase s')
  end.

(** [s.startsWith(p)] *)
Fixpoint startsWith (s p : string) {struct p} : bool :=
  match p with
  | EmptyString => true
  | String b p' =>
      match s with
      | EmptyString => false
      | String a s' => (Ascii.eqb a b && startsWith s' p')%bool
      end
  end.

(** [s.includes(p)] *)
Fixpoint includes (s p : string) : bool :=
  if startsWith s p then true
  else match s with
       | EmptyString => false
       | String _ s' => includes s' p
       end.

(** [s.endsWith(p)] *)
Fixpoint endsWith (s p : string) : bool :=
  if String.eqb s p then true
  else match s with
       | EmptyString => false
       | String _ s' => endsWith s' p
       end.

(** Line terminators and white space ([\s], and what [trim] strips). *)
Definition isLineTerminator (c : ascii) : bool :=
  (Nat.eqb (code c) 10 || Nat.eqb (code c) 13)%bool.

Definition isWhiteSpace (c : ascii) : bool :=
  (between 9 13 c || Nat.eqb (code c) 32 || Nat.eqb (code c) 160)%bool.

Fixpoint trimStart (s : string) : string :=
  match s with
  | EmptyString => EmptyString
  | String c s' => if isWhiteSpace c then trimStart s' else s
  end.

(** [trimEnd]: a character is kept when it is not white space or
    when something survives after it. *)
Fixpoint trimEnd (s : string) : string :=
  match s with
  | EmptyString => EmptyString
  | String c s' =>
      match trimEnd s' with
      | EmptyString => if isWhiteSpace c then EmptyString
                       else String c EmptyString
      | r => String c r
      end
  end.

Definition trim (s : string) : string := trimEnd (trimStart s).

(** [s.substring(n)] *)
Fixpoint substringFrom (n : nat) (s : string) : string :=
  match n, s with
  | O, _ => s
  | S n', String _ s' => substringFrom n' s'
  | S _, EmptyString => EmptyString
  end.

(** [s.split(sep)] for a one-character separator. *)
Fixpoint split (sep : ascii) (s : string) : list string :=
  match s with
  | EmptyString => [EmptyString]
  | String c s' =>
      if Ascii.eqb c sep then EmptyString :: split sep s'
      else match split sep s' with
           | piece :: rest => String c piece :: rest
           | [] => [String c EmptyString]
           end
  end.

(** [a.slice(0, e)]: a negative end counts from the back. *)
Definition slice0 {A : Type} (a : list A) (e : Z) : list A :=
  let len := Z.of_nat (List.length a) in
  let k := if e <? 0 then Z.max (len + e) 0 else Z.min e len in
  firstn (Z.to_nat k) a.

(** A plain object used as a string-keyed dictionary, own keys in
    insertion order, which is the order [Object.keys] lists the keys
    that are not integer-like in (the integer-like ones it lists first,
    in ascending order).  Assigning to an existing key keeps its place;
    assigning a string to [__proto__] goes to the inherited setter,
    which ignores it. *)
Definition object := list (string * string).

Fixpoint assign (o : object) (k v : string) : object :=
  match o with
  | [] => [(k, v)]
  | (k', v') :: o' =>
      if String.eqb k' k then (k, v) :: o' else (k', v') :: assign o' k v
  end.

Definition objSet (o : object) (k v : string) : object :=
  if String.eqb k "__proto__" then o else assign o k v.

Fixpoint objGet (o : object) (k : string) : option string :=
  match o with
  | [] => None
  | (k', v) :: o' => if String.eqb k' k then Some v else objGet o' k
  end.

(** Truthiness of [o.k] for a string-valued dictionary. *)
Definition truthy (o : object) (k : string) : bool :=
  match objGet o k with
  | Some v => negb (String.eqb v EmptyString)
  | None => false
  end.

Definition keys (o : object) : list string := map fst o.

End JS.

(** ** The stylesheet parser front end ([CSSParser]) *)

Module Parser.

Import JS.
#[local] Open Scope list_scope.

Record CSSClass : Type := mkCSSClass {
  name : string;
  properties : object;
  selector : string;
  sourceFile : string;
  line : Z;
  column : Z;
  category : option string;
  description : option string
}.

Record CSSParseResult : Type := mkResult {
  classes : list CSSClass;
  errors : list string
}.

(** The syntax tree handed over by the stylesheet grammar: rules and
    at-rules are containers, declarations and comments are leaves.  A
    node built by the grammar carries its start position; the type
    leaves [source] and [start] optional, as the code reads them. *)
Record Position : Type := mkPosition { posLine : Z; posColumn : Z }.
Record Source : Type := mkSource { start : option Position }.

#[local] Unset Elimination Schemes.
Inductive Node : Type :=
| Rule (sel : string) (source : option Source) (nodes : list Node)
| AtRule (atName params : string) (nodes : list Node)
| Declaration (prop value : string)
| Comment (text : string).
#[local] Set Elimination Schemes.

Definition Root := list Node.

(** *** Selector scanning *)

Definition isIdentStart (c : ascii) : bool :=
  (isLower c || isUpper c || Ascii.eqb c "_")%bool.

(** [[\w-]] *)
Definition isIdentChar (c : ascii) : bool :=
  (isLower c || isUpper c || isDigit c || Ascii.eqb c "_"
   || Ascii.eqb c "-")%bool.

Definition isDot (c : ascii) : bool := Ascii.eqb c ".".

(** State of the left-to-right scan for [/\.[a-zA-Z_][\w-]*/g]:
    outside a match, just after a dot, or inside a match whose text so
    far is kept. *)
Inductive scanState : Type :=
| Outside
| AfterDot
| Inside (tok : string).

Definition flush (st : scanState) : list string :=
  match st with
  | Inside tok => [tok]
  | _ => []
  end.

Definition restart (c : ascii) : scanState :=
  if isDot c then AfterDot else Outside.

Fixpoint scan (st : scanState) (s : string) : list string :=
  match s with
  | EmptyString => flush st
  | String c s' =>
      match st with
      | Outside => scan (restart c) s'
      | AfterDot =>
          if isIdentStart c
          then scan (Inside (String "." (String c EmptyString))) s'
          else scan (restart c) s'
      | Inside tok =>
          if isIdentChar c
          then scan (Inside (tok ++ String c EmptyString)%string) s'
          else tok :: scan (restart c) s'
      end
  end.

(** [s.match(/\.[a-zA-Z_][\w-]*/g) || []] *)
Definition classMatches (s : string) : list string := scan Outside s.

Definition nonEmpty (s : string) : bool :=
  negb (String.eqb s EmptyString).

Definition parseSelector (selector : string) : list string :=
  flat_map classMatches
    (filter nonEmpty (map trim (split "," selector))).

(** [/^\.[a-zA-Z_][\w-]*$/.test(className)] *)
Fixpoint allIdentChars (s : string) : bool :=
  match s with
  | EmptyString => true
  | String c s' => (isIdentChar c && allIdentChars s')%bool
  end.

Definition isValidClassName (className : string) : bool :=
  match className with
  | String d (String c rest) =>
      (isDot d && isIdentStart c && allIdentChars rest)%bool
  | _ => false
  end.

(** *** Category inference *)

Definition inferCategory (className : string) (properties : object)
  : string :=
  let name := toLowerCase className in
  if (includes name "flex" || includes name "grid"
      || truthy properties "display")%bool
  then "Layout"
  else if (includes name "text" || includes name "font"
           || truthy properties "fontSize"
           || truthy properties "fontFamily"
           || truthy properties "color")%bool
  then "Typography"
  else if (includes name "bg" || includes name "background"
           || truthy properties "backgroundColor"
           || truthy properties "background")%bool
  then "Background"
  else if (includes name "border"
           || truthy properties "border"
           || truthy properties "borderRadius")%bool
  then "Border"
  else if (includes name "p-" || includes name "m-"
           || includes name "padding" || includes name "margin"
           || truthy properties "padding"
           || truthy properties "margin")%bool
  then "Spacing"
  else if (includes name "w-" || includes name "h-"
           || includes name "width" || includes name "height"
           || truthy properties "width"
           || truthy properties "height")%bool
  then "Sizing"
  else if (includes name "hidden" || includes name "visible"
           || truthy properties "visibility"
           || truthy properties "opacity")%bool
  then "Visibility"
  else "Utilities".

(** *** Description extraction *)

(** What a greedy [(.+)] takes: everything up to the next line
    terminator. *)
Fixpoint restOfLine (s : string) : string :=
  match s with
  | EmptyString => EmptyString
  | String c s' =>
      if isLineTerminator c then EmptyString
      else String c (restOfLine s')
  end.

(** [\s*(.+)] anchored at the head of [s]; the greedy star first tries
    to swallow a white-space character and gives it back to the group
    only when nothing matches further on. *)
Fixpoint spacesGroup (s : string) : option string :=
  match s with
  | EmptyString => None
  | String c s' =>
      if isWhiteSpace c then
        match spacesGroup s' with
        | Some g => Some g
        | None => if isLineTerminator c then None
                  else Some (restOfLine s)
        end
      else Some (restOfLine s)
  end.

(** [/@description\s+(.+)/] anchored at the head of [s]; the result is
    group 1. *)
Definition descriptionAt (s : string) : option string :=
  if startsWith s "@description" then
    match substringFrom 12 s with
    | String c s' => if isWhiteSpace c then spacesGroup s' else None
    | EmptyString => None
    end
  else None.

(** [comment.match(/@description\s+(.+)/)], leftmost match, group 1. *)
Fixpoint descriptionMatch (s : string) : option string :=
  match descriptionAt s with
  | Some g => Some g
  | None =>
      match s with
      | EmptyString => None
      | String _ s' => descriptionMatch s'
      end
  end.

(** [extractDescription(rule)], given [rule.prev()]. *)
Definition extractDescription (commentBefore : option Node)
  : option string :=
  match commentBefore with
  | Some (Comment text) =>
      let comment := trim text in
      match descriptionMatch comment with
      | Some g => Some (trim g)
      | None =>
          if (negb (includes comment "@")
              && (Z.of_nat (String.length comment) <? 100))%bool
          then Some comment
          else None
      end
  | _ => None
  end.

(** *** Extraction of class records *)

(** [rule.walkDecls]: every declaration below a node, in document
    order. *)
Fixpoint walkDecls (n : Node) : list (string * string) :=
  match n with
  | Rule _ _ ns => flat_map walkDecls ns
  | AtRule _ _ ns => flat_map walkDecls ns
  | Declaration p v => [(p, v)]
  | Comment _ => []
  end.

Definition collectProperties (decls : list (string * string)) : object :=
  fold_left (fun o d => objSet o (fst d) (snd d)) decls [].

(** [rule.source?.start?.line || 0] and the same for the column. *)
Definition startLine (source : option Source) : Z :=
  match source with
  | Some (mkSource (Some p)) => posLine p
  | _ => 0
  end.

Definition startColumn (source : option Source) : Z :=
  match source with
  | Some (mkSource (Some p)) => posColumn p
  | _ => 0
  end.

(** [...(description && { description })]: an empty string is falsy and
    leaves the field out. *)
Definition optionalField (d : option string) : option string :=
  match d with
  | Some EmptyString => None
  | _ => d
  end.

(** The body of the [selectors.forEach] callback. *)
Definition classesOfSelector (filePath : string) (prev : option Node)
  (ruleSel : string) (source : option Source) (decls : list (string * string))
  (selector : string) : list CSSClass :=
  if (startsWith selector "." && isValidClassName selector)%bool then
    let className := substringFrom 1 selector in
    let properties := collectProperties decls in
    if (0 <? Z.of_nat (List.length (keys properties))) then
      let description := extractDescription prev in
      [ {| name := className;
           properties := properties;
           selector := ruleSel;
           sourceFile := filePath;
           line := startLine source;
           column := startColumn source;
           category := Some (inferCategory className properties);
           description := optionalField description |} ]
    else []
  else [].

(** The body of the [walkRules] callback for one rule, [prev] being the
    rule's previous sibling. *)
Definition classesOfRule (filePath : string) (prev : option Node)
  (ruleSel : string) (source : option Source) (nodes : list Node)
  : list CSSClass :=
  flat_map
    (classesOfSelector filePath prev ruleSel source
       (flat_map walkDecls nodes))
    (parseSelector ruleSel).

Section WalkRules.

Variable filePath : string.

(** [walkRules]: the callback runs on a rule before the walk descends
    into it; siblings are visited left to right. *)
Fixpoint walkNode (prev : option Node) (n : Node) : list CSSClass :=
  let walkSiblings :=
    fix go (prev : option Node) (ns : list Node) : list CSSClass :=
      match ns with
      | [] => []
      | m :: ns' => walkNode prev m ++ go (Some m) ns'
      end in
  match n with
  | Rule rsel source ns =>
      classesOfRule filePath prev rsel source ns ++ walkSiblings None ns
  | AtRule _ _ ns => walkSiblings None ns
  | Declaration _ _ => []
  | Comment _ => []
  end.

Fixpoint walkNodes (prev : option Node) (ns : list Node) : list CSSClass :=
  match ns with
  | [] => []
  | m :: ns' => walkNode prev m ++ walkNodes (Some m) ns'
  end.

End WalkRules.

Definition extractClassesFromAST (root : Root) (filePath : string)
  : list CSSClass :=
  walkNodes filePath None root.

(** What a call returns or throws. *)
Inductive outcome (A : Type) : Type :=
| Returned (a : A)
| Thrown (e : string).
Arguments Returned {A} a.
Arguments Thrown {A} e.

Section ParseCSS.

(** [processor.parse(content, {from})]: the grammar, chosen by the
    SCSS flag, either builds a tree or throws a syntax error. *)
Variable processorParse : bool -> string -> string -> outcome Root.

Definition parseCSS (content filePath : string) : CSSParseResult :=
  let isScss :=
    (endsWith filePath ".scss" || endsWith filePath ".sass")%bool in
  match processorParse isScss content filePath with
  | Returned ast =>
      {| classes := extractClassesFromAST ast filePath; errors := [] |}
  | Thrown e =>
      {| classes := [];
         errors := [("Failed to parse " ++ filePath ++ ": " ++ e)%string] |}
  end.

End ParseCSS.

End Parser.

(** ** The class index ([CSSIndexer]) *)

Module Indexer.

Import JS Parser.
#[local] Open Scope list_scope.

(** [Map<string, CSSClass>]: entries in insertion order.  [set] on a key
    already present replaces the value where it stands, [set] on a new
    key appends, [delete] leaves the order of the others alone. *)
Definition classIndex := list (string * CSSClass).

Fixpoint mapSet (m : classIndex) (k : string) (v : CSSClass) : classIndex :=
  match m with
  | [] => [(k, v)]
  | (k', v') :: m' =>
      if String.eqb k' k then (k, v) :: m' else (k', v') :: mapSet m' k v
  end.

Definition mapDelete (m : classIndex) (k : string) : classIndex :=
  filter (fun e => negb (String.eqb (fst e) k)) m.

Fixpoint mapGet (m : classIndex) (k : string) : option CSSClass :=
  match m with
  | [] => None
  | (k', v) :: m' => if String.eqb k' k then Some v else mapGet m' k
  end.

Definition mapValues (m : classIndex) : list CSSClass := map snd m.

Definition getAllClasses (idx : classIndex) : list CSSClass :=
  mapValues idx.

Definition getClass (idx : classIndex) (className : string)
  : option CSSClass :=
  mapGet idx className.

Definition removeClassesFromFile (idx : classIndex) (filePath : string)
  : classIndex :=
  let classesToRemove :=
    map fst
      (filter (fun e => String.eqb (sourceFile (snd e)) filePath) idx) in
  fold_left mapDelete classesToRemove idx.

(** The [result.classes.forEach] of [indexFile]. *)
Definition insertClasses (idx : classIndex) (cs : list CSSClass)
  : classIndex :=
  fold_left (fun m c => mapSet m (name c) c) cs idx.

Definition clearCache (idx : classIndex) : classIndex := [].

(** *** Ranked search *)

(** The loop of [fuzzyMatch].  [pattern] is what is left of the pattern
    from [patternIndex] on, so the loop stops when it is empty or when
    the text is used up; the result is the unmatched rest of the pattern
    and the score. *)
Fixpoint fuzzyLoop (text pattern : string) (score consecutiveMatches : Z)
  {struct text} : string * Z :=
  match pattern with
  | EmptyString => (pattern, score)
  | String p pattern' =>
      match text with
      | EmptyString => (pattern, score)
      | String t text' =>
          if Ascii.eqb t p
          then fuzzyLoop text' pattern'
                 (score + (1 + consecutiveMatches)) (consecutiveMatches + 1)
          else fuzzyLoop text' pattern score 0
      end
  end.

Definition fuzzyMatch (text pattern : string) : Z :=
  let '(rest, score) := fuzzyLoop text pattern 0 0 in
  if String.eqb rest EmptyString then Z.min (score * 2) 40 else 0.

Definition calculateMatchScore (className query : string) : Z :=
  let nameLower := toLowerCase className in
  if String.eqb nameLower query then 100
  else if startsWith nameLower query then 80
  else if includes nameLower query then 60
  else fuzzyMatch nameLower query.

Definition scored : Type := CSSClass * Z.

(** [results.sort((a, b) => b.score - a.score)].  The sort is stable, so
    its result is fixed by the comparator: descending score, entries of
    equal score in their original order.  Inserting from the right, in
    front of the first entry that does not score higher, computes it. *)
Fixpoint insertByScore (x : scored) (l : list scored) : list scored :=
  match l with
  | [] => [x]
  | y :: l' =>
      if snd x <? snd y then y :: insertByScore x l' else x :: l
  end.

Definition sortByScore (l : list scored) : list scored :=
  fold_right insertByScore [] l.

Definition scoreEntry (queryLower : string) (cssClass : CSSClass)
  : list scored :=
  let score := calculateMatchScore (name cssClass) queryLower in
  if 0 <? score then [(cssClass, score)] else [].

Definition searchClasses (idx : classIndex) (query : string)
  (maxResults : Z) : list CSSClass :=
  if String.eqb query EmptyString then
    slice0 (getAllClasses idx) maxResults
  else
    let queryLower := toLowerCase query in
    let results := flat_map (scoreEntry queryLower) (mapValues idx) in
    map fst (slice0 (sortByScore results) maxResults).

(** [maxResults] left out takes its default. *)
Definition searchClassesDefault (idx : classIndex) (query : string)
  : list CSSClass :=
  searchClasses idx query 50.

(** *** Indexing files *)

Section IndexFile.

(** [fs.readFileSync(path, 'utf-8')] and the stylesheet grammar. *)
Variable readFileSync : string -> outcome string.
Variable processorParse : bool -> string -> string -> outcome Root.

(** The [try] block of [indexFile]: the only statement that can throw
    is the read, since [parseCSS] catches what the grammar throws. *)
Definition indexFileTry (idx : classIndex) (filePath : string)
  : outcome classIndex :=
  match readFileSync filePath with
  | Thrown e => Thrown e
  | Returned content =>
      let result := parseCSS processorParse content filePath in
      let idx' := removeClassesFromFile idx filePath in
      Returned (insertClasses idx' (classes result))
  end.

(** [indexFile]: the [catch] block only logs, and the index stays as
    the [try] block left it when it threw. *)
Definition indexFile (idx : classIndex) (filePath : string)
  : outcome classIndex :=
  match indexFileTry idx filePath with
  | Returned idx' => Returned idx'
  | Thrown _ => Returned idx
  end.

(** The index after [indexFile] has settled. *)
Definition afterIndexFile (idx : classIndex) (filePath : string)
  : classIndex :=
  match indexFile idx filePath with
  | Returned idx' => idx'
  | Thrown _ => idx
  end.

(** [indexWorkspace] on the files found: every file is read and parsed,
    then the index updates run one after the other in file order. *)
Definition indexWorkspace (idx : classIndex) (files : list string)
  : classIndex :=
  fold_left afterIndexFile files idx.

Definition rescanFiles (idx : classIndex) (files : list string)
  : classIndex :=
  indexWorkspace (clearCache idx) files.

End IndexFile.

(** *** Statistics *)

(** [new Set(values)]: the distinct values, each at its first place. *)
Definition setAdd (s : list string) (x : string) : list string :=
  if existsb (String.eqb x) s then s else s ++ [x].

Definition newSet (values : list string) : list string :=
  fold_left setAdd values [].

Record IndexStatistics : Type := mkStatistics {
  classCount : Z;
  fileCount : Z;
  lastIndexed : Z
}.

(** [getStatistics()], [now] being what [new Date()] gives. *)
Definition getStatistics (idx : classIndex) (now : Z) : IndexStatistics :=
  let fileCount :=
    Z.of_nat (List.length (newSet (map sourceFile (mapValues idx)))) in
  {| classCount := Z.of_nat (List.length idx);
     fileCount := fileCount;
     lastIndexed := now |}.

End Indexer.

(** ** The editor providers *)

Module Providers.

Import JS Parser Indexer.
#[local] Open Scope list_scope.

(** *** Completion: the word around the cursor *)

(** [isClassNameChar(lineText[i])]: [/[a-zA-Z0-9_-]/] tested on one
    character, or on [undefined] when the index is out of range, which
    the test turns into the text of that word and so accepts. *)
Definition isClassNameChar (char : option ascii) : bool :=
  match char with
  | Some c => isIdentChar c
  | None => true
  end.

(** [while (start > 0 && isClassNameChar(lineText[start - 1])) start--] *)
Fixpoint expandStart (lineText : string) (start : nat) : nat :=
  match start with
  | O => O
  | S start' =>
      if isClassNameChar (String.get start' lineText)
      then expandStart lineText start'
      else start
  end.

(** [while (end < lineText.length && isClassNameChar(lineText[end]))
    end++]; the loop makes at most [fuel] rounds and is run with the
    distance from the cursor to the end of the line. *)
Fixpoint expandEnd (lineText : string) (fuel : nat) (endPos : nat) : nat :=
  match fuel with
  | O => endPos
  | S fuel' =>
      if (Nat.ltb endPos (String.length lineText)
          && isClassNameChar (String.get endPos lineText))%bool
      then expandEnd lineText fuel' (S endPos)
      else endPos
  end.

Record charRange : Type := mkRange { rangeStart : nat; rangeEnd : nat }.

(** [getClassNameRange(lineText, cursorPos)]; both branches of its last
    test return the range, so it never returns [null]. *)
Definition getClassNameRange (lineText : string) (cursorPos : nat)
  : option charRange :=
  let start := expandStart lineText cursorPos in
  let endPos :=
    expandEnd lineText (String.length lineText - cursorPos) cursorPos in
  Some {| rangeStart := start; rangeEnd := endPos |}.

(** [s.substring(a, b)] on indices that are not negative: the two are
    put in order and text beyond the end is not there to take. *)
Definition substringBetween (a b : nat) (s : string) : string :=
  String.substring (Nat.min a b) (Nat.max a b - Nat.min a b) s.

(** The query of [provideCompletionItems]. *)
Definition completionQuery (lineText : string) (cursorPos : nat)
  : option string :=
  match getClassNameRange lineText cursorPos with
  | Some range =>
      Some (substringBetween (rangeStart range) (rangeEnd range) lineText)
  | None => None
  end.

(** *** Are we inside a class attribute? *)

(** Pieces of the patterns, each taking what is to match next as a
    continuation on the rest of the text. *)

(** A literal. *)
Fixpoint literal (word : string) (next : string -> bool) (s : string)
  : bool :=
  match word with
  | EmptyString => next s
  | String a word' =>
      match s with
      | String c s' => (Ascii.eqb c a && literal word' next s')%bool
      | EmptyString => false
      end
  end.

(** [\s*] in front of something that cannot start with white space. *)
Definition spaces (next : string -> bool) (s : string) : bool :=
  next (trimStart s).

(** The two quote characters, double (code 34) and single (code 39). *)
Definition isQuote (c : ascii) : bool :=
  (Ascii.eqb c "034" || Ascii.eqb c "039")%bool.

Definition notQuote (c : ascii) : bool := negb (isQuote c).

Fixpoint allOf (P : ascii -> bool) (s : string) : bool :=
  match s with
  | EmptyString => true
  | String c s' => (P c && allOf P s')%bool
  end.

(** A quote, then no quote up to the end of the text: [[q][^q]*$],
    [q] standing for the two quote characters. *)
Definition openQuote (s : string) : bool :=
  match s with
  | String q s' => (isQuote q && allOf notQuote s')%bool
  | EmptyString => false
  end.

(** [\s*=\s*[q][^q]*$] *)
Definition assignsOpenQuote : string -> bool :=
  spaces (literal "=" (spaces openQuote)).

(** A pattern without [^] is tried at every position. *)
Fixpoint anywhere (P : string -> bool) (s : string) : bool :=
  (P s || match s with
          | EmptyString => false
          | String _ s' => anywhere P s'
          end)%bool.

(** [/className\s*=\s*[q][^q]*$/] *)
Definition classNamePattern : string -> bool :=
  anywhere (literal "className" assignsOpenQuote).

(** [/class\s*=\s*[q][^q]*$/] *)
Definition classPattern : string -> bool :=
  anywhere (literal "class" assignsOpenQuote).

(** [/classList\.(add|remove|toggle)\s*\(\s*[q][^q]*$/] *)
Definition classListPattern : string -> bool :=
  let call := spaces (literal "(" (spaces openQuote)) in
  anywhere
    (literal "classList."
       (fun s => (literal "add" call s || literal "remove" call s
                  || literal "toggle" call s)%bool)).

(** [\w] *)
Definition isWordChar (c : ascii) : bool :=
  (isLower c || isUpper c || isDigit c || Ascii.eqb c "_")%bool.

(** [[^>]*\s] followed by [next]: some white-space character, reached
    without passing a [>], after which [next] matches. *)
Fixpoint untilSpace (next : string -> bool) (s : string) : bool :=
  match s with
  | EmptyString => false
  | String c s' =>
      ((isWhiteSpace c && next s')
       || (negb (Ascii.eqb c ">") && untilSpace next s'))%bool
  end.

(** [<\w+[^>]*\s] followed by [next]; a word character is no [>], so
    it is enough to ask for one after the [<]. *)
Definition inTag (next : string -> bool) (s : string) : bool :=
  match s with
  | String lt (String w rest) =>
      (Ascii.eqb lt "<" && isWordChar w && untilSpace next rest)%bool
  | _ => false
  end.

(** [/<\w+[^>]*\sclass\s*=\s*[q][^q]*$/] and the same with
    [className]. *)
Definition tagClassPattern : string -> bool :=
  anywhere (inTag (literal "class" assignsOpenQuote)).

Definition tagClassNamePattern : string -> bool :=
  anywhere (inTag (literal "className" assignsOpenQuote)).

(** [isInClassAttribute(lineText, position)] of the hover and the
    definition provider. *)
Definition isInClassAttribute (lineText : string) (position : nat) : bool :=
  let beforePosition := substringBetween 0 position lineText in
  existsb (fun pattern => pattern beforePosition)
    [classNamePattern; classPattern; classListPattern].

(** [shouldProvideCompletions] of the completion provider, given the
    text of the line and the cursor's character. *)
Definition shouldProvideCompletions (lineText : string) (character : nat)
  : bool :=
  let beforeCursor := substringBetween 0 character lineText in
  existsb (fun pattern => pattern beforeCursor)
    [classNamePattern; classPattern; classListPattern;
     tagClassPattern; tagClassNamePattern].

(** *** Completion: the detail line *)

(** [s.substring(0, n)] for a number [n] that may be negative. *)
Definition substringTo (n : Z) (s : string) : string :=
  String.substring 0 (Z.to_nat n) s.

Definition truncateValue (value : string) (maxLength : Z) : string :=
  if Z.of_nat (String.length value) <=? maxLength then value
  else (substringTo (maxLength - 3) value ++ "...")%string.

(** [maxLength] left out takes its default. *)
Definition truncateValueDefault (value : string) : string :=
  truncateValue value 30.

Definition important : list string :=
  [ "display"; "position"; "color"; "background-color"; "font-size";
    "margin"; "padding" ].

(** [cssClass.properties[prop]] turned to text: an absent property
    prints as [undefined]. *)
Definition propertyText (props : object) (prop : string) : string :=
  match objGet props prop with
  | Some v => v
  | None => "undefined"
  end.

Definition propertyEntry (props : object) (prop : string) : string :=
  (prop ++ ": " ++ truncateValueDefault (propertyText props prop))%string.

Definition getPrimaryProperties (cssClass : CSSClass) : list string :=
  let props := properties cssClass in
  let fromImportant :=
    flat_map
      (fun prop =>
         if truthy props prop then [propertyEntry props prop] else [])
      important in
  let remaining :=
    slice0
      (filter (fun prop => negb (existsb (String.eqb prop) important))
         (keys props))
      (3 - Z.of_nat (List.length fromImportant)) in
  let all := fromImportant ++ map (propertyEntry props) remaining in
  slice0 all 3.

(** *** Hover: the range of the word *)

(** [s.indexOf(p, 0)] *)
Fixpoint indexOf (s p : string) : Z :=
  if startsWith s p then 0
  else match s with
       | EmptyString => -1
       | String _ s' =>
           let i := indexOf s' p in
           if i <? 0 then -1 else i + 1
       end.

(** [getClassNameRange(document, position, className)] of the hover
    provider, as start and end character in the line. *)
Definition hoverRange (lineText className : string) : Z * Z :=
  let startIndex := indexOf lineText className in
  let endIndex := startIndex + Z.of_nat (String.length className) in
  (startIndex, endIndex).

(** *** Go to definition *)

Record Location : Type := mkLocation {
  uri : string;
  locLine : Z;
  locCharacter : Z
}.

(** [provideDefinition], given what [getClassNameAtPosition] found. *)
Definition provideDefinition (idx : classIndex) (className : option string)
  : option Location :=
  match className with
  | None => None
  | Some nm =>
      match getClass idx nm with
      | None => None
      | Some cssClass =>
          Some {| uri := sourceFile cssClass;
                  locLine := Z.max 0 (line cssClass - 1);
                  locCharacter := Z.max 0 (column cssClass - 1) |}
      end
  end.

End Providers.

(** ** Vocabulary of the properties *)

Module Props.

Import JS Parser Indexer.
#[local] Open Scope list_scope.

(** [p] is a subsequence of [s]: the characters of [p] occur in [s] in
    order, not necessarily next to each other. *)
Inductive Subsequence : string -> string -> Prop :=
| subsequence_empty : forall s, Subsequence EmptyString s
| subsequence_take : forall c p s,
    Subsequence p s -> Subsequence (String c p) (String c s)
| subsequence_skip : forall c p s,
    Subsequence p s -> Subsequence p (String c s).

Definition IsPrefix (p s : string) : Prop :=
  exists r, s = (p ++ r)%string.

Definition IsSubstring (p s : string) : Prop :=
  exists a b, s = (a ++ p ++ b)%string.

(** *** The fuzzy tier, as the specification words it *)

(** The single left-to-right scan: for every character of the name that
    the scan looks at, whether it matched the next character of the
    query; and the part of the query left unmatched at the end. *)
Fixpoint scanTrace (nm query : string) : list bool * string :=
  match query with
  | EmptyString => ([], query)
  | String q query' =>
      match nm with
      | EmptyString => ([], query)
      | String n nm' =>
          if Ascii.eqb n q
          then let '(tr, rest) := scanTrace nm' query' in (true :: tr, rest)
          else let '(tr, rest) := scanTrace nm' query in (false :: tr, rest)
      end
  end.

(** Number of consecutive matches immediately before a position, the
    earlier part of the trace being given nearest first. *)
Fixpoint precedingRun (before : list bool) : Z :=
  match before with
  | true :: before' => 1 + precedingRun before'
  | _ => 0
  end.

(** The running total: every matched character contributes 1 plus the
    number of immediately preceding consecutive matches. *)
Fixpoint runningTotal (before trace : list bool) : Z :=
  match trace with
  | [] => 0
  | m :: trace' =>
      (if m then 1 + precedingRun before else 0)
      + runningTotal (m :: before) trace'
  end.

Definition fuzzyBySpec (nm query : string) : Z :=
  let '(trace, rest) := scanTrace nm query in
  match rest with
  | EmptyString => Z.min (runningTotal [] trace * 2) 40
  | _ => 0
  end.

(** Descending score. *)
Definition byScore (a b : scored) : Prop := snd b <= snd a.

(** The score search gives a record for a query. *)
Definition scoreOf (query : string) (c : CSSClass) : Z :=
  calculateMatchScore (name c) (toLowerCase query).

Definition matching (query : string) (c : CSSClass) : bool :=
  0 <? scoreOf query c.

(** All the matches of a query in ranked order, before the limit is
    applied. *)
Definition ranked (idx : classIndex) (query : string) : list CSSClass :=
  if String.eqb query EmptyString then getAllClasses idx
  else map fst
         (sortByScore
            (flat_map (scoreEntry (toLowerCase query)) (mapValues idx))).

(** *** Class tokens *)

(** A token that passes the test guarding record creation. *)
Definition validToken (tok : string) : Prop :=
  (startsWith tok "." && isValidClassName tok)%bool = true.

Definition validState (st : scanState) : Prop :=
  match st with
  | Inside tok => validToken tok
  | _ => True
  end.

(** What one character does to the scan: the token it closes, if any,
    and the next state. *)
Definition scanStep (st : scanState) (c : ascii)
  : list string * scanState :=
  match st with
  | Outside => ([], restart c)
  | AfterDot =>
      if isIdentStart c
      then ([], Inside (String "." (String c EmptyString)))
      else ([], restart c)
  | Inside tok =>
      if isIdentChar c
      then ([], Inside (tok ++ String c EmptyString)%string)
      else ([tok], restart c)
  end.

(** White space and the comma separate tokens: they close the token
    under way and start none. *)
Definition separator (c : ascii) : Prop :=
  isDot c = false /\ isIdentStart c = false /\ isIdentChar c = false.

(** *** Rules of a syntax tree *)

(** The rules that [walkRules] visits, in visiting order, each with its
    previous sibling. *)
Fixpoint rulesOfNode (prev : option Node) (n : Node)
  : list (option Node * Node) :=
  let rulesOfSiblings :=
    fix go (prev : option Node) (ns : list Node)
      : list (option Node * Node) :=
      match ns with
      | [] => []
      | m :: ns' => rulesOfNode prev m ++ go (Some m) ns'
      end in
  match n with
  | Rule _ _ ns => (prev, n) :: rulesOfSiblings None ns
  | AtRule _ _ ns => rulesOfSiblings None ns
  | Declaration _ _ => []
  | Comment _ => []
  end.

Fixpoint rulesOfNodes (prev : option Node) (ns : list Node)
  : list (option Node * Node) :=
  match ns with
  | [] => []
  | m :: ns' => rulesOfNode prev m ++ rulesOfNodes (Some m) ns'
  end.

Definition rulesOf (root : Root) : list (option Node * Node) :=
  rulesOfNodes None root.

(** The records one visited rule contributes. *)
Definition recordsOfRule (filePath : string) (visit : option Node * Node)
  : list CSSClass :=
  match snd visit with
  | Rule rsel source ns => classesOfRule filePath (fst visit) rsel source ns
  | _ => []
  end.

(** The property map every record of a rule carries. *)
Definition ruleProperties (n : Node) : object :=
  collectProperties (walkDecls n).

(** The record a rule gives for one class token of its selector. *)
Definition recordOfToken (filePath : string) (prev : option Node)
  (rule : Node) (tok : string) : CSSClass :=
  match rule with
  | Rule rsel source _ =>
      {| name := substringFrom 1 tok;
         properties := ruleProperties rule;
         selector := rsel;
         sourceFile := filePath;
         line := startLine source;
         column := startColumn source;
         category :=
           Some (inferCategory (substringFrom 1 tok) (ruleProperties rule));
         description := optionalField (extractDescription prev) |}
  | _ =>
      {| name := substringFrom 1 tok; properties := [];
         selector := EmptyString; sourceFile := filePath;
         line := 0; column := 0; category := None; description := None |}
  end.

(** A rule whose start position is present and 1-based. *)
Definition positioned (n : Node) : Prop :=
  match n with
  | Rule _ (Some (mkSource (Some p))) _ => 1 <= posLine p /\ 1 <= posColumn p
  | _ => False
  end.

(** *** Category tiers *)







(** *** Description markers *)

Fixpoint allChars (P : ascii -> bool) (s : string) : bool :=
  match s with
  | EmptyString => true
  | String c s' => (P c && allChars P s')%bool
  end.



(** *** Index states *)

(** The grammar chosen for a path, as [parseCSS] chooses it. *)
Definition isScssPath (filePath : string) : bool :=
  (endsWith filePath ".scss" || endsWith filePath ".sass")%bool.

(** A record with a 1-based position. *)
Definition oneBased (c : CSSClass) : Prop := 1 <= line c /\ 1 <= column c.

(** The last record of a list that bears a given name. *)
Definition lastNamed (N : string) (cs : list CSSClass) : option CSSClass :=
  find (fun c => String.eqb (name c) N) (rev cs).

Definition fromOtherFile (filePath : string) (e : string * CSSClass) : bool :=
  negb (String.eqb (sourceFile (snd e)) filePath).

(** Every key occurs once and is the name of its record. *)
Definition wellKeyed (idx : classIndex) : Prop :=
  NoDup (map fst idx) /\ Forall (fun e => fst e = name (snd e)) idx.

(** The states the index goes through: it starts empty and changes only
    through [indexFile], [removeClassesFromFile], [clearCache] and
    [rescanFiles], each run against the file system and the grammar as
    they are at that moment. *)
Inductive reachable : classIndex -> Prop :=
| reach_new : reachable []
| reach_indexFile : forall readFileSync processorParse idx filePath,
    reachable idx ->
    reachable (afterIndexFile readFileSync processorParse idx filePath)
| reach_remove : forall idx filePath,
    reachable idx -> reachable (removeClassesFromFile idx filePath)
| reach_clear : forall idx,
    reachable idx -> reachable (clearCache idx)
| reach_rescan : forall readFileSync processorParse idx files,
    reachable idx ->
    reachable (rescanFiles readFileSync processorParse idx files).

End Props.

(** ** Sample data *)

Module Examples.

Import JS Parser Indexer.
#[local] Open Scope list_scope.

Definition sampleClass (nm file : string) : CSSClass :=
  {| name := nm;
     properties := [("color", "red")];
     selector := ("." ++ nm)%string;
     sourceFile := file;
     line := 1;
     column := 1;
     category := Some (inferCategory nm [("color", "red")]);
     description := None |}.

(** An index holding [xyz], [btn-primary] and [primary], inserted in
    that order. *)
Definition primaryIndex : classIndex :=
  insertClasses []
    [ sampleClass "xyz" "/w/a.css";
      sampleClass "btn-primary" "/w/a.css";
      sampleClass "primary" "/w/b.css" ].

(** A rule with two selector groups and no declaration. *)
Definition emptyRuleSheet : Root :=
  [ Rule ".a, .b" (Some (mkSource (Some (mkPosition 1 1)))) [] ].

Definition cardRule : Node :=
  Rule ".card.active, .panel > .title"
    (Some (mkSource (Some (mkPosition 3 1))))
    [ Declaration "color" "red"; Declaration "margin" "0" ].

(** A comment, then a rule with a compound selector, a combinator and
    two selector groups. *)
Definition cardSheet : Root := [ Comment " helper "; cardRule ].

(** File systems and grammars that answer the same for every call. *)
Definition readsAs (content : string) (path : string) : outcome string :=
  Returned content.

Definition readFails (path : string) : outcome string :=
  Thrown "ENOENT: no such file or directory".

Definition parsesTo (root : Root) (isScss : bool) (content from : string)
  : outcome Root :=
  Returned root.

Definition parseFails (isScss : bool) (content from : string)
  : outcome Root :=
  Thrown "CssSyntaxError: Unclosed block".

(** An index that holds one class read earlier from [/w/a.css]. *)
Definition buttonIndex : classIndex :=
  insertClasses [] [ sampleClass "btn" "/w/a.css" ].

(** A sheet that defines [xyz] anew. *)
Definition xyzSheet : Root :=
  [ Rule ".xyz" (Some (mkSource (Some (mkPosition 1 1))))
      [ Declaration "color" "blue" ] ].

(** An index whose names mix upper and lower case: [xyz], [Prim-Ary],
    [Btn-Primary], [PrimaryDark] and [Primary], inserted in that
    order. *)
Definition mixedIndex : classIndex :=
  insertClasses []
    [ sampleClass "xyz" "/w/a.css";
      sampleClass "Prim-Ary" "/w/a.css";
      sampleClass "Btn-Primary" "/w/a.css";
      sampleClass "PrimaryDark" "/w/b.css";
      sampleClass "Primary" "/w/b.css" ].

(** A sheet that defines [xyz] twice, and [panel]. *)
Definition themeSheet : Root :=
  [ Rule ".xyz" (Some (mkSource (Some (mkPosition 2 3))))
      [ Declaration "color" "green" ];
    Rule ".panel" (Some (mkSource (Some (mkPosition 5 1))))
      [ Declaration "margin" "0" ];
    Rule ".xyz" (Some (mkSource (Some (mkPosition 9 1))))
      [ Declaration "color" "black" ] ].

(** A workspace of four files.  [/w/gone.css] cannot be read; of the
    others [/w/theme.css] holds [themeSheet], [/w/c.css] holds
    [xyzSheet], [/w/card.css] holds [cardSheet], and any other file does
    not parse. *)
Definition workspaceRead (path : string) : outcome string :=
  if String.eqb path "/w/gone.css"
  then Thrown "ENOENT: no such file or directory"
  else Returned ("contents of " ++ path)%string.

Definition workspaceParse (isScss : bool) (content from : string)
  : outcome Root :=
  if String.eqb from "/w/theme.css" then Returned themeSheet
  else if String.eqb from "/w/c.css" then Returned xyzSheet
  else if String.eqb from "/w/card.css" then Returned cardSheet
  else Thrown "CssSyntaxError: Unclosed block".

(** A class whose rule declares five properties, two of them among the
    important ones, and [opacity] twice. *)
Definition layerDeclarations : list (string * string) :=
  [ ("z-index", "2"); ("opacity", "1"); ("color", "red");
    ("opacity", "0.5"); ("display", "flex"); ("top", "0") ].

Definition layerClass : CSSClass :=
  {| name := "layer";
     properties := collectProperties layerDeclarations;
     selector := ".layer";
     sourceFile := "/w/a.css";
     line := 1;
     column := 1;
     category := Some "Layout";
     description := None |}.

(** The record [/w/c.css] gives for [xyz]. *)
Definition blueXyz : CSSClass :=
  {| name := "xyz";
     properties := [("color", "blue")];
     selector := ".xyz";
     sourceFile := "/w/c.css";
     line := 1;
     column := 1;
     category := Some "Typography";
     description := None |}.

End Examples.

(** ** Further vocabulary *)

Module Measures.

Import JS Parser Indexer Providers.
#[local] Open Scope list_scope.

(** Number of matched characters in a scan trace. *)
Fixpoint countMatches (trace : list bool) : Z :=
  match trace with
  | [] => 0
  | m :: trace' => (if m then 1 else 0) + countMatches trace'
  end.

(** [[a-zA-Z_][\w-]*], the shape of a class name. *)
Definition isIdentifier (s : string) : bool :=
  match s with
  | String c rest => (isIdentStart c && allIdentChars rest)%bool
  | EmptyString => false
  end.

(** The value of the last declaration of a property in a list of
    declarations. *)
Definition lastValue (k : string) (decls : list (string * string))
  : option string :=
  option_map snd (find (fun d => String.eqb (fst d) k) (rev decls)).

(** What the text scanned so far has to end with for a scan state. *)
Definition stateSuffix (st : scanState) (pre : string) : Prop :=
  match st with
  | Outside => True
  | AfterDot => exists a, pre = (a ++ ".")%string
  | Inside tok => exists a, pre = (a ++ tok)%string
  end.

(** The eight category labels. *)
Definition categoryLabels : list string :=
  [ "Layout"; "Typography"; "Background"; "Border"; "Spacing"; "Sizing";
    "Visibility"; "Utilities" ].

(** A pattern that needs a quote to match and that typing on without a
    quote does not disturb. *)
Definition quoteBound (P : string -> bool) : Prop :=
  P EmptyString = false
  /\ forall s typed, allOf notQuote typed = true -> P (s ++ typed)%string = P s.

(** The entries [getPrimaryProperties] draws from: the important
    properties that are set, in their fixed order, then the other
    properties in the order of the keys. *)
Definition importantEntries (cssClass : CSSClass) : list string :=
  flat_map
    (fun prop =>
       if truthy (properties cssClass) prop
       then [propertyEntry (properties cssClass) prop] else [])
    important.

Definition otherEntries (cssClass : CSSClass) : list string :=
  map (propertyEntry (properties cssClass))
    (filter (fun prop => negb (existsb (String.eqb prop) important))
       (keys (properties cssClass))).

(** Two code units that are the same letter of A-Z up to case, or the
    same code unit. *)
Definition sameLetter (a b : ascii) : bool :=
  (Ascii.eqb a b
   || (isUpper a && Nat.eqb (code b) (code a + 32))
   || (isUpper b && Nat.eqb (code a) (code b + 32)))%bool.

(** Two texts that differ at most in the case of the letters A-Z. *)
Fixpoint sameText (s t : string) : bool :=
  match s, t with
  | EmptyString, EmptyString => true
  | String a s', String b t' => (sameLetter a b && sameText s' t')%bool
  | _, _ => false
  end.

(** A grammar that gives every rule a 1-based start position, as the
    postcss parsers do for the text they parse. *)
Definition positionedTrees
  (processorParse : bool -> string -> string -> outcome Root) : Prop :=
  forall isScss content from root,
    processorParse isScss content from = Returned root ->
    Forall (fun visit => Props.positioned (snd visit)) (Props.rulesOf root).

(** The states the index goes through when the records come from such
    grammars. *)
Inductive indexed : classIndex -> Prop :=
| indexed_new : indexed []
| indexed_indexFile : forall readFileSync processorParse idx filePath,
    positionedTrees processorParse ->
    indexed idx ->
    indexed (afterIndexFile readFileSync processorParse idx filePath)
| indexed_remove : forall idx filePath,
    indexed idx -> indexed (removeClassesFromFile idx filePath)
| indexed_clear : forall idx,
    indexed idx -> indexed (clearCache idx)
| indexed_rescan : forall readFileSync processorParse idx files,
    positionedTrees processorParse ->
    indexed idx ->
    indexed (rescanFiles readFileSync processorParse idx files).

(** A property name that is not made of digits only.  The names made of
    digits only include the integer-like keys, which [Object.keys] lists
    first and in ascending order whatever the order of insertion. *)
Definition isDigits (k : string) : bool := Props.allChars isDigit k.

(** A dictionary whose keys are distinct and none of them made of digits
    only: [Object.keys] lists them in the order of insertion. *)
Definition plainKeys (props : object) : Prop :=
  NoDup (keys props) /\ Forall (fun k => isDigits k = false) (keys props).

(** The keys of a list in the order of their first occurrence, those
    already seen left out. *)
Fixpoint firstOccurrences (seen ks : list string) : list string :=
  match ks with
  | [] => []
  | k :: ks' =>
      if existsb (String.eqb k) seen then firstOccurrences seen ks'
      else k :: firstOccurrences (k :: seen) ks'
  end.

(** The properties a list of declarations sets, in the order in which
    they are first declared. *)
Definition declaredProperties (decls : list (string * string))
  : list string :=
  firstOccurrences []
    (filter (fun k => negb (String.eqb k "__proto__")) (map fst decls)).

(* more measures *)

End Measures.

Import JS Parser Indexer Providers Props Examples Measures.
#[local] Open Scope list_scope.


(** ** Strings *)

Lemma ascii_eqb_true (a b : ascii) : Ascii.eqb a b = true <-> a = b.
Proof. apply Ascii.eqb_eq. Qed.

Lemma startsWith_IsPrefix (s p : string) :
  startsWith s p = true <-> IsPrefix p s.
Proof.
  revert s; induction p as [|b p IH]; intros s; simpl.
  - split; [intros _; exists s; reflexivity | reflexivity].
  - destruct s as [|a s].
    + split; [discriminate | intros [r Hr]; discriminate].
    + rewrite andb_true_iff, ascii_eqb_true, IH. split.
      * intros [-> [r ->]]. exists r. reflexivity.
      * intros [r Hr]. simpl in Hr. injection Hr as -> ->.
        split; [reflexivity | exists r; reflexivity].
Qed.

Lemma includes_IsSubstring (s p : string) :
  includes s p = true <-> IsSubstring p s.
Proof.
  induction s as [|a s IH]; simpl.
  - destruct (startsWith "" p) eqn:E.
    + split; [intros _ | reflexivity].
      apply startsWith_IsPrefix in E. destruct E as [r Hr].
      exists EmptyString, r. exact Hr.
    + split; [discriminate |].
      intros [x [y H]]. destruct x; simpl in H; [|discriminate].
      assert (startsWith "" p = true)
        by (apply startsWith_IsPrefix; exists y; exact H).
      congruence.
  - destruct (startsWith (String a s) p) eqn:E.
    + split; [intros _ | reflexivity].
      apply startsWith_IsPrefix in E. destruct E as [r Hr].
      exists EmptyString, r. exact Hr.
    + rewrite IH. split.
      * intros [x [y ->]]. exists (String a x), y. reflexivity.
      * intros [x [y H]]. destruct x as [|c x]; simpl in H.
        -- assert (startsWith (String a s) p = true)
             by (apply startsWith_IsPrefix; exists y; exact H).
           congruence.
        -- injection H as _ ->. exists x, y. reflexivity.
Qed.

Lemma Subsequence_refl (s : string) : Subsequence s s.
Proof. induction s; constructor; assumption. Qed.

Lemma Subsequence_append_right (p s r : string) :
  Subsequence p s -> Subsequence p (s ++ r)%string.
Proof. induction 1; simpl; constructor; assumption. Qed.

Lemma Subsequence_append_left (p s a : string) :
  Subsequence p s -> Subsequence p (a ++ s)%string.
Proof. intros H; induction a; simpl; [|constructor]; assumption. Qed.

Lemma IsPrefix_Subsequence (p s : string) :
  IsPrefix p s -> Subsequence p s.
Proof.
  intros [r ->]. apply Subsequence_append_right, Subsequence_refl.
Qed.

Lemma IsSubstring_Subsequence (p s : string) :
  IsSubstring p s -> Subsequence p s.
Proof.
  intros [a [b ->]].
  apply Subsequence_append_left, Subsequence_append_right, Subsequence_refl.
Qed.

Lemma Subsequence_tail (c : ascii) (p s : string) :
  Subsequence (String c p) s -> Subsequence p s.
Proof.
  intros H. remember (String c p) as q eqn:Eq. revert c p Eq.
  induction H; intros c' p' Eq; try discriminate.
  - injection Eq as -> ->. constructor. assumption.
  - constructor. eapply IHSubsequence. exact Eq.
Qed.

(** ** The fuzzy scan *)

Lemma precedingRun_nonneg (before : list bool) : 0 <= precedingRun before.
Proof.
  induction before as [|[|] before IH]; cbn [precedingRun]; lia.
Qed.

Lemma runningTotal_nonneg (trace before : list bool) :
  0 <= runningTotal before trace.
Proof.
  revert before; induction trace as [|m trace IH]; intros before;
    cbn [runningTotal].
  - lia.
  - specialize (IH (m :: before)).
    pose proof (precedingRun_nonneg before). destruct m; lia.
Qed.

Lemma fuzzyLoop_scanTrace (text pattern : string) (score : Z)
  (before : list bool) :
  fuzzyLoop text pattern score (precedingRun before)
  = (snd (scanTrace text pattern),
     score + runningTotal before (fst (scanTrace text pattern))).
Proof.
  revert pattern score before.
  induction text as [|t text IH]; intros pattern score before.
  - destruct pattern; simpl; f_equal; lia.
  - destruct pattern as [|p pattern]; simpl; [f_equal; lia|].
    destruct (Ascii.eqb t p).
    + replace (precedingRun before + 1) with (precedingRun (true :: before))
        by (cbn [precedingRun]; lia).
      rewrite IH. destruct (scanTrace text pattern) as [tr rest]. simpl.
      f_equal. lia.
    + change 0 with (precedingRun (false :: before)) at 1.
      rewrite IH. destruct (scanTrace text (String p pattern)) as [tr rest].
      simpl. f_equal.
Qed.

Lemma fuzzyMatch_fuzzyBySpec (text pattern : string) :
  fuzzyMatch text pattern = fuzzyBySpec text pattern.
Proof.
  unfold fuzzyMatch, fuzzyBySpec.
  change 0 with (precedingRun []) at 2.
  rewrite fuzzyLoop_scanTrace.
  destruct (scanTrace text pattern) as [tr rest]. simpl.
  destruct rest; reflexivity.
Qed.

Lemma scanTrace_consumed (text pattern : string) :
  snd (scanTrace text pattern) = EmptyString <-> Subsequence pattern text.
Proof.
  revert pattern; induction text as [|t text IH]; intros pattern.
  - destruct pattern; simpl.
    + split; [constructor | reflexivity].
    + split; [discriminate | intros H; inversion H].
  - destruct pattern as [|p pattern]; simpl.
    + split; [constructor | reflexivity].
    + destruct (Ascii.eqb t p) eqn:E.
      * apply ascii_eqb_true in E. subst p.
        specialize (IH pattern).
        destruct (scanTrace text pattern) as [tr rest]. simpl in *.
        rewrite IH. split.
        -- intros H. constructor. exact H.
        -- intros H. inversion H; subst; [assumption|].
           eapply Subsequence_tail. eassumption.
      * specialize (IH (String p pattern)).
        destruct (scanTrace text (String p pattern)) as [tr rest].
        simpl in *. rewrite IH. split.
        -- intros H. constructor. exact H.
        -- intros H. inversion H; subst; [|assumption].
           rewrite Ascii.eqb_refl in E. discriminate.
Qed.

Lemma scanTrace_total_positive (text pattern : string) (before : list bool) :
  pattern <> EmptyString ->
  snd (scanTrace text pattern) = EmptyString ->
  1 <= runningTotal before (fst (scanTrace text pattern)).
Proof.
  revert pattern before; induction text as [|t text IH];
    intros pattern before Hne Hrest.
  - destruct pattern; cbn [scanTrace snd] in Hrest; congruence.
  - destruct pattern as [|p pattern]; [congruence|].
    cbn [scanTrace] in *.
    destruct (Ascii.eqb t p).
    + destruct (scanTrace text pattern) as [tr rest].
      cbn [fst snd runningTotal] in *.
      pose proof (precedingRun_nonneg before).
      pose proof (runningTotal_nonneg tr (true :: before)). lia.
    + specialize (IH (String p pattern) (false :: before) Hne).
      destruct (scanTrace text (String p pattern)) as [tr rest].
      cbn [fst snd runningTotal] in *. specialize (IH Hrest). lia.
Qed.

Lemma fuzzyMatch_range (text pattern : string) :
  0 <= fuzzyMatch text pattern <= 40.
Proof.
  rewrite fuzzyMatch_fuzzyBySpec. unfold fuzzyBySpec.
  destruct (scanTrace text pattern) as [tr rest].
  pose proof (runningTotal_nonneg tr []).
  destruct rest; lia.
Qed.

Lemma fuzzyMatch_positive (text pattern : string) :
  0 < fuzzyMatch text pattern
  <-> pattern <> EmptyString /\ Subsequence pattern text.
Proof.
  rewrite fuzzyMatch_fuzzyBySpec. unfold fuzzyBySpec.
  rewrite <- scanTrace_consumed.
  pose proof (scanTrace_total_positive text pattern []) as Hpos.
  destruct (scanTrace text pattern) as [tr rest] eqn:E.
  cbn [fst snd] in *.
  split.
  - intros H. destruct rest; [|lia]. split; [|reflexivity].
    intros ->.
    assert (tr = []) as ->
      by (destruct text; cbn [scanTrace] in E; congruence).
    cbn [runningTotal] in H. lia.
  - intros [Hne ->]. specialize (Hpos Hne eq_refl). lia.
Qed.

(** ** Scores *)

Lemma string_eqb_true (a b : string) : String.eqb a b = true <-> a = b.
Proof. apply String.eqb_eq. Qed.

(** The tiers of [calculateMatchScore], read off propositions. *)
Lemma calculateMatchScore_tiers (className query : string) :
  let n := toLowerCase className in
  (n = query -> calculateMatchScore className query = 100)
  /\ (n <> query -> IsPrefix query n ->
      calculateMatchScore className query = 80)
  /\ (n <> query -> ~ IsPrefix query n -> IsSubstring query n ->
      calculateMatchScore className query = 60)
  /\ (n <> query -> ~ IsPrefix query n -> ~ IsSubstring query n ->
      calculateMatchScore className query = fuzzyMatch n query).
Proof.
  intros n. unfold calculateMatchScore. fold n.
  destruct (String.eqb n query) eqn:Eeq.
  - apply string_eqb_true in Eeq.
    repeat split; intros; congruence.
  - assert (n <> query) as Hne
      by (intros H; apply string_eqb_true in H; congruence).
    destruct (startsWith n query) eqn:Epre.
    + apply startsWith_IsPrefix in Epre.
      repeat split; intros; try reflexivity; contradiction.
    + assert (~ IsPrefix query n) as Hnp
        by (intros H; apply startsWith_IsPrefix in H; congruence).
      destruct (includes n query) eqn:Einc.
      * apply includes_IsSubstring in Einc.
        repeat split; intros; try reflexivity; contradiction.
      * assert (~ IsSubstring query n) as Hns
          by (intros H; apply includes_IsSubstring in H; congruence).
        repeat split; intros; try reflexivity; contradiction.
Qed.

Lemma calculateMatchScore_range (className query : string) :
  0 <= calculateMatchScore className query <= 100.
Proof.
  unfold calculateMatchScore.
  pose proof (fuzzyMatch_range (toLowerCase className) query).
  destruct (String.eqb _ _); [lia|].
  destruct (startsWith _ _); [lia|].
  destruct (includes _ _); lia.
Qed.

Lemma calculateMatchScore_subsequence (className query : string) :
  0 < calculateMatchScore className query ->
  Subsequence query (toLowerCase className).
Proof.
  unfold calculateMatchScore.
  destruct (String.eqb _ _) eqn:Eeq.
  - intros _. apply string_eqb_true in Eeq. rewrite Eeq.
    apply Subsequence_refl.
  - destruct (startsWith _ _) eqn:Epre.
    + intros _. apply IsPrefix_Subsequence, startsWith_IsPrefix, Epre.
    + destruct (includes _ _) eqn:Einc.
      * intros _.
        apply IsSubstring_Subsequence, includes_IsSubstring, Einc.
      * intros H. apply fuzzyMatch_positive in H. apply H.
Qed.

(** ** Sorting by score and slicing *)

Lemma insertByScore_Forall (P : scored -> Prop) (x : scored)
  (l : list scored) :
  Forall P (insertByScore x l) <-> P x /\ Forall P l.
Proof.
  induction l as [|y l IH]; cbn [insertByScore].
  - split; [intros H; inversion H; auto | intros [? ?]; auto].
  - destruct (snd x <? snd y).
    + split.
      * intros H. inversion H as [|? ? Hy Hr]; subst.
        apply IH in Hr. destruct Hr. auto.
      * intros [Hx Hl]. inversion Hl; subst.
        constructor; [assumption | apply IH; auto].
    + split; [intros H; inversion H; auto | intros [? ?]; auto].
Qed.

Lemma insertByScore_sorted (x : scored) (l : list scored) :
  StronglySorted byScore l -> StronglySorted byScore (insertByScore x l).
Proof.
  induction 1 as [|y l Hs IH Hy]; cbn [insertByScore].
  - repeat constructor.
  - destruct (snd x <? snd y) eqn:E.
    + constructor; [exact IH|].
      apply insertByScore_Forall. split; [|exact Hy].
      unfold byScore. apply Z.ltb_lt in E. lia.
    + apply Z.ltb_ge in E. constructor.
      * constructor; assumption.
      * constructor; [exact E|].
        eapply Forall_impl; [|exact Hy].
        unfold byScore. intros; lia.
Qed.

Lemma sortByScore_sorted (l : list scored) :
  StronglySorted byScore (sortByScore l).
Proof.
  induction l; cbn [sortByScore fold_right];
    [constructor | apply insertByScore_sorted; assumption].
Qed.

Lemma insertByScore_perm (x : scored) (l : list scored) :
  Permutation (insertByScore x l) (x :: l).
Proof.
  induction l as [|y l IH]; cbn [insertByScore]; [reflexivity|].
  destruct (snd x <? snd y); [|reflexivity].
  rewrite IH. apply perm_swap.
Qed.

Lemma sortByScore_perm (l : list scored) : Permutation (sortByScore l) l.
Proof.
  induction l as [|x l IH]; cbn [sortByScore fold_right]; [reflexivity|].
  rewrite insertByScore_perm. constructor. exact IH.
Qed.

(** The tie-break: entries of one score keep their order. *)
Lemma sortByScore_stable (s : Z) (l : list scored) :
  filter (fun e => snd e =? s) (sortByScore l)
  = filter (fun e => snd e =? s) l.
Proof.
  induction l as [|x l IH]; [reflexivity|].
  cbn [sortByScore fold_right]. fold (sortByScore l).
  transitivity (filter (fun e => snd e =? s) (x :: sortByScore l));
    [|cbn [filter]; rewrite IH; reflexivity].
  generalize (sortByScore l). clear IH l.
  intros l. induction l as [|y l IH]; [reflexivity|].
  cbn [insertByScore]. destruct (snd x <? snd y) eqn:E; [|reflexivity].
  cbn [filter] in *. rewrite IH.
  destruct (snd x =? s) eqn:Ex, (snd y =? s) eqn:Ey; try reflexivity.
  apply Z.eqb_eq in Ex, Ey. apply Z.ltb_lt in E. lia.
Qed.

Lemma slice0_firstn {A : Type} (a : list A) (e : Z) :
  exists k, slice0 a e = firstn k a.
Proof. eexists. reflexivity. Qed.

Lemma slice0_In {A : Type} (a : list A) (e : Z) (x : A) :
  In x (slice0 a e) -> In x a.
Proof.
  destruct (slice0_firstn a e) as [k ->]. intros H.
  rewrite <- (firstn_skipn k a). apply in_or_app. left. exact H.
Qed.

Lemma slice0_length {A : Type} (a : list A) (e : Z) :
  Z.of_nat (List.length (slice0 a e))
  = if e <? 0 then Z.max (Z.of_nat (List.length a) + e) 0
    else Z.min e (Z.of_nat (List.length a)).
Proof.
  unfold slice0. rewrite length_firstn.
  destruct (e <? 0) eqn:E; [apply Z.ltb_lt in E | apply Z.ltb_ge in E]; lia.
Qed.

Lemma slice0_all {A : Type} (a : list A) (e : Z) :
  Z.of_nat (List.length a) <= e -> slice0 a e = a.
Proof.
  intros H. unfold slice0.
  destruct (e <? 0) eqn:E; [apply Z.ltb_lt in E; lia|].
  apply firstn_all2. lia.
Qed.

Lemma firstn_StronglySorted {A : Type} (R : A -> A -> Prop) (k : nat)
  (l : list A) :
  StronglySorted R l -> StronglySorted R (firstn k l).
Proof.
  intros H. revert k. induction H as [|x l Hs IH Hx]; intros k.
  - rewrite firstn_nil. constructor.
  - destruct k; cbn [firstn]; constructor; [apply IH|].
    apply Forall_forall. intros y Hy.
    rewrite Forall_forall in Hx. apply Hx.
    rewrite <- (firstn_skipn k l). apply in_or_app. left. exact Hy.
Qed.

(** ** Search *)

Lemma scoreEntry_filter (queryLower : string) (cs : list CSSClass) :
  flat_map (scoreEntry queryLower) cs
  = map (fun c => (c, calculateMatchScore (name c) queryLower))
      (filter (fun c => 0 <? calculateMatchScore (name c) queryLower) cs).
Proof.
  induction cs as [|c cs IH]; [reflexivity|].
  cbn [flat_map filter]. unfold scoreEntry at 1.
  destruct (0 <? _); cbn [map app]; rewrite IH; reflexivity.
Qed.

Lemma searchClasses_ranked (idx : classIndex) (query : string)
  (maxResults : Z) :
  searchClasses idx query maxResults = slice0 (ranked idx query) maxResults.
Proof.
  unfold searchClasses, ranked.
  destruct (String.eqb query EmptyString); [reflexivity|].
  unfold slice0. rewrite length_map. symmetry. apply firstn_map.
Qed.

Lemma ranked_perm (idx : classIndex) (query : string) :
  query <> EmptyString ->
  Permutation (ranked idx query)
    (filter (matching query) (getAllClasses idx)).
Proof.
  intros Hq. unfold ranked.
  destruct (String.eqb query EmptyString) eqn:E;
    [apply string_eqb_true in E; contradiction|].
  rewrite sortByScore_perm, scoreEntry_filter, map_map.
  cbn [fst]. rewrite map_id. reflexivity.
Qed.

Lemma ranked_sorted (idx : classIndex) (query : string) :
  query <> EmptyString ->
  StronglySorted (fun a b => scoreOf query b <= scoreOf query a)
    (ranked idx query).
Proof.
  intros Hq. unfold ranked.
  destruct (String.eqb query EmptyString) eqn:E;
    [apply string_eqb_true in E; contradiction|].
  set (results := flat_map _ _).
  assert (Forall (fun e => snd e = scoreOf query (fst e))
            (sortByScore results)) as Hsnd.
  { apply Forall_forall. intros e He.
    apply (Permutation_in _ (sortByScore_perm results)) in He.
    unfold results in He. rewrite scoreEntry_filter in He.
    apply in_map_iff in He. destruct He as [c [<- _]]. reflexivity. }
  pose proof (sortByScore_sorted results) as Hs.
  induction Hs as [|e l Hs IH He]; cbn [map]; constructor.
  - apply IH. inversion Hsnd; assumption.
  - inversion Hsnd as [|? ? He1 Hl]; subst.
    apply Forall_forall. intros c Hc.
    apply in_map_iff in Hc. destruct Hc as [e' [<- He']].
    rewrite Forall_forall in He, Hl.
    specialize (He e' He'). specialize (Hl e' He').
    unfold byScore in He. rewrite <- He1, <- Hl. exact He.
Qed.

Lemma ranked_In (idx : classIndex) (query : string) (c : CSSClass) :
  In c (ranked idx query) ->
  In c (getAllClasses idx)
  /\ (query <> EmptyString -> 0 < scoreOf query c).
Proof.
  intros H. destruct (String.eqb query EmptyString) eqn:E.
  - unfold ranked in H. rewrite E in H. split; [exact H|].
    apply string_eqb_true in E. contradiction.
  - assert (query <> EmptyString) as Hq
      by (intros ->; discriminate).
    apply (Permutation_in _ (ranked_perm idx query Hq)) in H.
    apply filter_In in H. destruct H as [Hin Hm].
    split; [exact Hin | intros _; apply Z.ltb_lt; exact Hm].
Qed.

Lemma toLowerCase_empty (s : string) :
  toLowerCase s = EmptyString -> s = EmptyString.
Proof. destruct s; [reflexivity | discriminate]. Qed.

(** Letters that differ in case only are lowered to the same letter. *)
Lemma lowerChar_upper (a : ascii) :
  isUpper a = true ->
  lowerChar a = ascii_of_nat (code a + 32)
  /\ lowerChar (ascii_of_nat (code a + 32)) = ascii_of_nat (code a + 32).
Proof.
  destruct a as [[] [] [] [] [] [] [] []]; intros H; vm_compute in H;
    try discriminate H; split; reflexivity.
Qed.

Lemma sameLetter_lowerChar (a b : ascii) :
  sameLetter a b = true -> lowerChar a = lowerChar b.
Proof.
  assert (forall x y,
            isUpper x = true -> Nat.eqb (code y) (code x + 32) = true ->
            lowerChar x = lowerChar y) as Hup.
  { intros x y Hx Hy. apply Nat.eqb_eq in Hy.
    assert (y = ascii_of_nat (code x + 32)) as ->
      by (rewrite <- Hy; unfold code; symmetry; apply ascii_nat_embedding).
    destruct (lowerChar_upper x Hx) as [-> ->]. reflexivity. }
  unfold sameLetter. intros H.
  apply orb_true_iff in H. destruct H as [H|H].
  - apply orb_true_iff in H. destruct H as [H|H].
    + apply ascii_eqb_true in H. subst b. reflexivity.
    + apply andb_true_iff in H. destruct H as [Ha Hb]. apply Hup; assumption.
  - apply andb_true_iff in H. destruct H as [Hb Ha].
    symmetry. apply Hup; assumption.
Qed.

Lemma sameText_toLowerCase (s t : string) :
  sameText s t = true -> toLowerCase s = toLowerCase t.
Proof.
  revert t. induction s as [|a s IH]; intros [|b t] H;
    cbn [sameText] in H; try discriminate H; [reflexivity|].
  apply andb_true_iff in H. destruct H as [Hab Hst].
  cbn [toLowerCase]. rewrite (sameLetter_lowerChar a b Hab), (IH t Hst).
  reflexivity.
Qed.

Lemma toLowerCase_append (s t : string) :
  toLowerCase (s ++ t) = (toLowerCase s ++ toLowerCase t)%string.
Proof.
  induction s as [|a s IH]; [reflexivity|].
  cbn [append toLowerCase]. rewrite IH. reflexivity.
Qed.

(** A contiguous match scores at least its tier, and every subsequence
    match scores. *)
Lemma calculateMatchScore_floor (className query : string) :
  let n := toLowerCase className in
  (IsPrefix query n -> 80 <= calculateMatchScore className query)
  /\ (IsSubstring query n -> 60 <= calculateMatchScore className query)
  /\ (query <> EmptyString -> Subsequence query n ->
      0 < calculateMatchScore className query).
Proof.
  intros n. unfold calculateMatchScore. fold n.
  destruct (String.eqb n query) eqn:Eeq; [repeat split; intros; lia|].
  destruct (startsWith n query) eqn:Epre.
  - repeat split; intros; lia.
  - destruct (includes n query) eqn:Einc.
    + split; [|split]; intros; try lia.
      apply startsWith_IsPrefix in H. congruence.
    + split; [|split].
      * intros H. apply startsWith_IsPrefix in H. congruence.
      * intros H. apply includes_IsSubstring in H. congruence.
      * intros Hne Hsub. apply fuzzyMatch_positive. split; assumption.
Qed.

(** C1.  For a non-empty query, search scores every indexed name by the
    first applicable tier, the name and the query both lowered: 100 when
    they are equal, else 80 when the name starts with the query, else 60
    when the name contains it, else the fuzzy score.  Lowering makes the
    comparison blind to the case of letters: a name that is the query
    up to case scores 100, a name that starts with it up to case at
    least 80, a name that contains it up to case at least 60.  The
    fuzzy tier makes every name that holds the lowered query as a
    subsequence score, and no other: such a name that does not contain
    the query scores [min (total * 2) 40] for the running total of the
    scan, between 2 and 40.  Every returned record is an indexed one
    with a positive score, a name scoring 0 is never returned, the
    result is in descending order of score, and when the limit does not
    cut it short it holds exactly the indexed records of positive
    score, so every indexed record whose lowered name holds the lowered
    query as a subsequence.  On the index holding [xyz], [btn-primary]
    and [primary] the query [primary] yields [primary] and then
    [btn-primary]; on the index holding [xyz], [Prim-Ary],
    [Btn-Primary], [PrimaryDark] and [Primary] the query [PRIMARY]
    yields [Primary] at 100, [PrimaryDark] at 80, [Btn-Primary] at 60
    and [Prim-Ary] at 32, and the query [bp] yields [Btn-Primary]
    alone, at 4. *)
Theorem search_scores_by_first_tier (idx : classIndex) (query : string)
  (maxResults : Z) :
  query <> EmptyString ->
  let q := toLowerCase query in
  let found := searchClasses idx query maxResults in
  (forall c, In c (getAllClasses idx) ->
     let n := toLowerCase (name c) in
     (n = q -> scoreOf query c = 100)
     /\ (n <> q -> IsPrefix q n -> scoreOf query c = 80)
     /\ (n <> q -> ~ IsPrefix q n -> IsSubstring q n ->
         scoreOf query c = 60)
     /\ (n <> q -> ~ IsPrefix q n -> ~ IsSubstring q n ->
         scoreOf query c = fuzzyMatch n q))
  /\ (forall c, In c (getAllClasses idx) ->
        (sameText (name c) query = true -> scoreOf query c = 100)
        /\ (forall p r, name c = (p ++ r)%string ->
              sameText p query = true -> 80 <= scoreOf query c)
        /\ (forall a p b, name c = (a ++ p ++ b)%string ->
              sameText p query = true -> 60 <= scoreOf query c))
  /\ (forall c, In c (getAllClasses idx) ->
        let n := toLowerCase (name c) in
        (Subsequence q n <-> 0 < scoreOf query c)
        /\ (~ IsSubstring q n -> Subsequence q n ->
            scoreOf query c
            = Z.min (runningTotal [] (fst (scanTrace n q)) * 2) 40
            /\ 2 <= scoreOf query c <= 40))
  /\ (forall c, In c found ->
        In c (getAllClasses idx) /\ 0 < scoreOf query c)
  /\ (forall c, scoreOf query c = 0 -> ~ In c found)
  /\ StronglySorted (fun a b => scoreOf query b <= scoreOf query a) found
  /\ (Z.of_nat (List.length (filter (matching query) (getAllClasses idx)))
      <= maxResults ->
      Permutation found (filter (matching query) (getAllClasses idx))
      /\ forall c, In c (getAllClasses idx) ->
           Subsequence q (toLowerCase (name c)) -> In c found)
  /\ map name (searchClasses primaryIndex "primary" 50)
     = ["primary"; "btn-primary"]
  /\ map (fun c => (name c, scoreOf "PRIMARY" c))
       (searchClasses mixedIndex "PRIMARY" 50)
     = [ ("Primary", 100); ("PrimaryDark", 80); ("Btn-Primary", 60);
         ("Prim-Ary", 32) ]
  /\ map (fun c => (name c, scoreOf "bp" c))
       (searchClasses mixedIndex "bp" 50)
     = [ ("Btn-Primary", 4) ].
Proof.
  intros Hq q found.
  assert (q <> EmptyString) as Hq'
    by (intros H; apply Hq, toLowerCase_empty, H).
  assert (forall c, In c found ->
            In c (getAllClasses idx) /\ 0 < scoreOf query c) as Hfound.
  { intros c Hc. unfold found in Hc. rewrite searchClasses_ranked in Hc.
    apply slice0_In, ranked_In in Hc. destruct Hc as [Hin Hpos].
    split; [exact Hin | apply Hpos, Hq]. }
  assert (forall c, Subsequence q (toLowerCase (name c)) ->
            0 < scoreOf query c) as Hsub.
  { intros c H. apply calculateMatchScore_floor; assumption. }
  split; [|split; [|split; [|split; [|split; [|split; [|split;
    [|split; [|split]]]]]]]].
  - intros c _. apply calculateMatchScore_tiers.
  - intros c _. split; [|split].
    + intros H. apply calculateMatchScore_tiers.
      apply sameText_toLowerCase, H.
    + intros p r Hn H. apply calculateMatchScore_floor.
      exists (toLowerCase r). rewrite Hn, toLowerCase_append.
      rewrite (sameText_toLowerCase _ _ H). reflexivity.
    + intros a p b Hn H. apply calculateMatchScore_floor.
      exists (toLowerCase a), (toLowerCase b).
      rewrite Hn, !toLowerCase_append.
      rewrite (sameText_toLowerCase _ _ H). reflexivity.
  - intros c _ n. split; [split|].
    + apply Hsub.
    + apply calculateMatchScore_subsequence.
    + intros Hns Hs.
      assert (scoreOf query c = fuzzyMatch n q) as Hscore.
      { apply calculateMatchScore_tiers.
        - intros E. apply Hns. exists EmptyString, EmptyString.
          fold n in E. rewrite E. cbn [append].
          clear. induction q as [|x s IH]; [reflexivity|].
          cbn [append]. rewrite <- IH. reflexivity.
        - intros [r E]. apply Hns. exists EmptyString, r. exact E.
        - exact Hns. }
      pose proof (Hsub c Hs) as Hpos.
      pose proof (fuzzyMatch_range n q) as Hrange.
      rewrite Hscore in *. rewrite fuzzyMatch_fuzzyBySpec in *.
      unfold fuzzyBySpec in *.
      destruct (scanTrace n q) as [tr rest]. cbn [fst].
      destruct rest; [|lia]. split; [reflexivity|lia].
  - exact Hfound.
  - intros c Hz Hc. apply Hfound in Hc. lia.
  - unfold found. rewrite searchClasses_ranked.
    destruct (slice0_firstn (ranked idx query) maxResults) as [k ->].
    apply firstn_StronglySorted, ranked_sorted, Hq.
  - intros Hlen.
    assert (Permutation found
              (filter (matching query) (getAllClasses idx))) as Hperm.
    { unfold found. rewrite searchClasses_ranked.
      rewrite slice0_all; [apply ranked_perm, Hq|].
      rewrite (Permutation_length (ranked_perm idx query Hq)). exact Hlen. }
    split; [exact Hperm|].
    intros c Hin Hs. apply (Permutation_in _ (Permutation_sym Hperm)).
    apply filter_In. split; [exact Hin|].
    apply Z.ltb_lt, Hsub, Hs.
  - vm_compute. reflexivity.
  - vm_compute. reflexivity.
  - vm_compute. reflexivity.
Qed.

Lemma search_scores_by_first_tier_witness :
  "PRIMARY" <> EmptyString
  /\ Z.of_nat
       (List.length (filter (matching "PRIMARY") (getAllClasses mixedIndex)))
     <= 50
  /\ In (sampleClass "Prim-Ary" "/w/a.css") (getAllClasses mixedIndex)
  /\ Subsequence (toLowerCase "PRIMARY") (toLowerCase "Prim-Ary")
  /\ In (sampleClass "Prim-Ary" "/w/a.css")
       (searchClasses mixedIndex "PRIMARY" 50)
  /\ scoreOf "PRIMARY" (sampleClass "Primary" "/w/b.css") = 100.
Proof.
  assert ("PRIMARY" <> EmptyString) as Hq by discriminate.
  assert (Z.of_nat
            (List.length
               (filter (matching "PRIMARY") (getAllClasses mixedIndex)))
          <= 50) as Hlen by (vm_compute; discriminate).
  assert (In (sampleClass "Prim-Ary" "/w/a.css") (getAllClasses mixedIndex))
    as Hin by (right; left; reflexivity).
  assert (In (sampleClass "Primary" "/w/b.css") (getAllClasses mixedIndex))
    as Hin' by (do 4 right; left; reflexivity).
  assert (Subsequence (toLowerCase "PRIMARY") (toLowerCase "Prim-Ary"))
    as Hsub by (apply scanTrace_consumed; reflexivity).
  pose proof (search_scores_by_first_tier mixedIndex "PRIMARY" 50 Hq)
    as [_ [Hcase [_ [_ [_ [_ [Hall _]]]]]]].
  repeat (split; [assumption|]).
  split.
  - exact (proj2 (Hall Hlen) _ Hin Hsub).
  - exact (proj1 (Hcase _ Hin') eq_refl).
Defined.

(** C2.  The fuzzy tier is one left-to-right scan matching the query as
    a subsequence of the name, every matched character adding 1 plus
    the number of immediately preceding consecutive matches to a
    running total.  When the whole query is consumed the score is
    [min (total * 2) 40], which is positive for a non-empty query;
    otherwise it is 0.  Hence search never returns a record whose
    lowered name does not contain the lowered query as a subsequence. *)
Theorem fuzzy_tier_scans_for_subsequence :
  (forall nm query, fuzzyMatch nm query = fuzzyBySpec nm query)
  /\ (forall nm query,
        Subsequence query nm ->
        fuzzyMatch nm query
        = Z.min (runningTotal [] (fst (scanTrace nm query)) * 2) 40
        /\ (query <> EmptyString -> 0 < fuzzyMatch nm query))
  /\ (forall nm query, ~ Subsequence query nm -> fuzzyMatch nm query = 0)
  /\ (forall idx query maxResults c,
        In c (searchClasses idx query maxResults) ->
        Subsequence (toLowerCase query) (toLowerCase (name c))).
Proof.
  split; [|split; [|split]].
  - apply fuzzyMatch_fuzzyBySpec.
  - intros nm query Hsub. split.
    + rewrite fuzzyMatch_fuzzyBySpec. unfold fuzzyBySpec.
      apply scanTrace_consumed in Hsub.
      destruct (scanTrace nm query) as [tr rest]. cbn [fst snd] in *.
      subst rest. reflexivity.
    + intros Hne. apply fuzzyMatch_positive. split; assumption.
  - intros nm query Hn.
    pose proof (fuzzyMatch_range nm query) as Hr.
    destruct (Z.eq_dec (fuzzyMatch nm query) 0) as [|Hnz]; [assumption|].
    exfalso. apply Hn.
    apply (fuzzyMatch_positive nm query). lia.
  - intros idx query maxResults c Hc.
    rewrite searchClasses_ranked in Hc.
    apply slice0_In, ranked_In in Hc. destruct Hc as [_ Hpos].
    destruct (String.eqb query EmptyString) eqn:E.
    + apply string_eqb_true in E. subst query. constructor.
    + apply calculateMatchScore_subsequence, Hpos.
      intros ->. discriminate.
Qed.

Lemma fuzzy_tier_scans_for_subsequence_witness :
  fuzzyMatch "button-primary" "btn-pr" = 24
  /\ forall c, In c (searchClasses primaryIndex "pmy" 50) ->
       Subsequence "pmy" (toLowerCase (name c)).
Proof.
  split.
  - rewrite (proj1 fuzzy_tier_scans_for_subsequence). reflexivity.
  - exact (proj2 (proj2 (proj2 fuzzy_tier_scans_for_subsequence))
             primaryIndex "pmy" 50).
Defined.

(** C6, as the code has it.  A limit of zero gives no results and a
    positive limit K gives at most K records, the first K of the ranked
    matches.  A negative limit -k is not treated as zero: it drops the
    last k of the ranked matches and returns the rest. *)
Theorem search_limit_slices_ranked_matches (idx : classIndex)
  (query : string) (maxResults : Z) :
  let all := ranked idx query in
  let found := searchClasses idx query maxResults in
  (maxResults = 0 -> found = [])
  /\ (0 < maxResults ->
      Z.of_nat (List.length found) <= maxResults
      /\ found = firstn (Z.to_nat maxResults) all)
  /\ (maxResults < 0 ->
      found = firstn (List.length all - Z.to_nat (- maxResults)) all).
Proof.
  intros all found. unfold found. rewrite searchClasses_ranked. fold all.
  split; [|split].
  - intros ->. unfold slice0. cbn [Z.ltb Z.compare].
    rewrite Z.min_l by lia. reflexivity.
  - intros Hpos. split.
    + rewrite slice0_length.
      destruct (maxResults <? 0) eqn:E; [apply Z.ltb_lt in E|]; lia.
    + unfold slice0.
      destruct (maxResults <? 0) eqn:E; [apply Z.ltb_lt in E; lia|].
      destruct (Z_le_gt_dec maxResults (Z.of_nat (List.length all))).
      * rewrite Z.min_l by lia. reflexivity.
      * rewrite Z.min_r by lia. rewrite Nat2Z.id.
        rewrite !firstn_all2 by lia. reflexivity.
  - intros Hneg. unfold slice0.
    destruct (maxResults <? 0) eqn:E; [|apply Z.ltb_ge in E; lia].
    f_equal. lia.
Qed.

Lemma search_limit_slices_ranked_matches_witness :
  (0 < 1 /\ Z.of_nat (List.length (searchClasses primaryIndex "primary" 1))
            <= 1)
  /\ (-1 < 0
      /\ searchClasses primaryIndex "primary" (-1)
         = firstn (List.length (ranked primaryIndex "primary")
                   - Z.to_nat (- -1))
             (ranked primaryIndex "primary")).
Proof.
  split; split.
  - reflexivity.
  - apply (search_limit_slices_ranked_matches primaryIndex "primary" 1).
    reflexivity.
  - reflexivity.
  - apply (search_limit_slices_ranked_matches primaryIndex "primary" (-1)).
    reflexivity.
Defined.

(** C6 as stated fails: with the limit -1 the query [primary] still
    gets a result from the three-name index. *)
Lemma search_negative_limit_returns_results :
  -1 <= 0
  /\ map name (searchClasses primaryIndex "primary" (-1)) = ["primary"]
  /\ map name (searchClasses primaryIndex "" (-1)) = ["xyz"; "btn-primary"]
  /\ ~ (forall idx query maxResults,
          maxResults <= 0 -> searchClasses idx query maxResults = []).
Proof.
  split; [lia|]. split; [reflexivity|]. split; [reflexivity|].
  intros H. specialize (H primaryIndex "primary" (-1)).
  discriminate H. lia.
Qed.

(** ** Category inference *)






(** ** Description extraction *)










(** ** The selector scanner *)

Lemma scan_scanStep (st : scanState) (c : ascii) (s : string) :
  scan st (String c s)
  = fst (scanStep st c) ++ scan (snd (scanStep st c)) s.
Proof.
  destruct st; cbn [scan scanStep]; try reflexivity.
  - destruct (isIdentStart c); reflexivity.
  - destruct (isIdentChar c); reflexivity.
Qed.

Lemma allIdentChars_snoc (s : string) (c : ascii) :
  allIdentChars s = true -> isIdentChar c = true ->
  allIdentChars (s ++ String c EmptyString) = true.
Proof.
  intros Hs Hc. induction s as [|a s IH]; cbn [append allIdentChars] in *.
  - rewrite Hc. reflexivity.
  - apply andb_true_iff in Hs. destruct Hs as [-> Hs].
    rewrite IH by assumption. reflexivity.
Qed.

Lemma validToken_snoc (tok : string) (c : ascii) :
  validToken tok -> isIdentChar c = true ->
  validToken (tok ++ String c EmptyString).
Proof.
  unfold validToken. intros H Hc.
  apply andb_true_iff in H. destruct H as [Hdot Hvalid].
  destruct tok as [|d [|a rest]]; try discriminate.
  cbn [append startsWith isValidClassName] in *.
  apply andb_true_iff in Hvalid. destruct Hvalid as [Hda Hrest].
  rewrite Hdot, Hda, (allIdentChars_snoc _ _ Hrest Hc). reflexivity.
Qed.

Lemma scanStep_valid (st : scanState) (c : ascii) :
  validState st ->
  Forall validToken (fst (scanStep st c))
  /\ validState (snd (scanStep st c)).
Proof.
  intros Hst. destruct st as [| |tok]; cbn [scanStep].
  - split; [constructor|]. unfold restart. destruct (isDot c); exact I.
  - destruct (isIdentStart c) eqn:E; cbn [fst snd].
    + split; [constructor|]. unfold validState, validToken.
      cbn. rewrite E. reflexivity.
    + split; [constructor|]. unfold restart. destruct (isDot c); exact I.
  - destruct (isIdentChar c) eqn:E; cbn [fst snd].
    + split; [constructor|]. apply validToken_snoc; assumption.
    + split; [repeat constructor; exact Hst|].
      unfold restart. destruct (isDot c); exact I.
Qed.

Lemma scan_valid (s : string) (st : scanState) :
  validState st -> Forall validToken (scan st s).
Proof.
  revert st; induction s as [|c s IH]; intros st Hst.
  - destruct st; cbn; repeat constructor. exact Hst.
  - rewrite scan_scanStep. destruct (scanStep_valid st c Hst) as [Hf Hn].
    apply Forall_app. split; [exact Hf | apply IH, Hn].
Qed.

Lemma classMatches_valid (s : string) : Forall validToken (classMatches s).
Proof. apply scan_valid. exact I. Qed.

Lemma scanStep_separator (st : scanState) (c : ascii) :
  separator c -> scanStep st c = (flush st, Outside).
Proof.
  intros (Hd & Hs & Hi). destruct st; cbn [scanStep flush];
    unfold restart; rewrite ?Hs, ?Hi, Hd; reflexivity.
Qed.

Lemma separator_comma : separator ",".
Proof. repeat split. Qed.

Lemma separator_whiteSpace (c : ascii) : isWhiteSpace c = true -> separator c.
Proof.
  destruct c as [[] [] [] [] [] [] [] []]; intros H;
    try discriminate H; repeat split.
Qed.

Lemma scan_separator (st : scanState) (c : ascii) (s : string) :
  separator c -> scan st (String c s) = flush st ++ scan Outside s.
Proof.
  intros H. rewrite scan_scanStep, (scanStep_separator _ _ H). reflexivity.
Qed.

Lemma flush_restart (c : ascii) : flush (restart c) = [].
Proof. unfold restart. destruct (isDot c); reflexivity. Qed.

Lemma scan_trimStart (s : string) :
  scan Outside (trimStart s) = scan Outside s.
Proof.
  induction s as [|c s IH]; cbn [trimStart]; [reflexivity|].
  destruct (isWhiteSpace c) eqn:E; [|reflexivity].
  rewrite (scan_separator _ _ _ (separator_whiteSpace _ E)). exact IH.
Qed.

Lemma scan_trimEnd (s : string) (st : scanState) :
  scan st (trimEnd s) = scan st s.
Proof.
  revert st; induction s as [|c s IH]; intros st; [reflexivity|].
  cbn [trimEnd]. rewrite (scan_scanStep st c s).
  rewrite <- (IH (snd (scanStep st c))).
  destruct (trimEnd s) as [|r0 r] eqn:Er.
  - destruct (isWhiteSpace c) eqn:E.
    + rewrite (scanStep_separator _ _ (separator_whiteSpace _ E)).
      cbn [fst snd scan flush]. rewrite app_nil_r. reflexivity.
    + apply scan_scanStep.
  - apply scan_scanStep.
Qed.

Lemma classMatches_trim (s : string) : classMatches (trim s) = classMatches s.
Proof.
  unfold classMatches, trim. rewrite scan_trimEnd. apply scan_trimStart.
Qed.

Lemma split_nonempty (sep : ascii) (s : string) : split sep s <> [].
Proof.
  destruct s as [|c s]; cbn [split]; [discriminate|].
  destruct (Ascii.eqb c sep); [discriminate|].
  destruct (split sep s); discriminate.
Qed.

Lemma scan_split (s : string) (st : scanState) :
  match split "," s with
  | piece :: pieces => scan st piece ++ flat_map classMatches pieces
  | [] => []
  end = scan st s.
Proof.
  revert st; induction s as [|c s IH]; intros st.
  - cbn [split flat_map]. apply app_nil_r.
  - cbn [split]. destruct (Ascii.eqb c ",") eqn:E.
    + apply ascii_eqb_true in E. subst c.
      rewrite (scan_separator _ _ _ separator_comma).
      cbn [scan]. f_equal. rewrite <- (IH Outside).
      destruct (split "," s) as [|piece pieces] eqn:Es; reflexivity.
    + rewrite scan_scanStep. rewrite <- (IH (snd (scanStep st c))).
      destruct (split "," s) as [|piece pieces] eqn:Es.
      * exfalso. exact (split_nonempty _ _ Es).
      * rewrite (scan_scanStep st c piece), app_assoc. reflexivity.
Qed.

Lemma flat_map_classMatches_pieces (pieces : list string) :
  flat_map classMatches (filter nonEmpty (map trim pieces))
  = flat_map classMatches pieces.
Proof.
  induction pieces as [|p pieces IH]; [reflexivity|].
  cbn [map filter flat_map]. rewrite <- IH, <- (classMatches_trim p).
  unfold nonEmpty. destruct (trim p); reflexivity.
Qed.

(** Splitting at commas and trimming the pieces loses no token and adds
    none: the selectors of a rule are the class tokens of its whole
    selector text. *)
Lemma parseSelector_classMatches (selector : string) :
  parseSelector selector = classMatches selector.
Proof.
  unfold parseSelector. rewrite flat_map_classMatches_pieces.
  unfold classMatches at 2. rewrite <- (scan_split selector Outside).
  destruct (split "," selector); reflexivity.
Qed.

(** ** Walking the syntax tree *)

Lemma Node_nested_ind (P : Node -> Prop) :
  (forall rsel source ns, Forall P ns -> P (Rule rsel source ns)) ->
  (forall a p ns, Forall P ns -> P (AtRule a p ns)) ->
  (forall p v, P (Declaration p v)) ->
  (forall t, P (Comment t)) ->
  forall n, P n.
Proof.
  intros HR HA HD HC. fix IH 1. intros [rsel source ns|a p ns|p v|t].
  - apply HR. induction ns as [|m ns IHns]; constructor;
      [apply IH | exact IHns].
  - apply HA. induction ns as [|m ns IHns]; constructor;
      [apply IH | exact IHns].
  - apply HD.
  - apply HC.
Qed.

Lemma walkNode_Rule (filePath : string) (prev : option Node)
  (rsel : string) (source : option Source) (ns : list Node) :
  walkNode filePath prev (Rule rsel source ns)
  = classesOfRule filePath prev rsel source ns
    ++ walkNodes filePath None ns.
Proof. reflexivity. Qed.

Lemma walkNode_AtRule (filePath : string) (prev : option Node)
  (a p : string) (ns : list Node) :
  walkNode filePath prev (AtRule a p ns) = walkNodes filePath None ns.
Proof. reflexivity. Qed.

Lemma rulesOfNode_Rule (prev : option Node) (rsel : string)
  (source : option Source) (ns : list Node) :
  rulesOfNode prev (Rule rsel source ns)
  = (prev, Rule rsel source ns) :: rulesOfNodes None ns.
Proof. reflexivity. Qed.

Lemma rulesOfNode_AtRule (prev : option Node) (a p : string)
  (ns : list Node) :
  rulesOfNode prev (AtRule a p ns) = rulesOfNodes None ns.
Proof. reflexivity. Qed.

Lemma walkNodes_rules_of (filePath : string) (ns : list Node) :
  Forall (fun n => forall prev,
            walkNode filePath prev n
            = flat_map (recordsOfRule filePath) (rulesOfNode prev n)) ns ->
  forall prev,
    walkNodes filePath prev ns
    = flat_map (recordsOfRule filePath) (rulesOfNodes prev ns).
Proof.
  induction 1 as [|m ns Hm Hns IH]; intros prev; [reflexivity|].
  cbn [walkNodes rulesOfNodes]. rewrite flat_map_app, Hm, IH. reflexivity.
Qed.

Lemma walkNode_rules (filePath : string) (n : Node) :
  forall prev,
    walkNode filePath prev n
    = flat_map (recordsOfRule filePath) (rulesOfNode prev n).
Proof.
  induction n as [rsel source ns IH|a p ns IH|p v|t] using Node_nested_ind;
    intros prev; try reflexivity.
  - rewrite walkNode_Rule, rulesOfNode_Rule. cbn [flat_map].
    rewrite (walkNodes_rules_of _ _ IH). reflexivity.
  - rewrite walkNode_AtRule, rulesOfNode_AtRule.
    apply (walkNodes_rules_of _ _ IH).
Qed.

(** Extraction is the concatenation, over the rules in visiting order,
    of what each rule contributes. *)
Lemma extractClassesFromAST_rules (root : Root) (filePath : string) :
  extractClassesFromAST root filePath
  = flat_map (recordsOfRule filePath) (rulesOf root).
Proof.
  apply walkNodes_rules_of. apply Forall_forall. intros n _.
  apply walkNode_rules.
Qed.

Lemma rulesOfNodes_are_rules (ns : list Node) :
  forall prev visit,
    In visit (rulesOfNodes prev ns) ->
    exists rsel source children, snd visit = Rule rsel source children.
Proof.
  assert (forall n prev visit, In visit (rulesOfNode prev n) ->
            exists rsel source children,
              snd visit = Rule rsel source children) as Hnode.
  { intros n.
    induction n as [rsel source cs IH|a p cs IH|p v|t]
      using Node_nested_ind; intros prev visit Hin;
      try (destruct Hin; fail).
    - rewrite rulesOfNode_Rule in Hin. destruct Hin as [<- | Hin].
      + do 3 eexists. reflexivity.
      + clear prev. revert Hin. generalize (@None Node).
        induction IH as [|m cs Hm Hcs IHcs]; intros prev Hin;
          [destruct Hin|].
        cbn [rulesOfNodes] in Hin. apply in_app_or in Hin.
        destruct Hin; eauto.
    - rewrite rulesOfNode_AtRule in Hin.
      clear prev. revert Hin. generalize (@None Node).
      induction IH as [|m cs Hm Hcs IHcs]; intros prev Hin;
        [destruct Hin|].
      cbn [rulesOfNodes] in Hin. apply in_app_or in Hin.
      destruct Hin; eauto. }
  induction ns as [|m ns IH]; intros prev visit Hin; [destruct Hin|].
  cbn [rulesOfNodes] in Hin. apply in_app_or in Hin.
  destruct Hin; eauto.
Qed.

(** ** Records of one rule *)

Lemma keys_nonempty (props : object) :
  (0 <? Z.of_nat (List.length (keys props))) = true <-> props <> [].
Proof.
  unfold keys. destruct props; cbn [map List.length].
  - split; [discriminate | congruence].
  - split; [discriminate | intros _; apply Z.ltb_lt; lia].
Qed.

Lemma classesOfSelector_token (filePath : string) (prev : option Node)
  (rsel : string) (source : option Source) (ns : list Node) (tok : string) :
  validToken tok ->
  classesOfSelector filePath prev rsel source (flat_map walkDecls ns) tok
  = if 0 <? Z.of_nat (List.length
                        (keys (ruleProperties (Rule rsel source ns))))
    then [recordOfToken filePath prev (Rule rsel source ns) tok]
    else [].
Proof.
  unfold validToken, classesOfSelector. intros ->. reflexivity.
Qed.

Lemma classesOfRule_tokens (filePath : string) (prev : option Node)
  (rsel : string) (source : option Source) (ns : list Node) :
  classesOfRule filePath prev rsel source ns
  = if 0 <? Z.of_nat (List.length
                        (keys (ruleProperties (Rule rsel source ns))))
    then map (recordOfToken filePath prev (Rule rsel source ns))
           (classMatches rsel)
    else [].
Proof.
  unfold classesOfRule. rewrite parseSelector_classMatches.
  pose proof (classMatches_valid rsel) as Hvalid.
  induction Hvalid as [|tok toks Htok Htoks IH]; cbn [flat_map map].
  - destruct (0 <? _); reflexivity.
  - rewrite IH, (classesOfSelector_token _ _ _ _ _ _ Htok).
    destruct (0 <? _); reflexivity.
Qed.

Lemma recordsOfRule_properties (filePath : string)
  (visit : option Node * Node) (c : CSSClass) :
  In c (recordsOfRule filePath visit) ->
  properties c = ruleProperties (snd visit)
  /\ properties c <> []
  /\ sourceFile c = filePath
  /\ exists rsel source ns,
       snd visit = Rule rsel source ns
       /\ selector c = rsel
       /\ line c = startLine source /\ column c = startColumn source.
Proof.
  destruct visit as [prev [rsel source ns|a p ns|p v|t]];
    cbn [recordsOfRule fst snd]; try (intros []).
  rewrite classesOfRule_tokens.
  destruct (0 <? _) eqn:E; [|intros []].
  apply keys_nonempty in E. intros Hin.
  apply in_map_iff in Hin. destruct Hin as [tok [<- _]].
  cbn [recordOfToken properties sourceFile selector line column].
  repeat split; try assumption. eauto 8.
Qed.

(** ** The index as a map *)

Lemma mapSet_Forall (Q : string * CSSClass -> Prop) (m : classIndex)
  (k : string) (v : CSSClass) :
  Forall Q m -> Q (k, v) -> Forall Q (mapSet m k v).
Proof.
  intros Hm Hkv. induction Hm as [|[k' v'] m He Hm IH]; cbn [mapSet].
  - repeat constructor. exact Hkv.
  - destruct (String.eqb k' k); constructor; assumption.
Qed.

Lemma mapSet_keys_In (m : classIndex) (k : string) (v : CSSClass)
  (k' : string) :
  In k' (map fst (mapSet m k v)) <-> k' = k \/ In k' (map fst m).
Proof.
  induction m as [|[k0 v0] m IH]; cbn [mapSet map fst In].
  - intuition congruence.
  - destruct (String.eqb k0 k) eqn:E; cbn [map fst In].
    + apply string_eqb_true in E. subst k0. intuition congruence.
    + rewrite IH. intuition congruence.
Qed.

Lemma mapSet_NoDup (m : classIndex) (k : string) (v : CSSClass) :
  NoDup (map fst m) -> NoDup (map fst (mapSet m k v)).
Proof.
  induction m as [|[k0 v0] m IH]; cbn [mapSet map fst]; intros Hnd.
  - repeat constructor. intros [].
  - inversion Hnd as [|? ? Hnotin Hrest]; subst.
    destruct (String.eqb k0 k) eqn:E; cbn [map fst].
    + apply string_eqb_true in E. subst k0. constructor; assumption.
    + constructor; [|apply IH, Hrest].
      rewrite mapSet_keys_In. intros [-> | Hin]; [|contradiction].
      rewrite String.eqb_refl in E. discriminate.
Qed.

Lemma mapGet_mapSet (m : classIndex) (k : string) (v : CSSClass)
  (k' : string) :
  mapGet (mapSet m k v) k'
  = if String.eqb k k' then Some v else mapGet m k'.
Proof.
  induction m as [|[k0 v0] m IH]; cbn [mapSet mapGet].
  - destruct (String.eqb k k'); reflexivity.
  - destruct (String.eqb k0 k) eqn:E; cbn [mapGet].
    + apply string_eqb_true in E. subst k0.
      destruct (String.eqb k k'); reflexivity.
    + rewrite IH. destruct (String.eqb k0 k') eqn:E'; [|reflexivity].
      apply string_eqb_true in E'. subst k0. rewrite String.eqb_sym, E.
      reflexivity.
Qed.

Lemma find_snoc {A : Type} (p : A -> bool) (l : list A) (x : A) :
  find p (l ++ [x])
  = match find p l with
    | Some y => Some y
    | None => if p x then Some x else None
    end.
Proof.
  induction l as [|a l IH]; cbn [app find]; [reflexivity|].
  destruct (p a); [reflexivity | exact IH].
Qed.

Lemma mapGet_insertClasses (cs : list CSSClass) (m : classIndex)
  (N : string) :
  getClass (insertClasses m cs) N
  = match lastNamed N cs with
    | Some c => Some c
    | None => getClass m N
    end.
Proof.
  unfold getClass, insertClasses, lastNamed.
  revert m; induction cs as [|c cs IH]; intros m; [reflexivity|].
  cbn [fold_left rev]. rewrite IH, find_snoc, mapGet_mapSet.
  destruct (find _ (rev cs)); [reflexivity|].
  destruct (String.eqb (name c) N); reflexivity.
Qed.

Lemma insertClasses_Forall (Q : string * CSSClass -> Prop)
  (cs : list CSSClass) (m : classIndex) :
  Forall Q m -> Forall (fun c => Q (name c, c)) cs ->
  Forall Q (insertClasses m cs).
Proof.
  unfold insertClasses. intros Hm Hcs. revert m Hm.
  induction Hcs as [|c cs Hc Hcs IH]; intros m Hm; [exact Hm|].
  cbn [fold_left]. apply IH, mapSet_Forall; assumption.
Qed.

Lemma insertClasses_NoDup (cs : list CSSClass) (m : classIndex) :
  NoDup (map fst m) -> NoDup (map fst (insertClasses m cs)).
Proof.
  unfold insertClasses. revert m.
  induction cs as [|c cs IH]; intros m Hm; [exact Hm|].
  cbn [fold_left]. apply IH, mapSet_NoDup, Hm.
Qed.

Lemma filter_keys_NoDup (p : string * CSSClass -> bool) (m : classIndex) :
  NoDup (map fst m) -> NoDup (map fst (filter p m)).
Proof.
  induction m as [|e m IH]; cbn [filter map]; intros Hnd; [constructor|].
  inversion Hnd as [|? ? Hnotin Hrest]; subst.
  destruct (p e); cbn [map]; [constructor|]; try (apply IH, Hrest).
  intros Hin. apply Hnotin. apply in_map_iff in Hin.
  destruct Hin as [e' [<- He']]. apply filter_In in He'.
  apply in_map. apply He'.
Qed.

Lemma filter_Forall {A : Type} (Q : A -> Prop) (p : A -> bool)
  (l : list A) :
  Forall Q l -> Forall Q (filter p l).
Proof.
  intros H. apply Forall_forall. intros x Hx. apply filter_In in Hx.
  rewrite Forall_forall in H. apply H, Hx.
Qed.

Lemma fold_mapDelete_filter (ks : list string) (m : classIndex) :
  fold_left mapDelete ks m
  = filter (fun e => negb (existsb (String.eqb (fst e)) ks)) m.
Proof.
  revert m; induction ks as [|k ks IH]; intros m; cbn [fold_left existsb].
  - cbn [negb]. induction m as [|e m IHm]; [reflexivity|].
    cbn [filter]. f_equal. exact IHm.
  - rewrite IH. unfold mapDelete.
    induction m as [|e m IHm]; [reflexivity|]. cbn [filter].
    destruct (String.eqb (fst e) k); cbn [negb orb filter];
      rewrite IHm; reflexivity.
Qed.

Lemma keys_determine_entry (m : classIndex) (e e' : string * CSSClass) :
  NoDup (map fst m) -> In e m -> In e' m -> fst e = fst e' -> e = e'.
Proof.
  induction m as [|a m IH]; cbn [map In]; intros Hnd He He' Hk;
    [contradiction|].
  inversion Hnd as [|? ? Hnotin Hrest]; subst.
  destruct He as [-> | He], He' as [-> | He'].
  - reflexivity.
  - exfalso. apply Hnotin. rewrite Hk. apply in_map, He'.
  - exfalso. apply Hnotin. rewrite <- Hk. apply in_map, He.
  - apply IH; assumption.
Qed.

(** On an index whose keys are distinct, removing a file's classes by
    key removes exactly the entries that come from the file. *)
Lemma removeClassesFromFile_filter (idx : classIndex) (filePath : string) :
  NoDup (map fst idx) ->
  removeClassesFromFile idx filePath = filter (fromOtherFile filePath) idx.
Proof.
  intros Hnd. unfold removeClassesFromFile.
  rewrite fold_mapDelete_filter. apply filter_ext_in.
  intros e He. unfold fromOtherFile. f_equal.
  destruct (String.eqb (sourceFile (snd e)) filePath) eqn:E.
  - apply existsb_exists. exists (fst e). split; [|apply String.eqb_refl].
    apply in_map, filter_In. split; assumption.
  - apply not_true_iff_false. intros Hex. apply existsb_exists in Hex.
    destruct Hex as [k [Hk Heq]]. apply string_eqb_true in Heq.
    apply in_map_iff in Hk. destruct Hk as [e' [Hke' He']].
    apply filter_In in He'. destruct He' as [He' Hsrc].
    assert (e = e') as ->
      by (eapply keys_determine_entry; eauto; congruence).
    congruence.
Qed.

Lemma removeClassesFromFile_In (idx : classIndex) (filePath : string)
  (e : string * CSSClass) :
  In e (removeClassesFromFile idx filePath) ->
  In e idx /\ sourceFile (snd e) <> filePath.
Proof.
  unfold removeClassesFromFile. rewrite fold_mapDelete_filter.
  intros H. apply filter_In in H. destruct H as [He Hk].
  split; [exact He|]. intros Hsrc. apply negb_true_iff in Hk.
  apply not_true_iff_false in Hk. apply Hk.
  apply existsb_exists. exists (fst e). split; [|apply String.eqb_refl].
  apply in_map, filter_In. split; [exact He|].
  apply string_eqb_true, Hsrc.
Qed.

Lemma removeClassesFromFile_Forall (Q : string * CSSClass -> Prop)
  (idx : classIndex) (filePath : string) :
  Forall Q idx -> Forall Q (removeClassesFromFile idx filePath).
Proof.
  unfold removeClassesFromFile. rewrite fold_mapDelete_filter.
  apply filter_Forall.
Qed.

Lemma removeClassesFromFile_NoDup (idx : classIndex) (filePath : string) :
  NoDup (map fst idx) ->
  NoDup (map fst (removeClassesFromFile idx filePath)).
Proof.
  unfold removeClassesFromFile. rewrite fold_mapDelete_filter.
  apply filter_keys_NoDup.
Qed.

(** ** Indexing a file *)

Lemma afterIndexFile_cases (readFileSync : string -> outcome string)
  (processorParse : bool -> string -> string -> outcome Root)
  (idx : classIndex) (filePath : string) :
  afterIndexFile readFileSync processorParse idx filePath
  = match readFileSync filePath with
    | Returned content =>
        insertClasses (removeClassesFromFile idx filePath)
          (classes (parseCSS processorParse content filePath))
    | Thrown _ => idx
    end.
Proof.
  unfold afterIndexFile, indexFile, indexFileTry.
  destruct (readFileSync filePath); reflexivity.
Qed.

Lemma parseCSS_classes
  (processorParse : bool -> string -> string -> outcome Root)
  (content filePath : string) :
  classes (parseCSS processorParse content filePath)
  = match processorParse (isScssPath filePath) content filePath with
    | Returned root => extractClassesFromAST root filePath
    | Thrown _ => []
    end.
Proof.
  unfold parseCSS, isScssPath. destruct (processorParse _ _ _); reflexivity.
Qed.

Lemma extractClassesFromAST_In (root : Root) (filePath : string)
  (c : CSSClass) :
  In c (extractClassesFromAST root filePath) ->
  properties c <> []
  /\ sourceFile c = filePath
  /\ exists prev rsel source ns,
       In (prev, Rule rsel source ns) (rulesOf root)
       /\ properties c = ruleProperties (Rule rsel source ns)
       /\ selector c = rsel
       /\ line c = startLine source /\ column c = startColumn source.
Proof.
  rewrite extractClassesFromAST_rules. intros Hin.
  apply in_flat_map in Hin. destruct Hin as [[prev n] [Hvisit Hc]].
  apply recordsOfRule_properties in Hc.
  destruct Hc as (Hprops & Hne & Hfile & rsel & source & ns & Hn & Hsel
                  & Hline & Hcol).
  cbn [snd] in Hn, Hprops. subst n.
  split; [exact Hne|]. split; [exact Hfile|].
  exists prev, rsel, source, ns. auto.
Qed.

Lemma parseCSS_Forall (P : CSSClass -> Prop)
  (processorParse : bool -> string -> string -> outcome Root)
  (content filePath : string) :
  (forall root,
     processorParse (isScssPath filePath) content filePath = Returned root ->
     Forall P (extractClassesFromAST root filePath)) ->
  Forall P (classes (parseCSS processorParse content filePath)).
Proof.
  intros H. rewrite parseCSS_classes.
  destruct (processorParse _ _ _) as [root|e]; [apply H; reflexivity|].
  constructor.
Qed.

Lemma afterIndexFile_Forall (Q : string * CSSClass -> Prop)
  (readFileSync : string -> outcome string)
  (processorParse : bool -> string -> string -> outcome Root)
  (idx : classIndex) (filePath : string) :
  Forall Q idx ->
  (forall content root,
     processorParse (isScssPath filePath) content filePath = Returned root ->
     Forall (fun c => Q (name c, c)) (extractClassesFromAST root filePath)) ->
  Forall Q (afterIndexFile readFileSync processorParse idx filePath).
Proof.
  intros Hidx Hparse. rewrite afterIndexFile_cases.
  destruct (readFileSync filePath) as [content|e]; [|exact Hidx].
  apply insertClasses_Forall.
  - apply removeClassesFromFile_Forall, Hidx.
  - apply parseCSS_Forall. intros root. apply Hparse.
Qed.

Lemma afterIndexFile_NoDup (readFileSync : string -> outcome string)
  (processorParse : bool -> string -> string -> outcome Root)
  (idx : classIndex) (filePath : string) :
  NoDup (map fst idx) ->
  NoDup (map fst (afterIndexFile readFileSync processorParse idx filePath)).
Proof.
  intros Hnd. rewrite afterIndexFile_cases.
  destruct (readFileSync filePath); [|exact Hnd].
  apply insertClasses_NoDup, removeClassesFromFile_NoDup, Hnd.
Qed.

(** What holds of every extracted record and survives removal holds in
    every state of the index. *)
Lemma reachable_Forall (Q : string * CSSClass -> Prop) :
  (forall root filePath c,
     In c (extractClassesFromAST root filePath) -> Q (name c, c)) ->
  forall idx, reachable idx -> Forall Q idx.
Proof.
  intros Hextract.
  assert (forall readFileSync processorParse idx filePath,
            Forall Q idx ->
            Forall Q (afterIndexFile readFileSync processorParse idx
                        filePath)) as Hstep.
  { intros rf pp idx filePath Hidx. apply afterIndexFile_Forall;
      [exact Hidx|].
    intros content root _. apply Forall_forall. intros c.
    apply Hextract. }
  induction 1 as [|rf pp idx filePath _ IH|idx filePath _ IH|idx _ IH
                  |rf pp idx files _ IH].
  - constructor.
  - apply Hstep, IH.
  - apply removeClassesFromFile_Forall, IH.
  - constructor.
  - unfold rescanFiles, indexWorkspace, clearCache.
    assert (Forall Q (@nil (string * CSSClass))) as Hnil by constructor.
    revert Hnil. generalize (@nil (string * CSSClass)).
    induction files as [|f files IHf]; intros m Hm; [exact Hm|].
    cbn [fold_left]. apply IHf, Hstep, Hm.
Qed.

Lemma reachable_NoDup (idx : classIndex) :
  reachable idx -> NoDup (map fst idx).
Proof.
  induction 1 as [|rf pp idx filePath _ IH|idx filePath _ IH|idx _ IH
                  |rf pp idx files _ IH].
  - constructor.
  - apply afterIndexFile_NoDup, IH.
  - apply removeClassesFromFile_NoDup, IH.
  - constructor.
  - unfold rescanFiles, indexWorkspace, clearCache.
    assert (NoDup (map fst (@nil (string * CSSClass)))) as Hnil
      by constructor.
    revert Hnil. generalize (@nil (string * CSSClass)).
    induction files as [|f files IHf]; intros m Hm; [exact Hm|].
    cbn [fold_left]. apply IHf, afterIndexFile_NoDup, Hm.
Qed.

Lemma reachable_wellKeyed (idx : classIndex) :
  reachable idx -> wellKeyed idx.
Proof.
  intros H. split; [apply reachable_NoDup, H|].
  apply (reachable_Forall (fun e => fst e = name (snd e))); [|exact H].
  reflexivity.
Qed.

Lemma afterIndexFile_wellKeyed (readFileSync : string -> outcome string)
  (processorParse : bool -> string -> string -> outcome Root)
  (idx : classIndex) (filePath : string) :
  wellKeyed idx ->
  wellKeyed (afterIndexFile readFileSync processorParse idx filePath).
Proof.
  intros [Hnd Hkeys]. split; [apply afterIndexFile_NoDup, Hnd|].
  apply afterIndexFile_Forall; [exact Hkeys|].
  intros content root _. apply Forall_forall. reflexivity.
Qed.

Lemma lastNamed_Some (N : string) (cs : list CSSClass) (c : CSSClass) :
  lastNamed N cs = Some c -> In c cs /\ name c = N.
Proof.
  unfold lastNamed. intros H. apply find_some in H.
  destruct H as [Hin Hname]. split; [apply in_rev, Hin|].
  apply string_eqb_true, Hname.
Qed.

Lemma parseCSS_sourceFile
  (processorParse : bool -> string -> string -> outcome Root)
  (content filePath : string) (c : CSSClass) :
  In c (classes (parseCSS processorParse content filePath)) ->
  sourceFile c = filePath.
Proof.
  pose proof (parseCSS_Forall (fun c => sourceFile c = filePath)
                processorParse content filePath) as H.
  rewrite Forall_forall in H. apply H. intros root _.
  apply Forall_forall. intros c' Hc'.
  apply extractClassesFromAST_In in Hc'. apply Hc'.
Qed.

(** C3.  Indexing a file that can be read first removes every record
    whose source file is that path and then inserts the newly parsed
    records keyed by name, overwriting a record of the same name from
    any file.  Lookup of a name the file defines returns exactly the
    last record the file gives for it, a record of that file and not a
    merge, so of two files defining a name the one indexed later wins.
    Keys stay distinct: a name maps to one record in every state. *)
Theorem last_indexed_file_wins (readFileSync : string -> outcome string)
  (processorParse : bool -> string -> string -> outcome Root)
  (idx : classIndex) (filePath content : string) :
  wellKeyed idx ->
  readFileSync filePath = Returned content ->
  let recs := classes (parseCSS processorParse content filePath) in
  let idx' := afterIndexFile readFileSync processorParse idx filePath in
  idx' = insertClasses (filter (fromOtherFile filePath) idx) recs
  /\ wellKeyed idx'
  /\ (forall N,
        getClass idx' N
        = match lastNamed N recs with
          | Some c => Some c
          | None => getClass (filter (fromOtherFile filePath) idx) N
          end)
  /\ (forall N c,
        lastNamed N recs = Some c ->
        getClass idx' N = Some c
        /\ In c recs /\ name c = N /\ sourceFile c = filePath)
  /\ (forall readLater parseLater laterPath laterContent N c,
        readLater laterPath = Returned laterContent ->
        lastNamed N (classes (parseCSS parseLater laterContent laterPath))
        = Some c ->
        getClass (afterIndexFile readLater parseLater idx' laterPath) N
        = Some c
        /\ sourceFile c = laterPath)
  /\ (forall st, reachable st -> wellKeyed st).
Proof.
  intros Hwk Hread recs idx'.
  assert (idx' = insertClasses (filter (fromOtherFile filePath) idx) recs)
    as Hidx'.
  { unfold idx'. rewrite afterIndexFile_cases, Hread.
    rewrite removeClassesFromFile_filter by apply Hwk. reflexivity. }
  assert (forall rf pp m path text N c,
            rf path = Returned text ->
            lastNamed N (classes (parseCSS pp text path)) = Some c ->
            getClass (afterIndexFile rf pp m path) N = Some c
            /\ sourceFile c = path) as Hwins.
  { intros rf pp m path text N c Hrf Hlast.
    rewrite afterIndexFile_cases, Hrf, mapGet_insertClasses, Hlast.
    split; [reflexivity|].
    apply lastNamed_Some in Hlast.
    eapply parseCSS_sourceFile. apply Hlast. }
  split; [exact Hidx'|].
  split; [apply afterIndexFile_wellKeyed, Hwk|].
  split; [intros N; rewrite Hidx'; apply mapGet_insertClasses|].
  split.
  - intros N c Hlast.
    destruct (Hwins readFileSync processorParse idx filePath content N c
                Hread Hlast) as [Hget Hsrc].
    apply lastNamed_Some in Hlast. destruct Hlast as [Hin Hname].
    auto.
  - split; [|apply reachable_wellKeyed].
    intros rf pp path text N c. apply Hwins.
Qed.

Lemma last_indexed_file_wins_witness :
  wellKeyed buttonIndex
  /\ readsAs ".card.active, .panel > .title { color: red; margin: 0 }"
       "/w/card.css"
     = Returned ".card.active, .panel > .title { color: red; margin: 0 }"
  /\ wellKeyed
       (afterIndexFile
          (readsAs ".card.active, .panel > .title { color: red; margin: 0 }")
          (parsesTo cardSheet) buttonIndex "/w/card.css").
Proof.
  assert (wellKeyed buttonIndex) as Hwk.
  { split.
    - repeat constructor. intros [].
    - repeat constructor. }
  split; [exact Hwk|]. split; [reflexivity|].
  exact (proj1 (proj2
           (last_indexed_file_wins
              (readsAs
                 ".card.active, .panel > .title { color: red; margin: 0 }")
              (parsesTo cardSheet) buttonIndex "/w/card.css"
              ".card.active, .panel > .title { color: red; margin: 0 }"
              Hwk eq_refl))).
Defined.

(** C4, as the code has it.  [indexFile] never raises.  When the
    grammar fails on the whole file the file gives zero classes and its
    earlier records are removed from the index.  When reading the file
    fails the index is left exactly as it was, the earlier records of
    the file included. *)
Theorem indexFile_absorbs_failures
  (readFileSync : string -> outcome string)
  (processorParse : bool -> string -> string -> outcome Root)
  (idx : classIndex) (filePath : string) :
  (exists idx', indexFile readFileSync processorParse idx filePath
                = Returned idx')
  /\ (forall content e,
        readFileSync filePath = Returned content ->
        processorParse (isScssPath filePath) content filePath = Thrown e ->
        classes (parseCSS processorParse content filePath) = []
        /\ indexFile readFileSync processorParse idx filePath
           = Returned (removeClassesFromFile idx filePath)
        /\ forall c,
             In c (getAllClasses (removeClassesFromFile idx filePath)) ->
             In c (getAllClasses idx) /\ sourceFile c <> filePath)
  /\ (forall e,
        readFileSync filePath = Thrown e ->
        indexFile readFileSync processorParse idx filePath = Returned idx).
Proof.
  split; [|split].
  - unfold indexFile. destruct (indexFileTry _ _ _ _); eauto.
  - intros content e Hread Hparse.
    assert (classes (parseCSS processorParse content filePath) = [])
      as Hnone by (rewrite parseCSS_classes, Hparse; reflexivity).
    split; [exact Hnone|]. split.
    + unfold indexFile, indexFileTry. rewrite Hread, Hnone. reflexivity.
    + intros c Hc. unfold getAllClasses, mapValues in *.
      apply in_map_iff in Hc. destruct Hc as [entry [<- Hentry]].
      apply removeClassesFromFile_In in Hentry.
      split; [apply in_map|]; apply Hentry.
  - intros e Hread. unfold indexFile, indexFileTry. rewrite Hread.
    reflexivity.
Qed.

Lemma indexFile_absorbs_failures_witness :
  readFails "/w/a.css" = Thrown "ENOENT: no such file or directory"
  /\ indexFile readFails parseFails buttonIndex "/w/a.css"
     = Returned buttonIndex.
Proof.
  split; [reflexivity|].
  apply (proj2 (proj2
           (indexFile_absorbs_failures readFails parseFails buttonIndex
              "/w/a.css")) "ENOENT: no such file or directory").
  reflexivity.
Defined.

(** C4 as stated fails on a read failure: the class read earlier from
    the file is still in the index, whereas a file giving zero classes
    would have left the index without it. *)
Lemma read_failure_keeps_earlier_records :
  readFails "/w/a.css" = Thrown "ENOENT: no such file or directory"
  /\ afterIndexFile readFails parseFails buttonIndex "/w/a.css"
     = buttonIndex
  /\ getClass (afterIndexFile readFails parseFails buttonIndex "/w/a.css")
       "btn"
     = Some (sampleClass "btn" "/w/a.css")
  /\ afterIndexFile (readsAs "") (parsesTo []) buttonIndex "/w/a.css" = []
  /\ ~ (forall readFileSync processorParse idx filePath e,
          readFileSync filePath = Thrown e ->
          afterIndexFile readFileSync processorParse idx filePath
          = afterIndexFile (readsAs "") (parsesTo []) idx filePath).
Proof.
  repeat split; try reflexivity.
  intros H.
  specialize (H readFails parseFails buttonIndex "/w/a.css" _ eq_refl).
  discriminate H.
Qed.

(** ** Records and rules *)

Lemma flat_map_nothing {A B : Type} (f : A -> list B) (l : list A) :
  (forall x, In x l -> f x = []) -> flat_map f l = [].
Proof.
  induction l as [|a l IH]; intros H; cbn [flat_map]; [reflexivity|].
  rewrite (H a (or_introl eq_refl)), IH; [reflexivity|].
  intros x Hx. apply H. right. exact Hx.
Qed.

(** C7.  A rule that yields no declaration gives no record, whatever
    its selector.  Every extracted record has a non-empty property map,
    and so has every record of the index in every state it goes
    through: the invariant holds of the empty index and [indexFile],
    [removeClassesFromFile], [clearCache] and [rescanFiles] keep it. *)
Theorem records_own_a_declaration :
  (forall filePath prev rsel source ns,
     flat_map walkDecls ns = [] ->
     classesOfRule filePath prev rsel source ns = [])
  /\ (forall root filePath c,
        In c (extractClassesFromAST root filePath) -> properties c <> [])
  /\ (forall idx, reachable idx ->
        forall c, In c (getAllClasses idx) -> properties c <> []).
Proof.
  split; [|split].
  - intros filePath prev rsel source ns Hnone.
    rewrite classesOfRule_tokens. unfold ruleProperties.
    cbn [walkDecls]. rewrite Hnone. reflexivity.
  - intros root filePath c Hc. apply extractClassesFromAST_In in Hc.
    apply Hc.
  - intros idx Hreach c Hc.
    pose proof (reachable_Forall (fun e => properties (snd e) <> [])) as H.
    unfold getAllClasses, mapValues in Hc. apply in_map_iff in Hc.
    destruct Hc as [e [<- He]].
    assert (Forall (fun e => properties (snd e) <> []) idx) as Hall.
    { apply H; [|exact Hreach]. intros root filePath c' Hc'.
      apply extractClassesFromAST_In in Hc'. apply Hc'. }
    rewrite Forall_forall in Hall. apply Hall, He.
Qed.

Lemma records_own_a_declaration_witness :
  extractClassesFromAST emptyRuleSheet "/w/a.css" = []
  /\ forall c,
       In c (getAllClasses
               (afterIndexFile (readsAs "") (parsesTo cardSheet) []
                  "/w/card.css")) ->
       properties c <> [].
Proof.
  split.
  - unfold extractClassesFromAST, emptyRuleSheet.
    cbn [walkNodes walkNode].
    rewrite (proj1 records_own_a_declaration) by reflexivity.
    reflexivity.
  - apply (proj2 (proj2 records_own_a_declaration)).
    apply reach_indexFile, reach_new.
Defined.

Lemma mapGet_In (m : classIndex) (N : string) (c : CSSClass) :
  mapGet m N = Some c -> In (N, c) m.
Proof.
  induction m as [|[k v] m IH]; cbn [mapGet In]; [discriminate|].
  destruct (String.eqb k N) eqn:E.
  - apply string_eqb_true in E. intros H. injection H as ->. subst k.
    left. reflexivity.
  - intros H. right. apply IH, H.
Qed.

(** Records taken from a tree whose rules all carry a 1-based start sit
    at the start of one of these rules. *)
Lemma positioned_tree_records (root : Root) (filePath : string)
  (c : CSSClass) :
  Forall (fun visit => positioned (snd visit)) (rulesOf root) ->
  In c (extractClassesFromAST root filePath) ->
  exists prev rsel p ns,
    In (prev, Rule rsel (Some (mkSource (Some p))) ns) (rulesOf root)
    /\ line c = posLine p /\ column c = posColumn p
    /\ 1 <= posLine p /\ 1 <= posColumn p.
Proof.
  intros Hall Hc. apply extractClassesFromAST_In in Hc.
  destruct Hc as (_ & _ & prev & rsel & source & ns & Hin & _ & _
                  & Hline & Hcol).
  rewrite Forall_forall in Hall. specialize (Hall _ Hin).
  cbn [snd positioned] in Hall.
  destruct source as [[[p|]]|]; try contradiction.
  exists prev, rsel, p, ns. cbn [startLine startColumn] in Hline, Hcol.
  repeat split; try assumption; apply Hall.
Qed.

Lemma afterIndexFile_oneBased (readFileSync : string -> outcome string)
  (processorParse : bool -> string -> string -> outcome Root)
  (idx : classIndex) (filePath : string) :
  positionedTrees processorParse ->
  Forall (fun e => oneBased (snd e)) idx ->
  Forall (fun e => oneBased (snd e))
    (afterIndexFile readFileSync processorParse idx filePath).
Proof.
  intros Hpp Hidx. apply afterIndexFile_Forall; [exact Hidx|].
  intros content root Hroot. apply Forall_forall. intros c Hc. cbn [snd].
  destruct (positioned_tree_records root filePath c (Hpp _ _ _ _ Hroot) Hc)
    as (_ & _ & p & _ & _ & Hline & Hcol & Hp).
  unfold oneBased. rewrite Hline, Hcol. exact Hp.
Qed.

Lemma indexed_oneBased (idx : classIndex) :
  indexed idx -> Forall (fun e => oneBased (snd e)) idx.
Proof.
  induction 1 as [|rf pp idx filePath Hpp _ IH|idx filePath _ IH|idx _ IH
                  |rf pp idx files Hpp _ IH].
  - constructor.
  - apply afterIndexFile_oneBased; assumption.
  - apply removeClassesFromFile_Forall, IH.
  - constructor.
  - unfold rescanFiles, indexWorkspace, clearCache.
    assert (Forall (fun e => oneBased (snd e)) (@nil (string * CSSClass)))
      as Hnil by constructor.
    revert Hnil. generalize (@nil (string * CSSClass)).
    induction files as [|f files IHf]; intros m Hm; [exact Hm|].
    cbn [fold_left]. apply IHf, afterIndexFile_oneBased; assumption.
Qed.

(** C9.  The line and column of a record are those of the start
    position of its rule.  The grammar gives every rule the 1-based
    position of its first character, so every record extracted from a
    tree it builds, every record that parsing a file returns and every
    record the index holds, finds by name or returns from a search, in
    every state it goes through, has [line >= 1] and [column >= 1]:
    the line and column of the start of some rule of its tree.  (The 0
    that the code puts in for a missing position is taken only for a
    rule without a start position, which no grammar builds.) *)
Theorem record_position_follows_rule_start :
  (forall root filePath c,
     In c (extractClassesFromAST root filePath) ->
     exists prev rsel source ns,
       In (prev, Rule rsel source ns) (rulesOf root)
       /\ line c = startLine source /\ column c = startColumn source)
  /\ (forall p, startLine (Some (mkSource (Some p))) = posLine p
                /\ startColumn (Some (mkSource (Some p))) = posColumn p)
  /\ (startLine None = 0 /\ startColumn None = 0
      /\ startLine (Some (mkSource None)) = 0
      /\ startColumn (Some (mkSource None)) = 0)
  /\ (forall root filePath,
        Forall (fun visit => positioned (snd visit)) (rulesOf root) ->
        forall c, In c (extractClassesFromAST root filePath) ->
          oneBased c
          /\ exists prev rsel p ns,
               In (prev, Rule rsel (Some (mkSource (Some p))) ns)
                 (rulesOf root)
               /\ line c = posLine p /\ column c = posColumn p)
  /\ (forall processorParse content filePath,
        positionedTrees processorParse ->
        forall c,
          In c (classes (parseCSS processorParse content filePath)) ->
          oneBased c)
  /\ (forall idx, indexed idx ->
        (forall c, In c (getAllClasses idx) -> oneBased c)
        /\ (forall className c,
              getClass idx className = Some c -> oneBased c)
        /\ (forall query maxResults c,
              In c (searchClasses idx query maxResults) -> oneBased c)).
Proof.
  split; [|split; [|split; [|split; [|split]]]].
  - intros root filePath c Hc. apply extractClassesFromAST_In in Hc.
    destruct Hc as (_ & _ & prev & rsel & source & ns & Hin & _ & _
                    & Hline & Hcol).
    exists prev, rsel, source, ns. auto.
  - intros p. split; reflexivity.
  - repeat split; reflexivity.
  - intros root filePath Hall c Hc.
    destruct (positioned_tree_records root filePath c Hall Hc)
      as (prev & rsel & p & ns & Hin & Hline & Hcol & Hp).
    split; [unfold oneBased; rewrite Hline, Hcol; exact Hp|].
    exists prev, rsel, p, ns. auto.
  - intros pp content filePath Hpp c Hc.
    assert (Forall oneBased (classes (parseCSS pp content filePath)))
      as Hall.
    { apply parseCSS_Forall. intros root Hroot. apply Forall_forall.
      intros c' Hc'.
      destruct (positioned_tree_records root filePath c'
                  (Hpp _ _ _ _ Hroot) Hc')
        as (_ & _ & p & _ & _ & Hline & Hcol & Hp).
      unfold oneBased. rewrite Hline, Hcol. exact Hp. }
    rewrite Forall_forall in Hall. apply Hall, Hc.
  - intros idx Hidx. pose proof (indexed_oneBased idx Hidx) as Hall.
    rewrite Forall_forall in Hall.
    assert (forall c, In c (getAllClasses idx) -> oneBased c) as Hvalues.
    { intros c Hc. unfold getAllClasses, mapValues in Hc.
      apply in_map_iff in Hc. destruct Hc as [e [<- He]].
      apply Hall, He. }
    split; [exact Hvalues|]. split.
    + intros className c Hget. unfold getClass in Hget.
      apply mapGet_In in Hget. apply (Hall _ Hget).
    + intros query maxResults c Hc. rewrite searchClasses_ranked in Hc.
      apply slice0_In, ranked_In in Hc. apply Hvalues, Hc.
Qed.

Lemma record_position_follows_rule_start_witness :
  Forall (fun visit => positioned (snd visit)) (rulesOf cardSheet)
  /\ positionedTrees (parsesTo cardSheet)
  /\ indexed
       (afterIndexFile (readsAs "") (parsesTo cardSheet) [] "/w/card.css")
  /\ (forall c, In c (extractClassesFromAST cardSheet "/w/card.css") ->
                oneBased c)
  /\ forall c,
       getClass
         (afterIndexFile (readsAs "") (parsesTo cardSheet) [] "/w/card.css")
         "title"
       = Some c ->
       oneBased c.
Proof.
  assert (Forall (fun visit => positioned (snd visit)) (rulesOf cardSheet))
    as Hall.
  { repeat constructor; cbn; lia. }
  assert (positionedTrees (parsesTo cardSheet)) as Hpp.
  { intros isScss content from root H. injection H as <-. exact Hall. }
  assert (indexed
            (afterIndexFile (readsAs "") (parsesTo cardSheet) []
               "/w/card.css")) as Hidx.
  { apply indexed_indexFile; [exact Hpp | apply indexed_new]. }
  pose proof record_position_follows_rule_start
    as [_ [_ [_ [Htree [_ Hindex]]]]].
  split; [exact Hall|]. split; [exact Hpp|]. split; [exact Hidx|]. split.
  - intros c Hc. exact (proj1 (Htree cardSheet "/w/card.css" Hall c Hc)).
  - intros c Hget.
    exact (proj1 (proj2 (Hindex _ Hidx)) "title" c Hget).
Defined.

(** The property map is empty exactly when no declaration sets a
    property other than [__proto__]. *)
Lemma collected_nonempty (decls : list (string * string)) (o : object) :
  fold_left (fun o d => objSet o (fst d) (snd d)) decls o <> []
  <-> o <> [] \/ exists p v, In (p, v) decls /\ p <> "__proto__".
Proof.
  revert o. induction decls as [|[p v] decls IH]; intros o;
    cbn [fold_left].
  - split; [intros H; left; exact H|].
    intros [H | (p & v & [] & _)]. exact H.
  - rewrite IH. cbn [fst snd]. unfold objSet.
    destruct (String.eqb p "__proto__") eqn:E.
    + apply string_eqb_true in E. split.
      * intros [H | (p' & v' & Hin & Hne)]; [left; exact H|].
        right. exists p', v'. split; [right; exact Hin | exact Hne].
      * intros [H | (p' & v' & [Hin | Hin] & Hne)]; [left; exact H | |].
        -- injection Hin as <- _. contradiction.
        -- right. exists p', v'. split; assumption.
    + assert (p <> "__proto__") as Hp
        by (intros H; apply string_eqb_true in H; congruence).
      split.
      * intros _. right. exists p, v. split; [left; reflexivity | exact Hp].
      * intros _. left. destruct o as [|[k' v'] o]; cbn [assign];
          [discriminate|]. destruct (String.eqb k' p); discriminate.
Qed.

Lemma ruleProperties_nonempty (n : Node) :
  ruleProperties n <> []
  <-> exists p v, In (p, v) (walkDecls n) /\ p <> "__proto__".
Proof.
  unfold ruleProperties, collectProperties. rewrite collected_nonempty.
  split; [intros [H | H]; [contradiction | exact H] | auto].
Qed.

(** C10, as the code has it.  For every rule that declares at least one
    property other than [__proto__], the class tokens are those found
    anywhere in the whole selector text, across commas, compound
    selectors and combinators, and the rule gives one record per token,
    in order.  Each of these records is named after its token and
    carries the full property map of the rule and the raw selector
    string of the rule.  Every other rule, one that has no declaration
    or declares [__proto__] only, gives no record. *)
Theorem rule_gives_one_record_per_class_token (filePath : string)
  (root : Root) (prev : option Node) (rsel : string)
  (source : option Source) (ns : list Node) :
  In (prev, Rule rsel source ns) (rulesOf root) ->
  (exists p v,
     In (p, v) (walkDecls (Rule rsel source ns)) /\ p <> "__proto__") ->
  let rule := Rule rsel source ns in
  let recs := recordsOfRule filePath (prev, rule) in
  parseSelector rsel = classMatches rsel
  /\ recs = map (recordOfToken filePath prev rule) (classMatches rsel)
  /\ map name recs = map (substringFrom 1) (classMatches rsel)
  /\ Forall (fun c => properties c = ruleProperties rule
                      /\ selector c = rsel) recs
  /\ (forall c, In c recs -> In c (extractClassesFromAST root filePath))
  /\ (forall prev' rsel' source' ns',
        (forall p v,
           In (p, v) (walkDecls (Rule rsel' source' ns')) ->
           p = "__proto__") ->
        recordsOfRule filePath (prev', Rule rsel' source' ns') = [])
  /\ classMatches ".a.b" = [".a"; ".b"]
  /\ classMatches ".a .b" = [".a"; ".b"]
  /\ classMatches ".a, .b" = [".a"; ".b"]
  /\ map (fun c => (name c, properties c, selector c))
       (extractClassesFromAST cardSheet "/w/card.css")
     = map (fun nm => (nm, [("color", "red"); ("margin", "0")],
                       ".card.active, .panel > .title"))
         ["card"; "active"; "panel"; "title"]
  /\ extractClassesFromAST
       [ Rule ".a" (Some (mkSource (Some (mkPosition 1 1))))
           [ Declaration "__proto__" "x" ] ] "/w/a.css"
     = [].
Proof.
  intros Hin Hdecl rule recs.
  assert (ruleProperties rule <> []) as Hprops
    by (apply ruleProperties_nonempty, Hdecl).
  assert (recs = map (recordOfToken filePath prev rule) (classMatches rsel))
    as Hrecs.
  { unfold recs, rule, recordsOfRule. cbn [fst snd].
    rewrite classesOfRule_tokens.
    apply keys_nonempty in Hprops. unfold rule in Hprops.
    rewrite Hprops. reflexivity. }
  split; [apply parseSelector_classMatches|].
  split; [exact Hrecs|].
  split; [rewrite Hrecs, map_map; reflexivity|].
  split.
  { rewrite Hrecs. apply Forall_forall. intros c Hc.
    apply in_map_iff in Hc. destruct Hc as [tok [<- _]].
    split; reflexivity. }
  split.
  { intros c Hc. rewrite extractClassesFromAST_rules.
    apply in_flat_map. exists (prev, rule). split; assumption. }
  split.
  { intros prev' rsel' source' ns' Hnone.
    unfold recordsOfRule. cbn [fst snd]. rewrite classesOfRule_tokens.
    destruct (0 <? _) eqn:E; [|reflexivity].
    apply keys_nonempty, ruleProperties_nonempty in E.
    destruct E as (p & v & Hp & Hne). elim Hne. eapply Hnone, Hp. }
  repeat split; reflexivity.
Qed.

Lemma rule_gives_one_record_per_class_token_witness :
  In (Some (Comment " helper "), cardRule) (rulesOf cardSheet)
  /\ (exists p v, In (p, v) (walkDecls cardRule) /\ p <> "__proto__")
  /\ map name (recordsOfRule "/w/card.css"
                 (Some (Comment " helper "), cardRule))
     = map (substringFrom 1) (classMatches ".card.active, .panel > .title").
Proof.
  assert (In (Some (Comment " helper "), cardRule) (rulesOf cardSheet))
    as Hin by (left; reflexivity).
  assert (exists p v, In (p, v) (walkDecls cardRule) /\ p <> "__proto__")
    as Hdecl.
  { exists "color", "red". split; [left; reflexivity | discriminate]. }
  split; [exact Hin|]. split; [exact Hdecl|].
  exact (proj1 (proj2 (proj2
           (rule_gives_one_record_per_class_token "/w/card.css" cardSheet
              (Some (Comment " helper "))
              ".card.active, .panel > .title"
              (Some (mkSource (Some (mkPosition 3 1))))
              [Declaration "color" "red"; Declaration "margin" "0"]
              Hin Hdecl)))).
Defined.

(** C10 as stated fails for a rule without declarations: its selector
    has two class tokens and it gives no record. *)
Lemma empty_rule_gives_no_record :
  classMatches ".a, .b" = [".a"; ".b"]
  /\ rulesOf emptyRuleSheet
     = [(None, Rule ".a, .b" (Some (mkSource (Some (mkPosition 1 1)))) [])]
  /\ extractClassesFromAST emptyRuleSheet "/w/a.css" = []
  /\ ~ (forall filePath prev rsel source ns,
          map name (classesOfRule filePath prev rsel source ns)
          = map (substringFrom 1) (classMatches rsel)).
Proof.
  repeat split; try reflexivity.
  intros H.
  specialize (H "/w/a.css" None ".a, .b"
                (Some (mkSource (Some (mkPosition 1 1)))) []).
  discriminate H.
Qed.

(** ** Lookups under removal and re-indexing *)

Lemma mapGet_absent (m : classIndex) (N : string) :
  ~ In N (map fst m) -> mapGet m N = None.
Proof.
  induction m as [|[k v] m IH]; cbn [map fst In mapGet]; intros H;
    [reflexivity|].
  destruct (String.eqb k N) eqn:E.
  - apply string_eqb_true in E. exfalso. apply H. left. exact E.
  - apply IH. intros Hin. apply H. right. exact Hin.
Qed.

Lemma filter_keys_incl (p : string * CSSClass -> bool) (m : classIndex)
  (N : string) :
  In N (map fst (filter p m)) -> In N (map fst m).
Proof.
  intros H. apply in_map_iff in H. destruct H as [e [<- He]].
  apply filter_In in He. apply in_map, He.
Qed.

Lemma mapGet_filter (p : string * CSSClass -> bool) (m : classIndex)
  (N : string) :
  NoDup (map fst m) ->
  mapGet (filter p m) N
  = match mapGet m N with
    | Some c => if p (N, c) then Some c else None
    | None => None
    end.
Proof.
  induction m as [|[k v] m IH]; cbn [map fst filter mapGet]; intros Hnd;
    [reflexivity|].
  inversion Hnd as [|? ? Hnotin Hrest]; subst.
  destruct (String.eqb k N) eqn:E.
  - apply string_eqb_true in E. subst k.
    destruct (p (N, v)); cbn [mapGet].
    + rewrite String.eqb_refl. reflexivity.
    + apply mapGet_absent. intros Hin. apply Hnotin.
      eapply filter_keys_incl, Hin.
  - destruct (p (k, v)); cbn [mapGet]; rewrite ?E; apply IH, Hrest.
Qed.

(** X1.  On an index with distinct keys, removing a file's classes
    keeps exactly the entries of the other files, in their order.  No
    record of the file is left, a name whose record came from another
    file still looks up to that record, a name whose record came from
    the file looks up to nothing, and removing again changes nothing. *)
Theorem removeClassesFromFile_drops_one_file (idx : classIndex)
  (filePath : string) :
  wellKeyed idx ->
  let idx' := removeClassesFromFile idx filePath in
  idx' = filter (fromOtherFile filePath) idx
  /\ wellKeyed idx'
  /\ (forall c, In c (getAllClasses idx') -> sourceFile c <> filePath)
  /\ (forall N c, getClass idx N = Some c -> sourceFile c <> filePath ->
        getClass idx' N = Some c)
  /\ (forall N c, getClass idx N = Some c -> sourceFile c = filePath ->
        getClass idx' N = None)
  /\ (forall N, getClass idx N = None -> getClass idx' N = None)
  /\ removeClassesFromFile idx' filePath = idx'.
Proof.
  intros [Hnd Hkeys] idx'.
  assert (idx' = filter (fromOtherFile filePath) idx) as Heq
    by (apply removeClassesFromFile_filter, Hnd).
  assert (NoDup (map fst idx')) as Hnd'
    by (apply removeClassesFromFile_NoDup, Hnd).
  assert (forall N,
            getClass idx' N
            = match getClass idx N with
              | Some c => if fromOtherFile filePath (N, c) then Some c
                          else None
              | None => None
              end) as Hget
    by (intros N; rewrite Heq; apply mapGet_filter, Hnd).
  split; [exact Heq|].
  split; [split; [exact Hnd'|apply removeClassesFromFile_Forall, Hkeys]|].
  split.
  { intros c Hc. unfold getAllClasses, mapValues in Hc.
    apply in_map_iff in Hc. destruct Hc as [e [<- He]].
    apply removeClassesFromFile_In in He. apply He. }
  split.
  { intros N c Hc Hsrc. rewrite Hget, Hc. unfold fromOtherFile. cbn [snd].
    apply String.eqb_neq in Hsrc. rewrite Hsrc. reflexivity. }
  split.
  { intros N c Hc Hsrc. rewrite Hget, Hc. unfold fromOtherFile. cbn [snd].
    apply String.eqb_eq in Hsrc. rewrite Hsrc. reflexivity. }
  split; [intros N HN; rewrite Hget, HN; reflexivity|].
  rewrite (removeClassesFromFile_filter _ _ Hnd'), Heq.
  apply forallb_filter_id. apply forallb_forall. intros e He.
  apply filter_In in He. apply He.
Qed.

Lemma removeClassesFromFile_drops_one_file_witness :
  wellKeyed primaryIndex
  /\ map name (getAllClasses (removeClassesFromFile primaryIndex "/w/a.css"))
     = ["primary"].
Proof.
  assert (wellKeyed primaryIndex) as Hwk.
  { split; [|repeat constructor].
    repeat constructor; cbn; intuition discriminate. }
  split; [exact Hwk|].
  rewrite (proj1 (removeClassesFromFile_drops_one_file primaryIndex
                    "/w/a.css" Hwk)).
  reflexivity.
Defined.

Lemma getClass_afterIndexFile (readFileSync : string -> outcome string)
  (processorParse : bool -> string -> string -> outcome Root)
  (idx : classIndex) (filePath N : string) :
  NoDup (map fst idx) ->
  getClass (afterIndexFile readFileSync processorParse idx filePath) N
  = match readFileSync filePath with
    | Thrown _ => getClass idx N
    | Returned content =>
        match lastNamed N
                (classes (parseCSS processorParse content filePath)) with
        | Some c => Some c
        | None =>
            match getClass idx N with
            | Some c =>
                if String.eqb (sourceFile c) filePath then None else Some c
            | None => None
            end
        end
    end.
Proof.
  intros Hnd. rewrite afterIndexFile_cases.
  destruct (readFileSync filePath) as [content|e]; [|reflexivity].
  rewrite mapGet_insertClasses.
  destruct (lastNamed N _); [reflexivity|].
  rewrite (removeClassesFromFile_filter _ _ Hnd).
  unfold getClass. rewrite (mapGet_filter _ _ _ Hnd).
  destruct (mapGet idx N) as [c|]; [|reflexivity].
  unfold fromOtherFile. cbn [snd].
  destruct (String.eqb (sourceFile c) filePath); reflexivity.
Qed.

(** X2.  Indexing a file touches only the names it owns.  A name whose
    record came from another file and that the file does not define
    keeps its record, also when the file cannot be read.  A name whose
    record came from this file and that the file no longer defines
    looks up to nothing afterwards.  Whatever a lookup returns
    afterwards is either a record just parsed from the file or the
    record the name had before. *)
Theorem indexFile_touches_only_its_names
  (readFileSync : string -> outcome string)
  (processorParse : bool -> string -> string -> outcome Root)
  (idx : classIndex) (filePath : string) :
  wellKeyed idx ->
  let idx' := afterIndexFile readFileSync processorParse idx filePath in
  let defines N :=
    exists content c,
      readFileSync filePath = Returned content
      /\ lastNamed N (classes (parseCSS processorParse content filePath))
         = Some c in
  (forall N c, getClass idx N = Some c -> sourceFile c <> filePath ->
     ~ defines N -> getClass idx' N = Some c)
  /\ (forall N c content,
        readFileSync filePath = Returned content ->
        getClass idx N = Some c -> sourceFile c = filePath ->
        ~ defines N -> getClass idx' N = None)
  /\ (forall N c',
        getClass idx' N = Some c' ->
        (sourceFile c' = filePath
         /\ exists content,
              readFileSync filePath = Returned content
              /\ In c' (classes (parseCSS processorParse content filePath)))
        \/ getClass idx N = Some c').
Proof.
  intros [Hnd _] idx' defines.
  pose proof (fun N => getClass_afterIndexFile readFileSync processorParse
                         idx filePath N Hnd) as Hget.
  fold idx' in Hget.
  split; [|split].
  - intros N c Hc Hsrc Hdef. rewrite Hget, Hc.
    apply String.eqb_neq in Hsrc.
    destruct (readFileSync filePath) as [content|e]; [|reflexivity].
    destruct (lastNamed N _) as [c0|] eqn:El.
    + exfalso. apply Hdef. exists content, c0. auto.
    + rewrite Hsrc. reflexivity.
  - intros N c content Hread Hc Hsrc Hdef. rewrite Hget, Hread, Hc.
    apply String.eqb_eq in Hsrc.
    destruct (lastNamed N _) as [c0|] eqn:El.
    + exfalso. apply Hdef. exists content, c0. auto.
    + rewrite Hsrc. reflexivity.
  - intros N c' Hc'. rewrite Hget in Hc'.
    destruct (readFileSync filePath) as [content|e]; [|right; exact Hc'].
    destruct (lastNamed N _) as [c0|] eqn:El.
    + injection Hc' as ->. left.
      apply lastNamed_Some in El. destruct El as [Hin _]. split.
      * eapply parseCSS_sourceFile, Hin.
      * exists content. auto.
    + right. destruct (getClass idx N) as [c|]; [|discriminate].
      destruct (String.eqb (sourceFile c) filePath); [discriminate|].
      exact Hc'.
Qed.

Lemma wellKeyed_primaryIndex : wellKeyed primaryIndex.
Proof.
  split; [|repeat constructor].
  repeat constructor; cbn; intuition discriminate.
Qed.

Lemma indexFile_touches_only_its_names_witness :
  wellKeyed primaryIndex
  /\ getClass
       (afterIndexFile (readsAs "") (parsesTo cardSheet) primaryIndex
          "/w/a.css") "xyz"
     = None.
Proof.
  split; [exact wellKeyed_primaryIndex|].
  apply (proj1 (proj2
           (indexFile_touches_only_its_names (readsAs "")
              (parsesTo cardSheet) primaryIndex "/w/a.css"
              wellKeyed_primaryIndex))
           "xyz" (sampleClass "xyz" "/w/a.css") "");
    try reflexivity.
  intros [content [c [_ H]]]. discriminate H.
Defined.

Lemma filter_mapSet (P : string * CSSClass -> bool) (m : classIndex)
  (k : string) (c : CSSClass) :
  NoDup (map fst m) -> P (k, c) = false ->
  filter P (mapSet m k c)
  = filter (fun e => (P e && negb (String.eqb (fst e) k))%bool) m.
Proof.
  intros Hnd HP. induction m as [|[k0 v0] m IH]; cbn [mapSet filter].
  - rewrite HP. reflexivity.
  - inversion Hnd as [|? ? Hnotin Hrest]; subst.
    destruct (String.eqb k0 k) eqn:E; cbn [filter fst].
    + apply string_eqb_true in E. subst k0.
      rewrite HP, String.eqb_refl, andb_false_r.
      apply filter_ext_in. intros e He.
      destruct (String.eqb (fst e) k) eqn:Ek.
      * apply string_eqb_true in Ek. exfalso. apply Hnotin.
        rewrite <- Ek. apply in_map, He.
      * rewrite andb_true_r. reflexivity.
    + rewrite E, andb_true_r, (IH Hrest). reflexivity.
Qed.

Lemma filter_insertClasses (filePath : string) (cs : list CSSClass)
  (m : classIndex) :
  NoDup (map fst m) ->
  Forall (fun c => sourceFile c = filePath) cs ->
  filter (fromOtherFile filePath) (insertClasses m cs)
  = filter (fun e => (fromOtherFile filePath e
                      && negb (existsb (String.eqb (fst e)) (map name cs)))
                     %bool) m.
Proof.
  unfold insertClasses. intros Hnd Hcs. revert m Hnd.
  induction Hcs as [|c cs Hc Hcs IH]; intros m Hnd.
  - cbn [fold_left map existsb negb]. apply filter_ext. intros e.
    rewrite andb_true_r. reflexivity.
  - cbn [fold_left map existsb]. rewrite IH by apply mapSet_NoDup, Hnd.
    rewrite filter_mapSet; [|exact Hnd|].
    + apply filter_ext. intros e.
      destruct (fromOtherFile filePath e); cbn [andb]; [|reflexivity].
      rewrite negb_orb, andb_comm. reflexivity.
    + unfold fromOtherFile. cbn [snd].
      apply String.eqb_eq in Hc. rewrite Hc. reflexivity.
Qed.

Lemma parseCSS_all_from_file
  (processorParse : bool -> string -> string -> outcome Root)
  (content filePath : string) :
  Forall (fun c => sourceFile c = filePath)
    (classes (parseCSS processorParse content filePath)).
Proof.
  apply Forall_forall. intros c. apply parseCSS_sourceFile.
Qed.

(** X3.  Indexing a file a second time, the file and the grammar being
    as they were, changes no lookup: every name looks up to the same
    record as after the first run.  The entries may come in another
    order, since a name first taken over from another file keeps that
    file's place and is moved to the end by the second run; from the
    second run on the index does not change any more. *)
Theorem indexFile_twice_keeps_lookups
  (readFileSync : string -> outcome string)
  (processorParse : bool -> string -> string -> outcome Root)
  (idx : classIndex) (filePath : string) :
  wellKeyed idx ->
  let once := afterIndexFile readFileSync processorParse idx filePath in
  let twice := afterIndexFile readFileSync processorParse once filePath in
  let thrice := afterIndexFile readFileSync processorParse twice filePath in
  (forall N, getClass twice N = getClass once N)
  /\ thrice = twice
  /\ map name
       (getAllClasses
          (afterIndexFile (readsAs "") (parsesTo xyzSheet) primaryIndex
             "/w/c.css"))
     = ["xyz"; "btn-primary"; "primary"]
  /\ map name
       (getAllClasses
          (afterIndexFile (readsAs "") (parsesTo xyzSheet)
             (afterIndexFile (readsAs "") (parsesTo xyzSheet) primaryIndex
                "/w/c.css") "/w/c.css"))
     = ["btn-primary"; "primary"; "xyz"].
Proof.
  intros [Hnd _] once twice thrice.
  assert (NoDup (map fst once)) as Hnd1 by apply afterIndexFile_NoDup, Hnd.
  assert (NoDup (map fst twice)) as Hnd2
    by apply afterIndexFile_NoDup, Hnd1.
  split; [|split; [|split; reflexivity]].
  - intros N. unfold twice.
    rewrite (getClass_afterIndexFile _ _ _ _ _ Hnd1).
    pose proof (getClass_afterIndexFile readFileSync processorParse idx
                  filePath N Hnd) as Hone.
    fold once in Hone. rewrite Hone.
    destruct (readFileSync filePath) as [content|e]; [|reflexivity].
    destruct (lastNamed N _) as [c0|]; [reflexivity|].
    destruct (getClass idx N) as [c|]; [|reflexivity].
    destruct (String.eqb (sourceFile c) filePath) eqn:E;
      [reflexivity | rewrite E; reflexivity].
  - assert (forall m, NoDup (map fst m) ->
              afterIndexFile readFileSync processorParse m filePath
              = match readFileSync filePath with
                | Returned content =>
                    insertClasses (filter (fromOtherFile filePath) m)
                      (classes (parseCSS processorParse content filePath))
                | Thrown _ => m
                end) as Hstep.
    { intros m Hm. rewrite afterIndexFile_cases.
      destruct (readFileSync filePath); [|reflexivity].
      rewrite (removeClassesFromFile_filter _ _ Hm). reflexivity. }
    unfold thrice. rewrite (Hstep twice Hnd2).
    pose proof (Hstep once Hnd1) as Htwice. fold twice in Htwice.
    pose proof (Hstep idx Hnd) as Honce. fold once in Honce.
    destruct (readFileSync filePath) as [content|e]; [|reflexivity].
    set (recs := classes (parseCSS processorParse content filePath)) in *.
    rewrite Htwice at 2. f_equal.
    rewrite Htwice.
    rewrite filter_insertClasses;
      [|apply filter_keys_NoDup, Hnd1|apply parseCSS_all_from_file].
    rewrite Honce.
    rewrite filter_insertClasses;
      [|apply filter_keys_NoDup, Hnd|apply parseCSS_all_from_file].
    apply forallb_filter_id, forallb_filter.
Qed.

Lemma indexFile_twice_keeps_lookups_witness :
  wellKeyed primaryIndex
  /\ forall N,
       getClass
         (afterIndexFile (readsAs "") (parsesTo cardSheet)
            (afterIndexFile (readsAs "") (parsesTo cardSheet) primaryIndex
               "/w/b.css") "/w/b.css") N
       = getClass
           (afterIndexFile (readsAs "") (parsesTo cardSheet) primaryIndex
              "/w/b.css") N.
Proof.
  split; [exact wellKeyed_primaryIndex|].
  apply (indexFile_twice_keeps_lookups (readsAs "") (parsesTo cardSheet)
           primaryIndex "/w/b.css" wellKeyed_primaryIndex).
Defined.

(** ** Scanning a workspace *)

Lemma indexWorkspace_NoDup (readFileSync : string -> outcome string)
  (processorParse : bool -> string -> string -> outcome Root)
  (files : list string) (idx : classIndex) :
  NoDup (map fst idx) ->
  NoDup (map fst (indexWorkspace readFileSync processorParse idx files)).
Proof.
  unfold indexWorkspace. revert idx.
  induction files as [|f files IH]; intros idx Hnd; [exact Hnd|].
  cbn [fold_left]. apply IH, afterIndexFile_NoDup, Hnd.
Qed.

Lemma indexWorkspace_app (readFileSync : string -> outcome string)
  (processorParse : bool -> string -> string -> outcome Root)
  (before after : list string) (idx : classIndex) :
  indexWorkspace readFileSync processorParse idx (before ++ after)
  = indexWorkspace readFileSync processorParse
      (indexWorkspace readFileSync processorParse idx before) after.
Proof. unfold indexWorkspace. apply fold_left_app. Qed.

(** X4.  In a workspace scan the last file, in scan order, that can be
    read and defines a name wins: when a readable file defines the name
    and no readable file after it in the list does, lookup after the
    scan returns that file's last record for the name.  The same holds
    for a rescan, which starts from the empty index. *)
Theorem scan_last_defining_file_wins
  (readFileSync : string -> outcome string)
  (processorParse : bool -> string -> string -> outcome Root)
  (idx : classIndex) (before after : list string)
  (filePath content N : string) (c : CSSClass) :
  wellKeyed idx ->
  readFileSync filePath = Returned content ->
  lastNamed N (classes (parseCSS processorParse content filePath)) = Some c ->
  (forall later text,
     In later after -> readFileSync later = Returned text ->
     lastNamed N (classes (parseCSS processorParse text later)) = None) ->
  getClass
    (indexWorkspace readFileSync processorParse idx
       (before ++ filePath :: after)) N
  = Some c
  /\ getClass
       (rescanFiles readFileSync processorParse idx
          (before ++ filePath :: after)) N
     = Some c
  /\ sourceFile c = filePath.
Proof.
  intros [Hnd _] Hread Hlast Hafter.
  assert (sourceFile c = filePath) as Hsrc.
  { apply lastNamed_Some in Hlast. destruct Hlast as [Hin _].
    eapply parseCSS_sourceFile, Hin. }
  assert (forall m, NoDup (map fst m) ->
            getClass
              (indexWorkspace readFileSync processorParse m
                 (before ++ filePath :: after)) N = Some c) as Hscan.
  { intros m Hm. rewrite indexWorkspace_app.
    set (m0 := indexWorkspace readFileSync processorParse m before).
    assert (NoDup (map fst m0)) as Hm0 by apply indexWorkspace_NoDup, Hm.
    unfold indexWorkspace. cbn [fold_left].
    set (m1 := afterIndexFile readFileSync processorParse m0 filePath).
    assert (NoDup (map fst m1)) as Hm1 by apply afterIndexFile_NoDup, Hm0.
    assert (getClass m1 N = Some c) as Hget1.
    { unfold m1. rewrite (getClass_afterIndexFile _ _ _ _ _ Hm0).
      rewrite Hread, Hlast. reflexivity. }
    clearbody m1. clear m0 Hm0.
    revert m1 Hm1 Hget1.
    induction after as [|g after IH]; intros m1 Hm1 Hget1; [exact Hget1|].
    cbn [fold_left]. apply IH.
    - intros later text Hin. apply Hafter. right. exact Hin.
    - apply afterIndexFile_NoDup, Hm1.
    - rewrite (getClass_afterIndexFile _ _ _ _ _ Hm1).
      destruct (readFileSync g) as [text|e] eqn:Hg; [|exact Hget1].
      rewrite (Hafter g text (or_introl eq_refl) Hg), Hget1.
      destruct (String.eqb (sourceFile c) g) eqn:E; [|reflexivity].
      apply string_eqb_true in E. rewrite Hsrc in E. subst g.
      rewrite Hread in Hg. injection Hg as <-.
      rewrite (Hafter filePath content (or_introl eq_refl) Hread) in Hlast.
      discriminate. }
  split; [apply Hscan, Hnd|].
  split; [|exact Hsrc].
  unfold rescanFiles, clearCache. apply Hscan. constructor.
Qed.

Lemma scan_last_defining_file_wins_witness :
  wellKeyed primaryIndex
  /\ workspaceRead "/w/c.css" = Returned "contents of /w/c.css"
  /\ lastNamed "xyz"
       (classes (parseCSS workspaceParse "contents of /w/c.css" "/w/c.css"))
     = Some blueXyz
  /\ (forall later text,
        In later ["/w/card.css"; "/w/gone.css"; "/w/x.css"] ->
        workspaceRead later = Returned text ->
        lastNamed "xyz" (classes (parseCSS workspaceParse text later))
        = None)
  /\ getClass
       (indexWorkspace workspaceRead workspaceParse primaryIndex
          (["/w/theme.css"] ++ "/w/c.css"
             :: ["/w/card.css"; "/w/gone.css"; "/w/x.css"])) "xyz"
     = Some blueXyz
  /\ getClass
       (rescanFiles workspaceRead workspaceParse primaryIndex
          (["/w/theme.css"] ++ "/w/c.css"
             :: ["/w/card.css"; "/w/gone.css"; "/w/x.css"])) "xyz"
     = Some blueXyz
  /\ sourceFile blueXyz = "/w/c.css".
Proof.
  assert (forall later text,
            In later ["/w/card.css"; "/w/gone.css"; "/w/x.css"] ->
            workspaceRead later = Returned text ->
            lastNamed "xyz" (classes (parseCSS workspaceParse text later))
            = None) as Hafter.
  { intros later text [<- | [<- | [<- | []]]] Hread;
      [reflexivity | discriminate Hread | reflexivity]. }
  split; [exact wellKeyed_primaryIndex|].
  split; [reflexivity|]. split; [reflexivity|]. split; [exact Hafter|].
  exact (scan_last_defining_file_wins workspaceRead workspaceParse
           primaryIndex ["/w/theme.css"]
           ["/w/card.css"; "/w/gone.css"; "/w/x.css"]
           "/w/c.css" "contents of /w/c.css" "xyz" blueXyz
           wellKeyed_primaryIndex eq_refl eq_refl Hafter).
Defined.

(** ** More on search *)

Lemma mapGet_of_In (m : classIndex) (k : string) (c : CSSClass) :
  NoDup (map fst m) -> In (k, c) m -> mapGet m k = Some c.
Proof.
  induction m as [|[k0 v0] m IH]; cbn [map fst In mapGet]; intros Hnd Hin;
    [contradiction|].
  inversion Hnd as [|? ? Hnotin Hrest]; subst.
  destruct Hin as [Heq | Hin].
  - injection Heq as -> ->. rewrite String.eqb_refl. reflexivity.
  - destruct (String.eqb k0 k) eqn:E; [|apply IH; assumption].
    apply string_eqb_true in E. subst k0. exfalso. apply Hnotin.
    apply (in_map fst) in Hin. exact Hin.
Qed.

Lemma wellKeyed_names (idx : classIndex) :
  wellKeyed idx -> map name (getAllClasses idx) = map fst idx.
Proof.
  intros [_ Hkeys]. unfold getAllClasses, mapValues. rewrite map_map.
  apply map_ext_in. intros e He. rewrite Forall_forall in Hkeys.
  symmetry. apply Hkeys, He.
Qed.

Lemma filter_keeps_names_distinct (keep : CSSClass -> bool)
  (cs : list CSSClass) :
  NoDup (map name cs) -> NoDup (map name (filter keep cs)).
Proof.
  induction cs as [|c cs IH]; cbn [map filter]; intros Hnd; [constructor|].
  inversion Hnd as [|? ? Hnotin Hrest]; subst.
  destruct (keep c); cbn [map]; [constructor|]; try (apply IH, Hrest).
  intros Hin. apply Hnotin. apply in_map_iff in Hin.
  destruct Hin as [x [<- Hx]]. apply filter_In in Hx. apply in_map, Hx.
Qed.

Lemma NoDup_firstn {A : Type} (k : nat) (l : list A) :
  NoDup l -> NoDup (firstn k l).
Proof.
  intros H. rewrite <- (firstn_skipn k l) in H.
  eapply NoDup_app_remove_r, H.
Qed.

Lemma ranked_names_NoDup (idx : classIndex) (query : string) :
  wellKeyed idx -> NoDup (map name (ranked idx query)).
Proof.
  intros Hwk.
  assert (NoDup (map name (getAllClasses idx))) as Hall
    by (rewrite wellKeyed_names by exact Hwk; apply Hwk).
  destruct (String.eqb query EmptyString) eqn:E.
  - unfold ranked. rewrite E. exact Hall.
  - assert (query <> EmptyString) as Hq by (intros ->; discriminate).
    eapply Permutation_NoDup.
    + apply Permutation_map, Permutation_sym, ranked_perm, Hq.
    + apply filter_keeps_names_distinct, Hall.
Qed.

(** X5.  On an index with distinct keys a search never offers a name
    twice, and every record it returns is the record that a lookup of
    its name returns. *)
Theorem search_results_are_distinct_lookups (idx : classIndex)
  (query : string) (maxResults : Z) :
  wellKeyed idx ->
  NoDup (map name (searchClasses idx query maxResults))
  /\ (forall c, In c (searchClasses idx query maxResults) ->
        getClass idx (name c) = Some c).
Proof.
  intros Hwk. rewrite searchClasses_ranked. split.
  - destruct (slice0_firstn (ranked idx query) maxResults) as [k ->].
    rewrite <- firstn_map. apply NoDup_firstn, ranked_names_NoDup, Hwk.
  - intros c Hc. apply slice0_In, ranked_In in Hc. destruct Hc as [Hin _].
    unfold getAllClasses, mapValues in Hin. apply in_map_iff in Hin.
    destruct Hin as [[k v] [Hv He]]. cbn [snd] in Hv. subst v.
    destruct Hwk as [Hnd Hkeys]. rewrite Forall_forall in Hkeys.
    pose proof (Hkeys _ He) as Hk. cbn [fst snd] in Hk. subst k.
    apply mapGet_of_In; assumption.
Qed.

Lemma search_results_are_distinct_lookups_witness :
  wellKeyed primaryIndex
  /\ NoDup (map name (searchClasses primaryIndex "pr" 50)).
Proof.
  split; [exact wellKeyed_primaryIndex|].
  apply (search_results_are_distinct_lookups primaryIndex "pr" 50
           wellKeyed_primaryIndex).
Defined.

Lemma filter_map_fst_scored (s : Z) (queryLower : string)
  (l : list scored) :
  Forall (fun e => snd e = calculateMatchScore (name (fst e)) queryLower) l ->
  filter (fun c => calculateMatchScore (name c) queryLower =? s)
    (map fst l)
  = map fst (filter (fun e => snd e =? s) l).
Proof.
  induction 1 as [|e l He Hl IH]; [reflexivity|].
  cbn [map filter]. rewrite <- He, IH.
  destruct (snd e =? s); reflexivity.
Qed.

(** X6.  The tie-break of the ranking: among the matches of a non-empty
    query, the records that share a score come in the order the index
    holds them.  When the limit is at least the size of the index the
    search result itself has this property. *)
Theorem search_ties_keep_index_order (idx : classIndex) (query : string)
  (maxResults : Z) (s : Z) :
  query <> EmptyString ->
  Z.of_nat (List.length idx) <= maxResults ->
  filter (fun c => scoreOf query c =? s)
    (searchClasses idx query maxResults)
  = filter (fun c => ((scoreOf query c =? s) && (0 <? s))%bool)
      (getAllClasses idx).
Proof.
  intros Hq Hlimit.
  assert (searchClasses idx query maxResults = ranked idx query) as ->.
  { rewrite searchClasses_ranked. apply slice0_all.
    rewrite (Permutation_length (ranked_perm idx query Hq)).
    pose proof (filter_length_le (matching query) (getAllClasses idx)).
    unfold getAllClasses, mapValues in *. rewrite length_map in *. lia. }
  unfold ranked.
  destruct (String.eqb query EmptyString) eqn:E;
    [apply string_eqb_true in E; contradiction|].
  set (q := toLowerCase query).
  set (results := flat_map (scoreEntry q) (mapValues idx)).
  assert (Forall (fun e => snd e = calculateMatchScore (name (fst e)) q)
            results) as Hres.
  { unfold results. rewrite scoreEntry_filter. apply Forall_forall.
    intros e He. apply in_map_iff in He. destruct He as [c [<- _]].
    reflexivity. }
  assert (Forall (fun e => snd e = calculateMatchScore (name (fst e)) q)
            (sortByScore results)) as Hsorted.
  { apply Forall_forall. intros e He.
    apply (Permutation_in _ (sortByScore_perm results)) in He.
    rewrite Forall_forall in Hres. apply Hres, He. }
  unfold scoreOf. fold q.
  rewrite (filter_map_fst_scored s q _ Hsorted), sortByScore_stable.
  rewrite <- (filter_map_fst_scored s q _ Hres).
  unfold results. rewrite scoreEntry_filter, map_map. cbn [fst].
  rewrite map_id. unfold getAllClasses.
  generalize (mapValues idx). intros l.
  induction l as [|c l IH]; [reflexivity|]. cbn [filter].
  destruct (calculateMatchScore (name c) q =? s) eqn:Es.
  - assert ((0 <? calculateMatchScore (name c) q) = (0 <? s)) as ->
      by (apply Z.eqb_eq in Es; rewrite Es; reflexivity).
    destruct (0 <? s) eqn:Epos; cbn [filter andb].
    + rewrite Es, IH. reflexivity.
    + exact IH.
  - destruct (0 <? calculateMatchScore (name c) q); cbn [filter andb];
      rewrite ?Es; exact IH.
Qed.

Lemma search_ties_keep_index_order_witness :
  "pri" <> EmptyString /\ Z.of_nat (List.length mixedIndex) <= 50
  /\ map name (getAllClasses mixedIndex)
     = ["xyz"; "Prim-Ary"; "Btn-Primary"; "PrimaryDark"; "Primary"]
  /\ map (scoreOf "pri") (getAllClasses mixedIndex) = [0; 80; 60; 80; 80]
  /\ map name
       (filter (fun c => scoreOf "pri" c =? 80)
          (searchClasses mixedIndex "pri" 50))
     = ["Prim-Ary"; "PrimaryDark"; "Primary"].
Proof.
  assert ("pri" <> EmptyString) as Hq by discriminate.
  assert (Z.of_nat (List.length mixedIndex) <= 50) as Hlen
    by (cbn; lia).
  split; [exact Hq|]. split; [exact Hlen|].
  split; [reflexivity|]. split; [reflexivity|].
  rewrite (search_ties_keep_index_order mixedIndex "pri" 50 80 Hq Hlen).
  reflexivity.
Defined.

(** X7.  What a score tells about the match.  The score is 100, 80, 60
    or at most 40; it is 100 exactly when the lowered name equals the
    query, at least 80 exactly when the lowered name starts with the
    query, and at least 60 exactly when the lowered name contains the
    query.  So any contiguous match outranks every match that is only
    a subsequence. *)
Theorem score_tells_the_tier (className query : string) :
  let n := toLowerCase className in
  let s := calculateMatchScore className query in
  (s = 100 \/ s = 80 \/ s = 60 \/ 0 <= s <= 40)
  /\ (s = 100 <-> n = query)
  /\ (80 <= s <-> IsPrefix query n)
  /\ (60 <= s <-> IsSubstring query n).
Proof.
  intros n s. unfold s, calculateMatchScore. fold n.
  pose proof (fuzzyMatch_range n query) as Hf.
  destruct (String.eqb n query) eqn:Eeq.
  - apply string_eqb_true in Eeq.
    assert (IsPrefix query n) as Hp
      by (exists EmptyString; rewrite Eeq; clear; induction query;
          cbn; congruence).
    assert (IsSubstring query n) as Hs
      by (destruct Hp as [r Hr]; exists EmptyString, r; exact Hr).
    repeat split; auto; lia.
  - assert (n <> query) as Hne
      by (intros H; apply string_eqb_true in H; congruence).
    destruct (startsWith n query) eqn:Epre.
    + apply startsWith_IsPrefix in Epre.
      assert (IsSubstring query n) as Hs
        by (destruct Epre as [r Hr]; exists EmptyString, r; exact Hr).
      repeat split; auto; try lia; intros; congruence.
    + assert (~ IsPrefix query n) as Hnp
        by (intros H; apply startsWith_IsPrefix in H; congruence).
      destruct (includes n query) eqn:Einc.
      * apply includes_IsSubstring in Einc.
        repeat split; auto; try lia; intros; try congruence;
          try contradiction.
      * assert (~ IsSubstring query n) as Hns
          by (intros H; apply includes_IsSubstring in H; congruence).
        repeat split; auto; try lia; intros; try congruence;
          try contradiction.
Qed.

Lemma calculateMatchScore_exact (className query : string) :
  calculateMatchScore className query = 100
  <-> toLowerCase className = query.
Proof.
  unfold calculateMatchScore.
  pose proof (fuzzyMatch_range (toLowerCase className) query) as Hf.
  destruct (String.eqb _ query) eqn:Eeq.
  - apply string_eqb_true in Eeq. tauto.
  - assert (toLowerCase className <> query) as Hne
      by (intros H; apply string_eqb_true in H; congruence).
    destruct (startsWith _ _); [split; [lia | contradiction]|].
    destruct (includes _ _); split; try lia; contradiction.
Qed.

(** X8.  An exact match is offered first: when the query is not empty,
    the limit is positive and some indexed name equals the query up to
    letter case, the first record of the result is such a name. *)
Theorem search_puts_exact_match_first (idx : classIndex) (query : string)
  (maxResults : Z) (d : CSSClass) :
  query <> EmptyString ->
  0 < maxResults ->
  In d (getAllClasses idx) ->
  toLowerCase (name d) = toLowerCase query ->
  exists c rest,
    searchClasses idx query maxResults = c :: rest
    /\ toLowerCase (name c) = toLowerCase query.
Proof.
  intros Hq Hpos Hd Hexact.
  assert (scoreOf query d = 100) as Hscore
    by (apply calculateMatchScore_exact, Hexact).
  assert (In d (ranked idx query)) as Hin.
  { apply (Permutation_in _ (Permutation_sym (ranked_perm idx query Hq))).
    apply filter_In. split; [exact Hd|].
    unfold matching. rewrite Hscore. reflexivity. }
  pose proof (ranked_sorted idx query Hq) as Hsorted.
  rewrite searchClasses_ranked.
  destruct (ranked idx query) as [|c rest] eqn:Er; [destruct Hin|].
  unfold slice0.
  destruct (maxResults <? 0) eqn:E; [apply Z.ltb_lt in E; lia|].
  destruct (Z.to_nat (Z.min maxResults (Z.of_nat (List.length (c :: rest)))))
    as [|k] eqn:Ek; [cbn [List.length] in Ek; lia|].
  cbn [firstn]. exists c, (firstn k rest). split; [reflexivity|].
  apply calculateMatchScore_exact.
  pose proof (calculateMatchScore_range (name c) (toLowerCase query)).
  inversion Hsorted as [|? ? _ Hall]; subst.
  destruct Hin as [-> | Hin]; [exact Hscore|].
  rewrite Forall_forall in Hall. specialize (Hall d Hin).
  unfold scoreOf in *. lia.
Qed.

Lemma search_puts_exact_match_first_witness :
  "PRIMARY" <> EmptyString /\ 0 < 1
  /\ exists c rest,
       searchClasses primaryIndex "PRIMARY" 1 = c :: rest
       /\ toLowerCase (name c) = toLowerCase "PRIMARY".
Proof.
  assert ("PRIMARY" <> EmptyString) as Hq by discriminate.
  assert (0 < 1) as Hpos by lia.
  split; [exact Hq|]. split; [exact Hpos|].
  apply (search_puts_exact_match_first primaryIndex "PRIMARY" 1
           (sampleClass "primary" "/w/b.css") Hq Hpos).
  - right. right. left. reflexivity.
  - reflexivity.
Defined.

(** ** Bounds of the fuzzy score *)

Lemma runningTotal_bounds (trace before : list bool) :
  countMatches trace <= runningTotal before trace
  /\ 2 * runningTotal before trace
     <= 2 * countMatches trace * precedingRun before
        + countMatches trace * (countMatches trace + 1).
Proof.
  revert before; induction trace as [|m trace IH]; intros before;
    cbn [countMatches runningTotal]; [lia|].
  specialize (IH (m :: before)).
  pose proof (precedingRun_nonneg before) as Hrun.
  assert (0 <= countMatches trace) as Hcount.
  { clear. induction trace as [|b t IHt]; cbn [countMatches];
      [lia | destruct b; lia]. }
  destruct m; cbn [precedingRun] in IH; nia.
Qed.

Lemma scanTrace_countMatches (text pattern : string) :
  snd (scanTrace text pattern) = EmptyString ->
  countMatches (fst (scanTrace text pattern))
  = Z.of_nat (String.length pattern).
Proof.
  revert pattern; induction text as [|t text IH]; intros pattern Hrest.
  - destruct pattern; cbn [scanTrace snd] in Hrest; [reflexivity|].
    discriminate.
  - destruct pattern as [|p pattern]; [reflexivity|].
    cbn [scanTrace] in *. destruct (Ascii.eqb t p).
    + specialize (IH pattern).
      destruct (scanTrace text pattern) as [tr rest].
      cbn [fst snd countMatches String.length] in *.
      rewrite IH by exact Hrest. lia.
    + specialize (IH (String p pattern)).
      destruct (scanTrace text (String p pattern)) as [tr rest].
      cbn [fst snd countMatches] in *. rewrite IH by exact Hrest.
      reflexivity.
Qed.

(** X9.  Bounds of the fuzzy score.  When the pattern, of length n, is
    a subsequence of the text the score lies between [min (2n) 40],
    every character counting at least once, and [min (n(n+1)) 40],
    reached when all matches are consecutive.  An empty pattern scores
    0 on every text, although it is consumed at once. *)
Theorem fuzzyMatch_bounds (text pattern : string) :
  Subsequence pattern text ->
  let n := Z.of_nat (String.length pattern) in
  Z.min (2 * n) 40 <= fuzzyMatch text pattern <= Z.min (n * (n + 1)) 40
  /\ fuzzyMatch text EmptyString = 0.
Proof.
  intros Hsub n. split.
  - rewrite fuzzyMatch_fuzzyBySpec. unfold fuzzyBySpec.
    apply scanTrace_consumed in Hsub.
    pose proof (scanTrace_countMatches text pattern Hsub) as Hcount.
    fold n in Hcount.
    destruct (scanTrace text pattern) as [tr rest].
    cbn [fst snd] in *. subst rest.
    pose proof (runningTotal_bounds tr []) as [Hlow Hhigh].
    cbn [precedingRun] in Hhigh. rewrite Hcount in *. lia.
  - destruct text; reflexivity.
Qed.

Lemma fuzzyMatch_bounds_witness :
  Subsequence "btn" "button"
  /\ Z.min (2 * 3) 40 <= fuzzyMatch "button" "btn" <= Z.min (3 * (3 + 1)) 40.
Proof.
  assert (Subsequence "btn" "button") as Hsub
    by (apply scanTrace_consumed; reflexivity).
  split; [exact Hsub|].
  apply (fuzzyMatch_bounds "button" "btn" Hsub).
Defined.

(** ** Names of records *)

Lemma append_assoc_string (a b c : string) :
  ((a ++ b) ++ c = a ++ (b ++ c))%string.
Proof. induction a; cbn; congruence. Qed.

Lemma append_empty_right (a : string) : (a ++ "")%string = a.
Proof. induction a; cbn; congruence. Qed.

Lemma isDot_true (c : ascii) : isDot c = true -> c = "."%char.
Proof. apply ascii_eqb_true. Qed.

Lemma scanStep_stateSuffix (st : scanState) (c : ascii) (pre : string) :
  stateSuffix st pre ->
  stateSuffix (snd (scanStep st c)) (pre ++ String c EmptyString)
  /\ forall t, In t (fst (scanStep st c)) -> exists a, pre = (a ++ t)%string.
Proof.
  assert (stateSuffix (restart c) (pre ++ String c EmptyString)) as Hrestart.
  { unfold restart. destruct (isDot c) eqn:E; [|exact I].
    apply isDot_true in E. subst c. exists pre. reflexivity. }
  intros Hst. destruct st as [| |tok]; cbn [scanStep].
  - split; [exact Hrestart | intros t []].
  - destruct (isIdentStart c); cbn [fst snd].
    + split; [|intros t []]. destruct Hst as [a ->]. exists a.
      rewrite append_assoc_string. reflexivity.
    + split; [exact Hrestart | intros t []].
  - destruct (isIdentChar c); cbn [fst snd].
    + split; [|intros t []]. destruct Hst as [a ->]. exists a.
      rewrite append_assoc_string. reflexivity.
    + split; [exact Hrestart|]. intros t [<- | []]. exact Hst.
Qed.

Lemma scan_substring (s : string) (st : scanState) (pre t : string) :
  stateSuffix st pre -> In t (scan st s) -> IsSubstring t (pre ++ s).
Proof.
  revert st pre; induction s as [|c s IH]; intros st pre Hst Hin.
  - destruct st as [| |tok]; cbn [scan flush] in Hin; try destruct Hin.
    + subst t. destruct Hst as [a ->]. exists a, EmptyString.
      rewrite append_empty_right, append_empty_right. reflexivity.
    + destruct H.
  - rewrite scan_scanStep in Hin. apply in_app_or in Hin.
    destruct (scanStep_stateSuffix st c pre Hst) as [Hnext Hout].
    destruct Hin as [Hin | Hin].
    + destruct (Hout t Hin) as [a ->]. exists a, (String c s).
      rewrite append_assoc_string. reflexivity.
    + specialize (IH _ _ Hnext Hin).
      rewrite append_assoc_string in IH. exact IH.
Qed.

Lemma classMatches_substring (s t : string) :
  In t (classMatches s) -> IsSubstring t s.
Proof.
  intros H. apply (scan_substring s Outside EmptyString t I H).
Qed.

Lemma validToken_identifier (tok : string) :
  validToken tok ->
  tok = String "." (substringFrom 1 tok)
  /\ isIdentifier (substringFrom 1 tok) = true.
Proof.
  unfold validToken. intros H. apply andb_true_iff in H.
  destruct H as [_ H]. destruct tok as [|d [|c rest]]; try discriminate.
  cbn [isValidClassName] in H. apply andb_true_iff in H.
  destruct H as [H Hrest]. apply andb_true_iff in H. destruct H as [Hd Hc].
  apply isDot_true in Hd. subst d. cbn [substringFrom isIdentifier].
  rewrite Hc, Hrest. split; reflexivity.
Qed.

Lemma extracted_name (root : Root) (filePath : string) (c : CSSClass) :
  In c (extractClassesFromAST root filePath) ->
  isIdentifier (name c) = true
  /\ IsSubstring (String "." (name c)) (selector c).
Proof.
  rewrite extractClassesFromAST_rules. intros Hin.
  apply in_flat_map in Hin.
  destruct Hin as [[prev [rsel source ns|a p ns|p v|t]] [_ Hc]];
    cbn [recordsOfRule fst snd] in Hc; try destruct Hc.
  rewrite classesOfRule_tokens in Hc.
  destruct (0 <? _); [|destruct Hc].
  apply in_map_iff in Hc. destruct Hc as [tok [<- Htok]].
  cbn [recordOfToken name selector].
  pose proof (classMatches_valid rsel) as Hvalid.
  rewrite Forall_forall in Hvalid.
  destruct (validToken_identifier tok (Hvalid tok Htok)) as [Heq Hid].
  split; [exact Hid|]. rewrite <- Heq.
  apply classMatches_substring, Htok.
Qed.

(** X10.  Every extracted record is named by an identifier, a letter or
    underscore followed by letters, digits, underscores and hyphens,
    and the name with its dot occurs literally in the selector text the
    record carries.  In every state of the index each key is the name
    of its record and has this shape. *)
Theorem record_names_are_identifiers_of_the_selector :
  (forall root filePath c,
     In c (extractClassesFromAST root filePath) ->
     isIdentifier (name c) = true
     /\ IsSubstring (String "." (name c)) (selector c))
  /\ (forall idx, reachable idx ->
        forall k c, In (k, c) idx ->
          k = name c /\ isIdentifier k = true
          /\ IsSubstring (String "." k) (selector c)).
Proof.
  split; [exact extracted_name|].
  intros idx Hreach k c Hin.
  pose proof (reachable_Forall
                (fun e => fst e = name (snd e)
                          /\ isIdentifier (name (snd e)) = true
                          /\ IsSubstring (String "." (name (snd e)))
                               (selector (snd e)))) as H.
  assert (Forall (fun e => fst e = name (snd e)
                          /\ isIdentifier (name (snd e)) = true
                          /\ IsSubstring (String "." (name (snd e)))
                               (selector (snd e))) idx) as Hall.
  { apply H; [|exact Hreach]. intros root filePath c' Hc'. cbn [fst snd].
    split; [reflexivity|]. eapply extracted_name, Hc'. }
  rewrite Forall_forall in Hall. specialize (Hall _ Hin).
  cbn [fst snd] in Hall. destruct Hall as (-> & Hid & Hsub). auto.
Qed.

(** ** The property map of a rule *)

Lemma objGet_assign (o : object) (k v k' : string) :
  objGet (assign o k v) k'
  = if String.eqb k k' then Some v else objGet o k'.
Proof.
  induction o as [|[k0 v0] o IH]; cbn [assign objGet].
  - destruct (String.eqb k k'); reflexivity.
  - destruct (String.eqb k0 k) eqn:E; cbn [objGet].
    + apply string_eqb_true in E. subst k0.
      destruct (String.eqb k k'); reflexivity.
    + rewrite IH. destruct (String.eqb k0 k') eqn:E'; [|reflexivity].
      apply string_eqb_true in E'. subst k0. rewrite String.eqb_sym, E.
      reflexivity.
Qed.

Lemma keys_assign_In (o : object) (k v k' : string) :
  In k' (keys (assign o k v)) <-> k' = k \/ In k' (keys o).
Proof.
  unfold keys. induction o as [|[k0 v0] o IH]; cbn [assign map fst In].
  - intuition congruence.
  - destruct (String.eqb k0 k) eqn:E; cbn [map fst In].
    + apply string_eqb_true in E. subst k0. intuition congruence.
    + rewrite IH. intuition congruence.
Qed.

Lemma keys_assign_NoDup (o : object) (k v : string) :
  NoDup (keys o) -> NoDup (keys (assign o k v)).
Proof.
  induction o as [|[k0 v0] o IH]; intros Hnd.
  - repeat constructor. intros [].
  - cbn [assign]. unfold keys in Hnd. cbn [map fst] in Hnd.
    inversion Hnd as [|? ? Hnotin Hrest]; subst.
    destruct (String.eqb k0 k) eqn:E.
    + apply string_eqb_true in E. subst k0. unfold keys. cbn [map fst].
      constructor; assumption.
    + unfold keys. cbn [map fst]. constructor; [|apply IH, Hrest].
      fold (keys (assign o k v)). rewrite keys_assign_In.
      intros [-> | Hin]; [|contradiction].
      rewrite String.eqb_refl in E. discriminate.
Qed.

Lemma collect_from (decls : list (string * string)) (o : object) :
  let o' := fold_left (fun o d => objSet o (fst d) (snd d)) decls o in
  (forall k, k <> "__proto__" ->
     objGet o' k
     = match lastValue k decls with
       | Some v => Some v
       | None => objGet o k
       end)
  /\ (forall k, In k (keys o') <->
        In k (keys o)
        \/ (k <> "__proto__" /\ exists v, In (k, v) decls))
  /\ (NoDup (keys o) -> NoDup (keys o')).
Proof.
  revert o. induction decls as [|[p v] decls IH]; intros o; cbn zeta.
  - cbn [fold_left]. split; [|split].
    + intros k _. reflexivity.
    + intros k. split; [auto | intros [H | [_ [v []]]]; exact H].
    + auto.
  - cbn [fold_left fst snd].
    specialize (IH (objSet o p v)). cbn zeta in IH.
    destruct IH as (Hget & Hkeys & Hnd).
    assert (forall k, lastValue k ((p, v) :: decls)
                      = match lastValue k decls with
                        | Some x => Some x
                        | None => if String.eqb p k then Some v else None
                        end) as Hlast.
    { intros k. unfold lastValue. cbn [rev]. rewrite find_snoc.
      destruct (find _ (rev decls)); [reflexivity|]. cbn [fst].
      destruct (String.eqb p k); reflexivity. }
    split; [|split].
    + intros k Hk. rewrite (Hget k Hk), Hlast.
      destruct (lastValue k decls); [reflexivity|].
      unfold objSet. destruct (String.eqb p "__proto__") eqn:Ep.
      * apply string_eqb_true in Ep. subst p.
        assert (String.eqb "__proto__" k = false) as ->
          by (apply String.eqb_neq; congruence).
        reflexivity.
      * rewrite objGet_assign. destruct (String.eqb p k); reflexivity.
    + intros k. rewrite Hkeys. unfold objSet.
      destruct (String.eqb p "__proto__") eqn:Ep.
      * apply string_eqb_true in Ep. subst p. split.
        -- intros [H | [Hk [x Hx]]]; [left; exact H|].
           right. split; [exact Hk|]. exists x. right. exact Hx.
        -- intros [H | [Hk [x [Hx | Hx]]]]; [left; exact H| |].
           ++ injection Hx as <- _. contradiction.
           ++ right. split; [exact Hk|]. exists x. exact Hx.
      * apply String.eqb_neq in Ep. rewrite keys_assign_In. split.
        -- intros [[-> | H] | [Hk [x Hx]]].
           ++ right. split; [exact Ep|]. exists v. left. reflexivity.
           ++ left. exact H.
           ++ right. split; [exact Hk|]. exists x. right. exact Hx.
        -- intros [H | [Hk [x [Hx | Hx]]]].
           ++ left. right. exact H.
           ++ injection Hx as <- _. left. left. reflexivity.
           ++ right. split; [exact Hk|]. exists x. exact Hx.
    + intros Ho. apply Hnd. unfold objSet.
      destruct (String.eqb p "__proto__"); [exact Ho|].
      apply keys_assign_NoDup, Ho.
Qed.

Lemma collectProperties_keys (decls : list (string * string)) (k : string) :
  In k (keys (collectProperties decls)) <->
  k <> "__proto__" /\ exists v, In (k, v) decls.
Proof.
  destruct (collect_from decls []) as (_ & Hkeys & _).
  fold (collectProperties decls) in Hkeys.
  rewrite Hkeys. split; [intros [[] | H]; exact H | auto].
Qed.

(** X11.  The property map collected from declarations: a property
    declared several times has the value of its last declaration, every
    declared property other than [__proto__] is a key and nothing else
    is, each key occurs once, and [__proto__] is never a key. *)
Theorem collectProperties_last_declaration_wins
  (decls : list (string * string)) :
  (forall k, k <> "__proto__" ->
     objGet (collectProperties decls) k = lastValue k decls)
  /\ (forall k, In k (keys (collectProperties decls)) <->
        k <> "__proto__" /\ exists v, In (k, v) decls)
  /\ NoDup (keys (collectProperties decls))
  /\ ~ In "__proto__" (keys (collectProperties decls)).
Proof.
  destruct (collect_from decls []) as (Hget & Hkeys & Hnd).
  fold (collectProperties decls) in Hget, Hkeys, Hnd.
  split; [|split; [|split]].
  - intros k Hk. rewrite (Hget k Hk).
    destruct (lastValue k decls); reflexivity.
  - intros k. rewrite Hkeys. split; [intros [[] | H]; exact H | auto].
  - apply Hnd. constructor.
  - intros H. apply Hkeys in H. destruct H as [[] | [H _]]. congruence.
Qed.

Lemma collectProperties_last_declaration_wins_witness :
  "color" <> "__proto__"
  /\ objGet
       (collectProperties
          [("color", "red"); ("margin", "0"); ("color", "blue")]) "color"
     = lastValue "color"
         [("color", "red"); ("margin", "0"); ("color", "blue")].
Proof.
  assert ("color" <> "__proto__") as Hk by discriminate.
  split; [exact Hk|].
  apply (proj1 (collectProperties_last_declaration_wins
                  [("color", "red"); ("margin", "0"); ("color", "blue")])
           "color" Hk).
Defined.

(** X12.  The property map of a rule takes in the declarations of
    everything nested in it: every key of the property map of a node
    inside a rule, a nested rule or an at-rule block, is a key of the
    property map of the enclosing rule. *)
Theorem rule_properties_include_nested (rsel : string)
  (source : option Source) (ns : list Node) (child : Node) (k : string) :
  In child ns ->
  In k (keys (ruleProperties child)) ->
  In k (keys (ruleProperties (Rule rsel source ns))).
Proof.
  intros Hchild Hk. unfold ruleProperties in *.
  apply collectProperties_keys in Hk. apply collectProperties_keys.
  destruct Hk as [Hne [v Hv]]. split; [exact Hne|]. exists v.
  cbn [walkDecls]. apply in_flat_map. exists child. auto.
Qed.

Lemma rule_properties_include_nested_witness :
  In (Rule "&:hover" None [Declaration "color" "blue"])
    [Declaration "margin" "0";
     Rule "&:hover" None [Declaration "color" "blue"]]
  /\ In "color"
       (keys (ruleProperties
                (Rule ".btn" None
                   [Declaration "margin" "0";
                    Rule "&:hover" None [Declaration "color" "blue"]]))).
Proof.
  assert (In (Rule "&:hover" None [Declaration "color" "blue"])
            [Declaration "margin" "0";
             Rule "&:hover" None [Declaration "color" "blue"]]) as Hin
    by (right; left; reflexivity).
  split; [exact Hin|].
  apply (rule_properties_include_nested ".btn" None _ _ "color" Hin).
  left. reflexivity.
Defined.

(** ** Categories and descriptions of stored records *)

Lemma inferCategory_label (className : string) (props : object) :
  In (inferCategory className props) categoryLabels.
Proof.
  unfold inferCategory, categoryLabels.
  repeat match goal with
         | |- context [if ?b then _ else _] => destruct b
         end; cbn [In]; tauto.
Qed.

(** X13.  Every record carries a category, and it is one of the eight
    labels: this holds of every extracted record and of every record of
    the index in every state, so the presentation by category never
    meets a missing or unknown label.  The label is the one inferred
    from the record's own name and property map. *)
Theorem stored_category_is_a_known_label :
  (forall root filePath c,
     In c (extractClassesFromAST root filePath) ->
     category c = Some (inferCategory (name c) (properties c))
     /\ In (inferCategory (name c) (properties c)) categoryLabels)
  /\ (forall idx, reachable idx ->
        forall c, In c (getAllClasses idx) ->
          exists label, category c = Some label /\ In label categoryLabels).
Proof.
  assert (forall root filePath c,
            In c (extractClassesFromAST root filePath) ->
            category c = Some (inferCategory (name c) (properties c)))
    as Hcat.
  { intros root filePath c. rewrite extractClassesFromAST_rules.
    intros Hin. apply in_flat_map in Hin.
    destruct Hin as [[prev [rsel source ns|a p ns|p v|t]] [_ Hc]];
      cbn [recordsOfRule fst snd] in Hc; try destruct Hc.
    rewrite classesOfRule_tokens in Hc.
    destruct (0 <? _); [|destruct Hc].
    apply in_map_iff in Hc. destruct Hc as [tok [<- _]]. reflexivity. }
  split.
  - intros root filePath c Hc. split; [eapply Hcat, Hc|].
    apply inferCategory_label.
  - intros idx Hreach c Hc.
    pose proof (reachable_Forall
                  (fun e => exists label, category (snd e) = Some label
                                          /\ In label categoryLabels)) as H.
    unfold getAllClasses, mapValues in Hc. apply in_map_iff in Hc.
    destruct Hc as [e [<- He]].
    assert (Forall (fun e => exists label, category (snd e) = Some label
                                           /\ In label categoryLabels) idx)
      as Hall.
    { apply H; [|exact Hreach]. intros root filePath c' Hc'. cbn [snd].
      eexists. split; [eapply Hcat, Hc' | apply inferCategory_label]. }
    rewrite Forall_forall in Hall. apply Hall, He.
Qed.

Lemma trimEnd_head (c : ascii) (r : string) :
  isWhiteSpace c = false -> exists r', trimEnd (String c r) = String c r'.
Proof.
  intros Hc. cbn [trimEnd]. rewrite Hc.
  destruct (trimEnd r); eauto.
Qed.

Lemma trimEnd_idempotent (s : string) : trimEnd (trimEnd s) = trimEnd s.
Proof.
  induction s as [|c s IH]; [reflexivity|]. cbn [trimEnd].
  destruct (trimEnd s) as [|r0 r] eqn:Er.
  - destruct (isWhiteSpace c) eqn:Ec; [reflexivity|].
    cbn [trimEnd]. rewrite Ec. reflexivity.
  - cbn [trimEnd] in *. rewrite IH. reflexivity.
Qed.

Lemma trimStart_head (s : string) :
  trimStart s = EmptyString
  \/ exists c r, trimStart s = String c r /\ isWhiteSpace c = false.
Proof.
  induction s as [|c s IH]; cbn [trimStart]; [left; reflexivity|].
  destruct (isWhiteSpace c) eqn:Ec; [exact IH|]. right. eauto.
Qed.

Lemma trim_idempotent (s : string) : trim (trim s) = trim s.
Proof.
  unfold trim. destruct (trimStart_head s) as [-> | [c [r [-> Hc]]]];
    [reflexivity|].
  destruct (trimEnd_head c r Hc) as [r' Hr']. rewrite Hr'.
  cbn [trimStart]. rewrite Hc, <- Hr'. apply trimEnd_idempotent.
Qed.

Lemma extractDescription_trimmed (prev : option Node) (d : string) :
  extractDescription prev = Some d -> trim d = d.
Proof.
  unfold extractDescription.
  destruct prev as [[rsel source ns|a p ns|p v|text]|]; try discriminate.
  destruct (descriptionMatch (trim text)) as [g|].
  - intros H. injection H as <-. apply trim_idempotent.
  - destruct (_ && _)%bool; [|discriminate].
    intros H. injection H as <-. apply trim_idempotent.
Qed.

(** X14.  A description kept on a record is never empty and has no
    white space at either end: trimming it changes nothing.  This holds
    of every extracted record and of every record of the index in every
    state. *)
Theorem stored_description_is_trimmed_text :
  (forall root filePath c d,
     In c (extractClassesFromAST root filePath) ->
     description c = Some d ->
     d <> EmptyString /\ trim d = d)
  /\ (forall idx, reachable idx ->
        forall c d, In c (getAllClasses idx) -> description c = Some d ->
          d <> EmptyString /\ trim d = d).
Proof.
  assert (forall root filePath c d,
            In c (extractClassesFromAST root filePath) ->
            description c = Some d ->
            d <> EmptyString /\ trim d = d) as Hdesc.
  { intros root filePath c d. rewrite extractClassesFromAST_rules.
    intros Hin. apply in_flat_map in Hin.
    destruct Hin as [[prev [rsel source ns|a p ns|p v|t]] [_ Hc]];
      cbn [recordsOfRule fst snd] in Hc; try destruct Hc.
    rewrite classesOfRule_tokens in Hc.
    destruct (0 <? _); [|destruct Hc].
    apply in_map_iff in Hc. destruct Hc as [tok [<- _]].
    cbn [recordOfToken description]. unfold optionalField.
    destruct (extractDescription prev) as [[|a0 x]|] eqn:E;
      try discriminate.
    intros H. injection H as <-. split; [discriminate|].
    eapply extractDescription_trimmed, E. }
  split; [exact Hdesc|].
  intros idx Hreach c d Hc.
  pose proof (reachable_Forall
                (fun e => forall d, description (snd e) = Some d ->
                                    d <> EmptyString /\ trim d = d)) as H.
  unfold getAllClasses, mapValues in Hc. apply in_map_iff in Hc.
  destruct Hc as [e [<- He]].
  assert (Forall (fun e => forall d, description (snd e) = Some d ->
                                     d <> EmptyString /\ trim d = d) idx)
    as Hall.
  { apply H; [|exact Hreach]. intros root filePath c' Hc' d'. cbn [snd].
    eapply Hdesc, Hc'. }
  rewrite Forall_forall in Hall. apply (Hall _ He).
Qed.

Lemma stored_description_is_trimmed_text_witness :
  In (recordOfToken "/w/card.css" (Some (Comment " helper ")) cardRule
        ".card")
    (extractClassesFromAST cardSheet "/w/card.css")
  /\ description
       (recordOfToken "/w/card.css" (Some (Comment " helper ")) cardRule
          ".card")
     = Some "helper"
  /\ trim "helper" = "helper".
Proof.
  assert (In (recordOfToken "/w/card.css" (Some (Comment " helper "))
                cardRule ".card")
            (extractClassesFromAST cardSheet "/w/card.css")) as Hin
    by (left; reflexivity).
  split; [exact Hin|]. split; [reflexivity|].
  apply (proj1 stored_description_is_trimmed_text cardSheet "/w/card.css"
           _ "helper" Hin eq_refl).
Defined.

(** ** Letter case *)

Lemma lowerChar_idempotent (c : ascii) : lowerChar (lowerChar c) = lowerChar c.
Proof.
  destruct c as [[] [] [] [] [] [] [] []]; reflexivity.
Qed.

Lemma toLowerCase_idempotent (s : string) :
  toLowerCase (toLowerCase s) = toLowerCase s.
Proof.
  induction s as [|c s IH]; cbn [toLowerCase]; [reflexivity|].
  rewrite lowerChar_idempotent, IH. reflexivity.
Qed.

Lemma toLowerCase_is_empty (s : string) :
  String.eqb (toLowerCase s) EmptyString = String.eqb s EmptyString.
Proof. destruct s; reflexivity. Qed.

(** X15.  Letter case does not matter.  Two queries that lower to the
    same string give the same search result, so a query and its lowered
    form do; the score of a name is that of its lowered form, and so is
    its category. *)
Theorem letter_case_does_not_matter :
  (forall idx query query' maxResults,
     toLowerCase query = toLowerCase query' ->
     searchClasses idx query maxResults = searchClasses idx query' maxResults)
  /\ (forall idx query maxResults,
        searchClasses idx (toLowerCase query) maxResults
        = searchClasses idx query maxResults)
  /\ (forall className query,
        calculateMatchScore (toLowerCase className) query
        = calculateMatchScore className query)
  /\ (forall className props,
        inferCategory (toLowerCase className) props
        = inferCategory className props).
Proof.
  assert (forall idx query query' maxResults,
            toLowerCase query = toLowerCase query' ->
            searchClasses idx query maxResults
            = searchClasses idx query' maxResults) as Hsame.
  { intros idx query query' maxResults H. unfold searchClasses.
    rewrite <- (toLowerCase_is_empty query),
            <- (toLowerCase_is_empty query'), H.
    reflexivity. }
  split; [exact Hsame|]. split.
  - intros idx query maxResults. apply Hsame, toLowerCase_idempotent.
  - split.
    + intros className query. unfold calculateMatchScore.
      rewrite toLowerCase_idempotent. reflexivity.
    + intros className props. unfold inferCategory.
      rewrite toLowerCase_idempotent. reflexivity.
Qed.

Lemma letter_case_does_not_matter_witness :
  toLowerCase "BTN" = toLowerCase "btn"
  /\ searchClasses primaryIndex "BTN" 50 = searchClasses primaryIndex "btn" 50.
Proof.
  split; [reflexivity|].
  apply (proj1 letter_case_does_not_matter primaryIndex "BTN" "btn" 50).
  reflexivity.
Defined.

(** ** Statistics *)

Lemma existsb_eqb_In (x : string) (s : list string) :
  existsb (String.eqb x) s = true <-> In x s.
Proof.
  rewrite existsb_exists. split.
  - intros [y [Hy Heq]]. apply string_eqb_true in Heq. subst y. exact Hy.
  - intros H. exists x. split; [exact H | apply String.eqb_refl].
Qed.

Lemma setAdd_In (s : list string) (x y : string) :
  In y (setAdd s x) <-> y = x \/ In y s.
Proof.
  unfold setAdd. destruct (existsb (String.eqb x) s) eqn:E.
  - apply existsb_eqb_In in E. split; [auto | intros [-> | H]; auto].
  - rewrite in_app_iff. cbn [In]. intuition congruence.
Qed.

Lemma setAdd_NoDup (s : list string) (x : string) :
  NoDup s -> NoDup (setAdd s x).
Proof.
  intros Hnd. unfold setAdd. destruct (existsb (String.eqb x) s) eqn:E;
    [exact Hnd|].
  apply NoDup_app; [exact Hnd | repeat constructor; intros [] |].
  intros y Hy [<- | []].
  apply existsb_eqb_In in Hy. congruence.
Qed.

Lemma fold_setAdd (values s : list string) :
  NoDup s ->
  NoDup (fold_left setAdd values s)
  /\ (forall y, In y (fold_left setAdd values s) <-> In y s \/ In y values)
  /\ (List.length s <= List.length (fold_left setAdd values s)
      <= List.length s + List.length values)%nat.
Proof.
  revert s. induction values as [|x values IH]; intros s Hs;
    cbn [fold_left].
  - split; [exact Hs|]. split; [|lia].
    intros y. cbn [In]. tauto.
  - destruct (IH (setAdd s x) (setAdd_NoDup s x Hs)) as (Hnd & Hin & Hlen).
    split; [exact Hnd|]. split.
    + intros y. rewrite Hin, setAdd_In. cbn [In]. intuition congruence.
    + assert (List.length s <= List.length (setAdd s x)
              <= S (List.length s))%nat as Hadd.
      { unfold setAdd. destruct (existsb _ s); [lia|].
        rewrite length_app. cbn [List.length]. lia. }
      cbn [List.length]. lia.
Qed.

Lemma setAdd_filter (p : string -> bool) (s : list string) (x : string) :
  filter p (setAdd s x)
  = if p x then setAdd (filter p s) x else filter p s.
Proof.
  unfold setAdd. destruct (existsb (String.eqb x) s) eqn:E.
  - destruct (p x) eqn:Ep; [|reflexivity].
    assert (existsb (String.eqb x) (filter p s) = true) as ->;
      [|reflexivity].
    apply existsb_eqb_In, filter_In. split; [|exact Ep].
    apply existsb_eqb_In, E.
  - rewrite filter_app. cbn [filter]. destruct (p x) eqn:Ep.
    + assert (existsb (String.eqb x) (filter p s) = false) as ->;
        [|reflexivity].
      apply not_true_iff_false. intros H. apply existsb_eqb_In in H.
      apply filter_In in H. destruct H as [H _].
      apply existsb_eqb_In in H. congruence.
    + apply app_nil_r.
Qed.

Lemma newSet_filter (p : string -> bool) (values : list string) :
  newSet (filter p values) = filter p (newSet values).
Proof.
  unfold newSet. change (@nil string) with (filter p []) at 1.
  generalize (@nil string).
  induction values as [|x values IH]; intros s; [reflexivity|].
  cbn [filter fold_left]. rewrite <- IH, setAdd_filter.
  destruct (p x); reflexivity.
Qed.

Lemma filter_out_length (f : string) (l : list string) :
  NoDup l ->
  Z.of_nat (List.length
              (filter (fun x => negb (String.eqb x f)) l))
  = Z.of_nat (List.length l) - (if existsb (String.eqb f) l then 1 else 0).
Proof.
  induction l as [|x l IH]; intros Hnd; [reflexivity|].
  inversion Hnd as [|? ? Hnotin Hrest]; subst.
  cbn [filter existsb]. rewrite (String.eqb_sym f x).
  destruct (String.eqb x f) eqn:E; cbn [negb orb List.length].
  - apply string_eqb_true in E. subst x.
    assert (existsb (String.eqb f) l = false) as Hex
      by (apply not_true_iff_false; intros H;
          apply existsb_eqb_In in H; contradiction).
    rewrite (IH Hrest), Hex. lia.
  - rewrite Nat2Z.inj_succ, (IH Hrest).
    destruct (existsb (String.eqb f) l); lia.
Qed.

(** X16.  The statistics.  [fileCount] is the number of distinct source
    files among the stored records: it is at most [classCount], not
    negative, and zero exactly when the index is empty, as it is after
    [clearCache].  A file whose classes were all removed, or that gave
    none, is not counted. *)
Theorem statistics_count_distinct_files (idx : classIndex) (now : Z) :
  let stats := getStatistics idx now in
  let files := newSet (map sourceFile (getAllClasses idx)) in
  fileCount stats = Z.of_nat (List.length files)
  /\ NoDup files
  /\ (forall f, In f files <->
        exists c, In c (getAllClasses idx) /\ sourceFile c = f)
  /\ classCount stats = Z.of_nat (List.length (getAllClasses idx))
  /\ 0 <= fileCount stats <= classCount stats
  /\ (fileCount stats = 0 <-> idx = [])
  /\ fileCount (getStatistics (clearCache idx) now) = 0
  /\ classCount (getStatistics (clearCache idx) now) = 0.
Proof.
  intros stats files.
  destruct (fold_setAdd (map sourceFile (getAllClasses idx)) []
              (NoDup_nil _)) as (Hnd & Hin & Hlen).
  fold (newSet (map sourceFile (getAllClasses idx))) in Hnd, Hin, Hlen.
  fold files in Hnd, Hin, Hlen.
  assert (List.length (getAllClasses idx) = List.length idx) as Hsize
    by (unfold getAllClasses, mapValues; apply length_map).
  rewrite length_map, Hsize in Hlen. cbn [List.length] in Hlen.
  split; [reflexivity|]. split; [exact Hnd|]. split.
  { intros f. rewrite Hin, in_map_iff. cbn [In].
    split; [intros [[] | [c [Hc Hin']]]; eauto
           | intros [c [Hc <-]]; right; eauto]. }
  split; [cbn [classCount stats getStatistics]; rewrite Hsize; reflexivity|].
  change (fileCount stats) with (Z.of_nat (List.length files)).
  change (classCount stats) with (Z.of_nat (List.length idx)).
  split; [lia|]. split; [|split; reflexivity].
  split.
  - intros Hzero. destruct idx as [|[k c] idx']; [reflexivity|].
    exfalso.
    assert (In (sourceFile c) files) as Hc
      by (apply Hin; right; left; reflexivity).
    destruct files; [destruct Hc | cbn [List.length] in Hzero; lia].
  - intros Hidx. unfold files. rewrite Hidx. reflexivity.
Qed.

(** X17.  What removing a file does to the statistics, on an index with
    distinct keys: [classCount] falls by the number of records of the
    file, and [fileCount] falls by exactly one when the file had
    records and stays as it was when it had none. *)
Theorem statistics_after_removing_a_file (idx : classIndex)
  (filePath : string) (now later : Z) :
  wellKeyed idx ->
  let before := getStatistics idx now in
  let after := getStatistics (removeClassesFromFile idx filePath) later in
  let gone :=
    filter (fun c => String.eqb (sourceFile c) filePath)
      (getAllClasses idx) in
  classCount after = classCount before - Z.of_nat (List.length gone)
  /\ fileCount after
     = fileCount before - (if Nat.eqb (List.length gone) 0 then 0 else 1).
Proof.
  intros [Hnd _] before after gone.
  unfold after, before, getStatistics. cbn [classCount fileCount].
  rewrite (removeClassesFromFile_filter _ _ Hnd).
  assert (map sourceFile (mapValues (filter (fromOtherFile filePath) idx))
          = filter (fun x => negb (String.eqb x filePath))
              (map sourceFile (mapValues idx))) as Hfiles.
  { unfold mapValues, fromOtherFile. clear.
    induction idx as [|e idx IH]; [reflexivity|]. cbn [filter map].
    destruct (String.eqb (sourceFile (snd e)) filePath); cbn [negb map];
      rewrite IH; reflexivity. }
  assert (List.length gone
          = List.length (filter (fun e => negb (fromOtherFile filePath e))
                           idx)) as Hgone.
  { unfold gone, getAllClasses, mapValues, fromOtherFile. clear.
    induction idx as [|e idx IH]; [reflexivity|]. cbn [filter map].
    rewrite negb_involutive.
    destruct (String.eqb (sourceFile (snd e)) filePath);
      cbn [List.length]; rewrite IH; reflexivity. }
  split.
  - pose proof (filter_length (fromOtherFile filePath) idx) as Hlen.
    rewrite Hgone. lia.
  - rewrite Hfiles, newSet_filter.
    destruct (fold_setAdd (map sourceFile (mapValues idx)) []
                (NoDup_nil _)) as (Hset & Hin & _).
    fold (newSet (map sourceFile (mapValues idx))) in Hset, Hin.
    rewrite (filter_out_length _ _ Hset). f_equal.
    destruct (existsb (String.eqb filePath) (newSet _)) eqn:Ex.
    + apply existsb_eqb_In, Hin in Ex. destruct Ex as [[] | Ex].
      apply in_map_iff in Ex. destruct Ex as [c [Hc Hcin]].
      assert (In c gone) as Hg.
      { apply filter_In. split; [exact Hcin|].
        apply string_eqb_true, Hc. }
      destruct gone; [destruct Hg | reflexivity].
    + destruct gone as [|c gone'] eqn:Eg; [reflexivity|]. exfalso.
      assert (In c (c :: gone')) as Hc by (left; reflexivity).
      rewrite <- Eg in Hc. apply filter_In in Hc. destruct Hc as [Hc Hsrc].
      apply string_eqb_true in Hsrc.
      apply not_true_iff_false in Ex. apply Ex.
      apply existsb_eqb_In, Hin. right. rewrite <- Hsrc.
      apply in_map, Hc.
Qed.

Lemma statistics_after_removing_a_file_witness :
  wellKeyed primaryIndex
  /\ fileCount (getStatistics primaryIndex 0) = 2
  /\ fileCount
       (getStatistics (removeClassesFromFile primaryIndex "/w/a.css") 1)
     = 2 - 1.
Proof.
  split; [exact wellKeyed_primaryIndex|]. split; [reflexivity|].
  rewrite (proj2 (statistics_after_removing_a_file primaryIndex "/w/a.css"
                    0 1 wellKeyed_primaryIndex)).
  reflexivity.
Defined.

(** ** The word around the cursor *)

Lemma get_in_range (s : string) (i : nat) :
  (i < String.length s)%nat -> exists c, String.get i s = Some c.
Proof.
  revert i; induction s as [|a s IH]; intros i Hi; cbn [String.length] in Hi;
    [lia|].
  destruct i as [|i]; cbn [String.get]; [eauto|]. apply IH. lia.
Qed.

Lemma expandStart_spec (s : string) (n : nat) :
  (expandStart s n <= n)%nat
  /\ (forall i, (expandStart s n <= i < n)%nat ->
        isClassNameChar (String.get i s) = true)
  /\ (expandStart s n = O
      \/ isClassNameChar (String.get (expandStart s n - 1) s) = false).
Proof.
  induction n as [|n IH]; cbn [expandStart].
  - split; [lia|]. split; [intros i Hi; lia | left; reflexivity].
  - destruct (isClassNameChar (String.get n s)) eqn:E.
    + destruct IH as (Hle & Hrun & Hstop). split; [lia|].
      split; [|exact Hstop].
      intros i Hi. destruct (Nat.eq_dec i n) as [-> | Hne]; [exact E|].
      apply Hrun. lia.
    + split; [lia|]. split; [intros i Hi; lia|]. right.
      cbn [Nat.sub]. rewrite Nat.sub_0_r. exact E.
Qed.

Lemma expandEnd_spec (s : string) (fuel e : nat) :
  (e <= expandEnd s fuel e <= e + fuel)%nat
  /\ (forall i, (e <= i < expandEnd s fuel e)%nat ->
        (i < String.length s)%nat
        /\ isClassNameChar (String.get i s) = true)
  /\ ((String.length s <= e + fuel)%nat ->
      (e <= String.length s)%nat ->
      (expandEnd s fuel e = String.length s
       \/ ((expandEnd s fuel e < String.length s)%nat
           /\ isClassNameChar (String.get (expandEnd s fuel e) s) = false))).
Proof.
  revert e; induction fuel as [|fuel IH]; intros e; cbn [expandEnd].
  - split; [lia|]. split; [intros i Hi; lia|].
    intros H1 H2. left. lia.
  - destruct (Nat.ltb e (String.length s)) eqn:El; cbn [andb].
    + apply Nat.ltb_lt in El.
      destruct (isClassNameChar (String.get e s)) eqn:E.
      * destruct (IH (S e)) as (Hle & Hrun & Hstop).
        split; [lia|]. split.
        -- intros i Hi. destruct (Nat.eq_dec i e) as [-> | Hne]; [auto|].
           apply Hrun. lia.
        -- intros H1 H2. apply Hstop; lia.
      * split; [lia|]. split; [intros i Hi; lia|].
        intros _ _. right. auto.
    + apply Nat.ltb_ge in El. split; [lia|]. split; [intros i Hi; lia|].
      intros _ H2. left. lia.
Qed.

Lemma substring_allIdentChars (s : string) (a n : nat) :
  (forall i c, (a <= i < a + n)%nat -> String.get i s = Some c ->
     isIdentChar c = true) ->
  allIdentChars (String.substring a n s) = true.
Proof.
  revert a n; induction s as [|x s IH]; intros a n H.
  - destruct a, n; reflexivity.
  - destruct a as [|a].
    + destruct n as [|n]; [reflexivity|]. cbn [String.substring allIdentChars].
      rewrite (H O x) by (cbn; auto; lia). cbn [andb].
      apply IH. intros i c Hi Hget. apply (H (S i) c); [lia | exact Hget].
    + cbn [String.substring]. apply IH. intros i c Hi Hget.
      apply (H (S i) c); [lia | exact Hget].
Qed.

(** X18.  The completion query is the longest run of class-name
    characters around the cursor.  For a cursor inside the line, the
    range found starts at or before the cursor and ends at or after
    it, inside the line; every character in the range is a class-name
    character; the character before the range, if any, and the one
    after it, if any, are not.  The query is the text of the range, so
    it holds class-name characters only. *)
Theorem completion_query_is_the_word_at_the_cursor (lineText : string)
  (cursorPos : nat) :
  (cursorPos <= String.length lineText)%nat ->
  exists range query,
    getClassNameRange lineText cursorPos = Some range
    /\ completionQuery lineText cursorPos = Some query
    /\ (rangeStart range <= cursorPos <= rangeEnd range)%nat
    /\ (rangeEnd range <= String.length lineText)%nat
    /\ (forall i, (rangeStart range <= i < rangeEnd range)%nat ->
          exists c, String.get i lineText = Some c /\ isIdentChar c = true)
    /\ (rangeStart range = O
        \/ exists c, String.get (rangeStart range - 1) lineText = Some c
                     /\ isIdentChar c = false)
    /\ (rangeEnd range = String.length lineText
        \/ exists c, String.get (rangeEnd range) lineText = Some c
                     /\ isIdentChar c = false)
    /\ query = String.substring (rangeStart range)
                 (rangeEnd range - rangeStart range) lineText
    /\ allIdentChars query = true.
Proof.
  intros Hcursor.
  destruct (expandStart_spec lineText cursorPos) as (Hsle & Hsrun & Hsstop).
  destruct (expandEnd_spec lineText (String.length lineText - cursorPos)
              cursorPos) as (Hele & Herun & Hestop).
  set (start := expandStart lineText cursorPos) in *.
  set (endPos := expandEnd lineText (String.length lineText - cursorPos)
                   cursorPos) in *.
  assert (endPos <= String.length lineText)%nat as Hend by lia.
  assert (forall i, (start <= i < endPos)%nat ->
            exists c, String.get i lineText = Some c
                      /\ isIdentChar c = true) as Hrun.
  { intros i Hi.
    assert (i < String.length lineText)%nat as Hlen by lia.
    destruct (get_in_range _ _ Hlen) as [c Hc]. exists c.
    split; [exact Hc|].
    assert (isClassNameChar (String.get i lineText) = true) as Hcls.
    { destruct (Nat.lt_ge_cases i cursorPos);
        [apply Hsrun | apply Herun]; lia. }
    rewrite Hc in Hcls. exact Hcls. }
  exists {| rangeStart := start; rangeEnd := endPos |}.
  exists (String.substring start (endPos - start) lineText).
  cbn [rangeStart rangeEnd].
  split; [reflexivity|]. split.
  { unfold completionQuery, getClassNameRange. fold start endPos.
    cbn [rangeStart rangeEnd]. unfold substringBetween.
    rewrite Nat.min_l, Nat.max_r by lia. reflexivity. }
  split; [lia|]. split; [exact Hend|]. split; [exact Hrun|]. split.
  { destruct Hsstop as [H0 | Hstop]; [left; exact H0|].
    destruct (Nat.eq_dec start 0) as [H0 | Hne]; [left; exact H0|].
    right.
    assert (start - 1 < String.length lineText)%nat as Hlen by lia.
    destruct (get_in_range _ _ Hlen) as [c Hc]. exists c.
    rewrite Hc in Hstop. auto. }
  split.
  { assert (String.length lineText
            <= cursorPos + (String.length lineText - cursorPos))%nat
      as Hfuel by lia.
    destruct (Hestop Hfuel Hcursor) as [Hfull | [Hlt Hstop]];
      [left; exact Hfull|].
    right. destruct (get_in_range _ _ Hlt) as [c Hc]. exists c.
    rewrite Hc in Hstop. auto. }
  split; [reflexivity|].
  apply substring_allIdentChars. intros i c Hi Hget.
  destruct (Hrun i) as [c' [Hc' Hid]]; [lia|]. congruence.
Qed.

Lemma completion_query_is_the_word_at_the_cursor_witness :
  (11 <= String.length "<p class='btn-pri x'>")%nat
  /\ exists range query,
       getClassNameRange "<p class='btn-pri x'>" 11 = Some range
       /\ completionQuery "<p class='btn-pri x'>" 11 = Some query
       /\ (rangeStart range <= 11 <= rangeEnd range)%nat.
Proof.
  assert (11 <= String.length "<p class='btn-pri x'>")%nat as Hlen
    by (cbn; lia).
  split; [exact Hlen|].
  destruct (completion_query_is_the_word_at_the_cursor
              "<p class='btn-pri x'>" 11 Hlen)
    as (range & query & Hr & Hq & Hb & _).
  exists range, query. auto.
Defined.

(** ** Inside a class attribute *)

Lemma allOf_app (P : ascii -> bool) (a b : string) :
  allOf P (a ++ b) = (allOf P a && allOf P b)%bool.
Proof.
  induction a as [|c a IH]; cbn [append allOf]; [reflexivity|].
  rewrite IH, andb_assoc. reflexivity.
Qed.

Lemma allOf_trimStart (P : ascii -> bool) (s : string) :
  allOf P s = true -> allOf P (trimStart s) = true.
Proof.
  induction s as [|c s IH]; cbn [trimStart]; [auto|].
  destruct (isWhiteSpace c); [|auto].
  cbn [allOf]. intros H. apply andb_true_iff in H. apply IH, H.
Qed.

Lemma openQuote_quoteBound : quoteBound openQuote.
Proof.
  split; [reflexivity|]. intros s typed Htyped.
  destruct s as [|q s]; cbn [append openQuote].
  - destruct typed as [|q typed]; [reflexivity|]. cbn [openQuote].
    cbn [allOf] in Htyped. apply andb_true_iff in Htyped.
    destruct Htyped as [Hq _]. unfold notQuote in Hq.
    apply negb_true_iff in Hq. rewrite Hq. reflexivity.
  - rewrite allOf_app, Htyped, andb_true_r. reflexivity.
Qed.

Lemma quoteBound_typed (P : string -> bool) (typed : string) :
  quoteBound P -> allOf notQuote typed = true -> P typed = false.
Proof.
  intros [Hempty Hstable] Htyped.
  rewrite <- Hempty. apply (Hstable EmptyString typed Htyped).
Qed.

Lemma spaces_quoteBound (next : string -> bool) :
  quoteBound next -> quoteBound (spaces next).
Proof.
  intros Hnext. split; [apply Hnext|]. intros s typed Htyped.
  unfold spaces. induction s as [|c s IH]; cbn [append trimStart].
  - rewrite (quoteBound_typed next _ Hnext (allOf_trimStart _ _ Htyped)).
    symmetry. apply Hnext.
  - destruct (isWhiteSpace c); [exact IH|].
    apply (proj2 Hnext (String c s) typed Htyped).
Qed.

Lemma literal_quoteBound (word : string) (next : string -> bool) :
  quoteBound next -> quoteBound (literal word next).
Proof.
  intros Hnext. induction word as [|a word IH]; [exact Hnext|].
  split; [reflexivity|]. intros s typed Htyped.
  destruct s as [|c s]; cbn [append literal].
  - destruct typed as [|c typed]; [reflexivity|].
    cbn [allOf] in Htyped. apply andb_true_iff in Htyped.
    rewrite (quoteBound_typed _ _ IH (proj2 Htyped)). apply andb_false_r.
  - rewrite (proj2 IH s typed Htyped). reflexivity.
Qed.

Lemma orb_quoteBound (P Q : string -> bool) :
  quoteBound P -> quoteBound Q -> quoteBound (fun s => (P s || Q s)%bool).
Proof.
  intros [HP1 HP2] [HQ1 HQ2]. split.
  - rewrite HP1, HQ1. reflexivity.
  - intros s typed Htyped. rewrite HP2, HQ2 by exact Htyped. reflexivity.
Qed.

Lemma anywhere_quoteBound (P : string -> bool) :
  quoteBound P -> quoteBound (anywhere P).
Proof.
  intros HP. split; [cbn [anywhere]; rewrite (proj1 HP); reflexivity|].
  assert (forall typed, allOf notQuote typed = true ->
            anywhere P typed = false) as Htyped_false.
  { induction typed as [|c typed IH]; intros Htyped; cbn [anywhere].
    - rewrite (proj1 HP). reflexivity.
    - rewrite (quoteBound_typed P _ HP Htyped).
      cbn [allOf] in Htyped. apply andb_true_iff in Htyped.
      apply IH, Htyped. }
  intros s typed Htyped. induction s as [|c s IH].
  - cbn [append]. rewrite (Htyped_false typed Htyped).
    cbn [anywhere]. rewrite (proj1 HP). reflexivity.
  - cbn [append anywhere]. rewrite IH.
    change (String c (s ++ typed)) with (String c s ++ typed)%string.
    rewrite (proj2 HP (String c s) typed Htyped). reflexivity.
Qed.

Lemma untilSpace_quoteBound (next : string -> bool) :
  quoteBound next -> quoteBound (untilSpace next).
Proof.
  intros Hnext. split; [reflexivity|].
  assert (forall typed, allOf notQuote typed = true ->
            untilSpace next typed = false) as Htyped_false.
  { induction typed as [|c typed IH]; intros Htyped; [reflexivity|].
    cbn [untilSpace]. cbn [allOf] in Htyped.
    apply andb_true_iff in Htyped. destruct Htyped as [_ Htyped].
    rewrite (quoteBound_typed next _ Hnext Htyped), (IH Htyped).
    rewrite !andb_false_r. reflexivity. }
  intros s typed Htyped. induction s as [|c s IH].
  - cbn [append]. apply Htyped_false, Htyped.
  - cbn [append untilSpace].
    rewrite IH, (proj2 Hnext s typed Htyped). reflexivity.
Qed.

Lemma inTag_quoteBound (next : string -> bool) :
  quoteBound next -> quoteBound (inTag next).
Proof.
  intros Hnext. pose proof (untilSpace_quoteBound next Hnext) as Huntil.
  split; [reflexivity|]. intros s typed Htyped.
  destruct s as [|lt [|w rest]]; cbn [append inTag].
  - destruct typed as [|lt [|w rest]]; try reflexivity.
    cbn [inTag]. cbn [allOf] in Htyped.
    apply andb_true_iff in Htyped. destruct Htyped as [_ Htyped].
    apply andb_true_iff in Htyped. destruct Htyped as [_ Htyped].
    rewrite (quoteBound_typed _ _ Huntil Htyped). apply andb_false_r.
  - destruct typed as [|w rest]; [reflexivity|].
    cbn [allOf] in Htyped.
    apply andb_true_iff in Htyped. destruct Htyped as [_ Htyped].
    rewrite (quoteBound_typed _ _ Huntil Htyped). apply andb_false_r.
  - rewrite (proj2 Huntil rest typed Htyped). reflexivity.
Qed.

Lemma assignsOpenQuote_quoteBound : quoteBound assignsOpenQuote.
Proof.
  apply spaces_quoteBound, literal_quoteBound, spaces_quoteBound,
    openQuote_quoteBound.
Qed.

Lemma classListPattern_quoteBound : quoteBound classListPattern.
Proof.
  unfold classListPattern.
  set (call := spaces (literal "(" (spaces openQuote))).
  assert (quoteBound call) as Hcall
    by apply spaces_quoteBound, literal_quoteBound, spaces_quoteBound,
         openQuote_quoteBound.
  apply anywhere_quoteBound, literal_quoteBound.
  apply (orb_quoteBound
           (fun s => (literal "add" call s || literal "remove" call s)%bool)
           (literal "toggle" call)).
  - apply (orb_quoteBound (literal "add" call) (literal "remove" call));
      apply literal_quoteBound, Hcall.
  - apply literal_quoteBound, Hcall.
Qed.

Lemma patterns_quoteBound :
  quoteBound classNamePattern /\ quoteBound classPattern
  /\ quoteBound classListPattern
  /\ quoteBound tagClassPattern /\ quoteBound tagClassNamePattern.
Proof.
  pose proof assignsOpenQuote_quoteBound as Hassign.
  split; [apply anywhere_quoteBound, literal_quoteBound, Hassign|].
  split; [apply anywhere_quoteBound, literal_quoteBound, Hassign|].
  split; [apply classListPattern_quoteBound|].
  split; apply anywhere_quoteBound, inTag_quoteBound, literal_quoteBound,
           Hassign.
Qed.

Lemma substringBetween_prefix (a b : string) :
  substringBetween 0 (String.length a) (a ++ b) = a.
Proof.
  unfold substringBetween. rewrite Nat.min_0_l, Nat.max_0_l, Nat.sub_0_r.
  induction a as [|c a IH]; cbn [append String.length String.substring].
  - destruct b; reflexivity.
  - rewrite IH. reflexivity.
Qed.

Lemma anywhere_true (P : string -> bool) (s : string) :
  anywhere P s = true <-> exists a b, s = (a ++ b)%string /\ P b = true.
Proof.
  induction s as [|c s IH]; cbn [anywhere].
  - rewrite orb_false_r. split.
    + intros H. exists EmptyString, EmptyString. auto.
    + intros [a [b [Hs Hb]]]. destruct a; [|discriminate].
      cbn [append] in Hs. subst b. exact Hb.
  - rewrite orb_true_iff, IH. split.
    + intros [H | [a [b [-> Hb]]]].
      * exists EmptyString, (String c s). auto.
      * exists (String c a), b. auto.
    + intros [a [b [Hs Hb]]]. destruct a as [|x a]; cbn [append] in Hs.
      * left. subst b. exact Hb.
      * right. injection Hs as _ ->. eauto.
Qed.

Lemma untilSpace_suffix (next : string -> bool) (s : string) :
  untilSpace next s = true -> exists a b, s = (a ++ b)%string /\ next b = true.
Proof.
  induction s as [|c s IH]; cbn [untilSpace]; [discriminate|].
  intros H. apply orb_true_iff in H. destruct H as [H | H].
  - apply andb_true_iff in H. exists (String c EmptyString), s. split;
      [reflexivity | apply H].
  - apply andb_true_iff in H. destruct (IH (proj2 H)) as [a [b [-> Hb]]].
    exists (String c a), b. auto.
Qed.

Lemma tag_pattern_implies_plain (next : string -> bool) (s : string) :
  anywhere (inTag next) s = true -> anywhere next s = true.
Proof.
  intros H. apply anywhere_true in H. destruct H as [a [b [-> Hb]]].
  destruct b as [|lt [|w rest]]; cbn [inTag] in Hb; try discriminate.
  apply andb_true_iff in Hb. destruct Hb as [_ Hb].
  apply untilSpace_suffix in Hb. destruct Hb as [a' [b' [-> Hb']]].
  apply anywhere_true.
  exists (a ++ String lt (String w a'))%string, b'. split; [|exact Hb'].
  rewrite append_assoc_string. reflexivity.
Qed.

(** X19.  The test that opens completion and the test that hover and
    go-to-definition use agree on every line and position: the two
    patterns of the completion provider that ask for an enclosing tag
    match only where one of its first two patterns matches already. *)
Theorem completion_and_hover_tests_agree (lineText : string)
  (position : nat) :
  shouldProvideCompletions lineText position
  = isInClassAttribute lineText position.
Proof.
  unfold shouldProvideCompletions, isInClassAttribute. cbn [existsb].
  generalize (substringBetween 0 position lineText). intros s.
  rewrite !orb_false_r.
  pose proof (tag_pattern_implies_plain
                (literal "class" assignsOpenQuote) s) as Hclass.
  pose proof (tag_pattern_implies_plain
                (literal "className" assignsOpenQuote) s) as Hname.
  fold tagClassPattern classPattern in Hclass.
  fold tagClassNamePattern classNamePattern in Hname.
  destruct (classNamePattern s), (classPattern s), (classListPattern s),
    (tagClassPattern s), (tagClassNamePattern s);
    try reflexivity;
    try (specialize (Hclass eq_refl); discriminate);
    try (specialize (Hname eq_refl); discriminate).
Qed.

(** X20.  Typing on inside a class attribute keeps it open: characters
    other than quotes typed at the cursor do not change what the two
    tests answer, whatever follows the cursor.  A line with no quote
    before the position is never inside a class attribute. *)
Theorem typing_keeps_the_class_attribute_open
  (before typed rest rest' : string) :
  allOf notQuote typed = true ->
  isInClassAttribute ((before ++ typed) ++ rest')
    (String.length (before ++ typed))
  = isInClassAttribute (before ++ rest) (String.length before)
  /\ shouldProvideCompletions ((before ++ typed) ++ rest')
       (String.length (before ++ typed))
     = shouldProvideCompletions (before ++ rest) (String.length before)
  /\ isInClassAttribute (typed ++ rest) (String.length typed) = false.
Proof.
  intros Htyped.
  destruct patterns_quoteBound as (Hname & Hclass & Hlist & Htag & Htagname).
  unfold shouldProvideCompletions, isInClassAttribute. cbn [existsb].
  rewrite !substringBetween_prefix.
  rewrite (proj2 Hname _ _ Htyped), (proj2 Hclass _ _ Htyped),
    (proj2 Hlist _ _ Htyped), (proj2 Htag _ _ Htyped),
    (proj2 Htagname _ _ Htyped).
  split; [reflexivity|]. split; [reflexivity|].
  rewrite (quoteBound_typed _ _ Hname Htyped),
    (quoteBound_typed _ _ Hclass Htyped),
    (quoteBound_typed _ _ Hlist Htyped).
  reflexivity.
Qed.

Lemma typing_keeps_the_class_attribute_open_witness :
  allOf notQuote "btn-" = true
  /\ isInClassAttribute (("<p class='" ++ "btn-") ++ "'>")
       (String.length ("<p class='" ++ "btn-"))
     = isInClassAttribute ("<p class='" ++ "'>") (String.length "<p class='")
  /\ isInClassAttribute ("<p class='" ++ "'>") (String.length "<p class='")
     = true.
Proof.
  split; [reflexivity|]. split; [|reflexivity].
  apply (typing_keeps_the_class_attribute_open "<p class='" "btn-" "'>" "'>").
  reflexivity.
Defined.

(** ** The detail line of a completion *)

Lemma string_length_append (a b : string) :
  String.length (a ++ b) = (String.length a + String.length b)%nat.
Proof. induction a; simpl; congruence. Qed.

Lemma substring0_split (n : nat) (s : string) :
  (n <= String.length s)%nat ->
  String.length (String.substring 0 n s) = n
  /\ IsPrefix (String.substring 0 n s) s.
Proof.
  revert n; induction s as [|c s IH]; intros n Hn;
    cbn [String.length] in Hn.
  - assert (n = O) as -> by lia. split; [reflexivity|].
    exists EmptyString. reflexivity.
  - destruct n as [|n]; cbn [String.substring String.length].
    + split; [reflexivity|]. exists (String c s). reflexivity.
    + destruct (IH n) as [Hlen [r Hr]]; [lia|]. split; [lia|].
      exists r. cbn [append]. rewrite <- Hr. reflexivity.
Qed.

Lemma truncateValue_cut (value : string) (maxLength : Z) :
  maxLength < Z.of_nat (String.length value) -> 3 <= maxLength ->
  Z.of_nat (String.length (truncateValue value maxLength)) = maxLength
  /\ exists kept,
       truncateValue value maxLength = (kept ++ "...")%string
       /\ IsPrefix kept value
       /\ Z.of_nat (String.length kept) = maxLength - 3.
Proof.
  intros Hlong Hmax. unfold truncateValue.
  destruct (Z.of_nat (String.length value) <=? maxLength) eqn:E;
    [apply Z.leb_le in E; lia|].
  unfold substringTo.
  destruct (substring0_split (Z.to_nat (maxLength - 3)) value)
    as [Hlen Hpre]; [lia|].
  split.
  - rewrite string_length_append, Hlen. cbn [String.length]. lia.
  - eexists. split; [reflexivity|]. split; [exact Hpre|]. lia.
Qed.

(** X21.  Truncating a value for display.  A value no longer than the
    maximum is shown whole.  A longer one is cut to the maximum less
    three characters and gets three dots, so with a maximum of at least
    3 the result has exactly the maximum length and never more; with a
    smaller maximum the result is the three dots alone.  With the
    default of 30 no shown value is longer than 30 characters. *)
Theorem truncateValue_fits_the_maximum (value : string) (maxLength : Z) :
  let len := Z.of_nat (String.length value) in
  (len <= maxLength -> truncateValue value maxLength = value)
  /\ (maxLength < len -> 3 <= maxLength ->
      Z.of_nat (String.length (truncateValue value maxLength)) = maxLength
      /\ exists kept,
           truncateValue value maxLength = (kept ++ "...")%string
           /\ IsPrefix kept value
           /\ Z.of_nat (String.length kept) = maxLength - 3)
  /\ (maxLength < len -> maxLength < 3 ->
      truncateValue value maxLength = "...")
  /\ Z.of_nat (String.length (truncateValueDefault value)) <= 30.
Proof.
  intros len. split; [|split; [apply truncateValue_cut|split]].
  - intros Hshort. unfold truncateValue. fold len.
    apply Z.leb_le in Hshort. rewrite Hshort. reflexivity.
  - intros Hlong Hmax. unfold truncateValue. fold len.
    destruct (len <=? maxLength) eqn:E; [apply Z.leb_le in E; lia|].
    unfold substringTo.
    replace (Z.to_nat (maxLength - 3)) with O by lia.
    destruct value; reflexivity.
  - unfold truncateValueDefault.
    destruct (Z_le_gt_dec len 30) as [Hshort | Hlong].
    + unfold truncateValue. fold len.
      pose proof Hshort as Hb. apply Z.leb_le in Hb. rewrite Hb.
      exact Hshort.
    + destruct (truncateValue_cut value 30) as [H _]; unfold len in *; lia.
Qed.

Lemma truncateValue_fits_the_maximum_witness :
  30 < Z.of_nat (String.length "0123456789012345678901234567890123")
  /\ 3 <= 30
  /\ Z.of_nat
       (String.length
          (truncateValue "0123456789012345678901234567890123" 30))
     = 30.
Proof.
  assert (30 < Z.of_nat (String.length "0123456789012345678901234567890123"))
    as Hlong by (cbn; lia).
  assert (3 <= 30) as Hmax by lia.
  split; [exact Hlong|]. split; [exact Hmax|].
  apply (proj1 (proj2 (truncateValue_fits_the_maximum
                         "0123456789012345678901234567890123" 30))
           Hlong Hmax).
Defined.

Lemma slice0_nonneg {A : Type} (a : list A) (n : nat) :
  slice0 a (Z.of_nat n) = firstn n a.
Proof.
  unfold slice0.
  destruct (Z.of_nat n <? 0) eqn:E; [apply Z.ltb_lt in E; lia|].
  destruct (Nat.le_gt_cases n (List.length a)).
  - rewrite Z.min_l, Nat2Z.id by lia. reflexivity.
  - rewrite Z.min_r, Nat2Z.id by lia. rewrite !firstn_all2 by lia.
    reflexivity.
Qed.

Lemma firstOccurrences_seen (seen seen' ks : list string) :
  (forall k, In k seen <-> In k seen') ->
  firstOccurrences seen ks = firstOccurrences seen' ks.
Proof.
  revert seen seen'. induction ks as [|k ks IH]; intros seen seen' Hsame;
    [reflexivity|].
  cbn [firstOccurrences].
  assert (existsb (String.eqb k) seen = existsb (String.eqb k) seen') as ->.
  { apply eq_true_iff_eq. rewrite !existsb_exists.
    split; intros [x [Hx Hk]]; exists x; split; try exact Hk;
      apply Hsame, Hx. }
  destruct (existsb _ seen'); [apply IH, Hsame|].
  f_equal. apply IH. intros x. cbn [In]. rewrite Hsame. reflexivity.
Qed.

Lemma keys_assign (o : object) (k v : string) :
  keys (assign o k v)
  = if existsb (String.eqb k) (keys o) then keys o else keys o ++ [k].
Proof.
  unfold keys. induction o as [|[k' v'] o IH]; [reflexivity|].
  cbn [assign map fst existsb].
  rewrite (String.eqb_sym k k').
  destruct (String.eqb k' k) eqn:E; cbn [orb map fst].
  - apply string_eqb_true in E. subst k'. reflexivity.
  - rewrite IH. destruct (existsb _ _); reflexivity.
Qed.

(** The keys of a collected property map come in the order in which the
    properties are first declared. *)
Lemma collected_keys_order (decls : list (string * string)) (o : object) :
  keys (fold_left (fun o d => objSet o (fst d) (snd d)) decls o)
  = keys o
    ++ firstOccurrences (keys o)
         (filter (fun k => negb (String.eqb k "__proto__")) (map fst decls)).
Proof.
  revert o. induction decls as [|[p v] decls IH]; intros o;
    cbn [fold_left map filter fst snd].
  - cbn [firstOccurrences]. rewrite app_nil_r. reflexivity.
  - rewrite IH. unfold objSet.
    destruct (String.eqb p "__proto__"); cbn [negb]; [reflexivity|].
    cbn [firstOccurrences]. rewrite keys_assign.
    destruct (existsb (String.eqb p) (keys o)); [reflexivity|].
    rewrite <- app_assoc. cbn [app]. do 2 f_equal.
    apply firstOccurrences_seen. intros k. rewrite in_app_iff.
    cbn [In]. tauto.
Qed.

(** X22.  Take a class whose property map has distinct keys, none of
    them made of digits only, so that [Object.keys] lists them in the
    order of insertion.  The primary properties of the detail line are
    the first three of: the important properties that are set, in their
    fixed order, followed by the other properties in the order
    [Object.keys] lists them.  So there are never more than three, an
    important property that is set comes before any other, and the cut
    taken from the other properties in between, which counts from the
    back when more than three important ones are set, does not show in
    the result.  For a property map collected from the declarations of
    a rule the keys come in the order in which the properties are first
    declared, a later declaration of a property keeping its place. *)
Theorem getPrimaryProperties_first_three (cssClass : CSSClass) :
  plainKeys (properties cssClass) ->
  getPrimaryProperties cssClass
  = firstn 3 (importantEntries cssClass ++ otherEntries cssClass)
  /\ (List.length (getPrimaryProperties cssClass) <= 3)%nat
  /\ List.length (getPrimaryProperties cssClass)
     = Nat.min 3 (List.length (importantEntries cssClass)
                  + List.length (otherEntries cssClass))
  /\ (forall decls,
        properties cssClass = collectProperties decls ->
        keys (properties cssClass) = declaredProperties decls).
Proof.
  intros _.
  assert (getPrimaryProperties cssClass
          = firstn 3 (importantEntries cssClass ++ otherEntries cssClass))
    as Heq.
  { unfold getPrimaryProperties, otherEntries.
    fold (importantEntries cssClass).
    set (imp := importantEntries cssClass).
    set (others := filter _ (keys (properties cssClass))).
    change 3 with (Z.of_nat 3) at 2. rewrite slice0_nonneg.
    rewrite !firstn_app.
    destruct (Nat.le_gt_cases (List.length imp) 3) as [Hle | Hgt].
    - replace (3 - Z.of_nat (List.length imp))
        with (Z.of_nat (3 - List.length imp)) by lia.
      rewrite slice0_nonneg, <- firstn_map.
      rewrite firstn_firstn, Nat.min_id. reflexivity.
    - replace (3 - List.length imp)%nat with O by lia.
      rewrite !firstn_O. reflexivity. }
  split; [exact Heq|]. rewrite Heq.
  rewrite length_firstn, length_app. split; [lia|]. split; [reflexivity|].
  intros decls ->. unfold collectProperties, declaredProperties.
  rewrite collected_keys_order. reflexivity.
Qed.

Lemma getPrimaryProperties_first_three_witness :
  plainKeys (properties layerClass)
  /\ keys (properties layerClass)
     = ["z-index"; "opacity"; "color"; "display"; "top"]
  /\ importantEntries layerClass = ["display: flex"; "color: red"]
  /\ getPrimaryProperties layerClass
     = ["display: flex"; "color: red"; "z-index: 2"].
Proof.
  assert (plainKeys (properties layerClass)) as Hplain.
  { split; [|repeat constructor].
    repeat constructor; cbn; intuition discriminate. }
  split; [exact Hplain|]. split; [reflexivity|]. split; [reflexivity|].
  rewrite (proj1 (getPrimaryProperties_first_three layerClass Hplain)).
  reflexivity.
Defined.

(** ** The range of a hover *)

Lemma indexOf_spec (s p : string) :
  (indexOf s p = -1 /\ ~ IsSubstring p s)
  \/ (exists a b,
        s = (a ++ p ++ b)%string
        /\ indexOf s p = Z.of_nat (String.length a)
        /\ forall a' b', s = (a' ++ p ++ b')%string ->
             (String.length a <= String.length a')%nat).
Proof.
  induction s as [|c s IH].
  - cbn [indexOf]. destruct (startsWith "" p) eqn:E.
    + right. apply startsWith_IsPrefix in E. destruct E as [r Hr].
      exists EmptyString, r. split; [exact Hr|]. split; [reflexivity|].
      intros a' b' _. cbn. lia.
    + left. split; [reflexivity|]. intros H.
      apply includes_IsSubstring in H. cbn [includes] in H.
      rewrite E in H. discriminate.
  - cbn [indexOf]. destruct (startsWith (String c s) p) eqn:E.
    + right. apply startsWith_IsPrefix in E. destruct E as [r Hr].
      exists EmptyString, r. split; [exact Hr|]. split; [reflexivity|].
      intros a' b' _. cbn. lia.
    + assert (forall a' b', String c s = (a' ++ p ++ b')%string ->
                exists a'', a' = String c a''
                            /\ s = (a'' ++ p ++ b')%string) as Hshift.
      { intros a' b' H. destruct a' as [|x a''].
        - exfalso. assert (startsWith (String c s) p = true)
            by (apply startsWith_IsPrefix; exists b'; exact H).
          congruence.
        - cbn [append] in H. injection H as -> ->. eauto. }
      destruct IH as [[Hnone Hnot] | [a [b [Hs [Hidx Hmin]]]]].
      * left. rewrite Hnone. split; [reflexivity|].
        intros [a' [b' H]]. destruct (Hshift a' b' H) as [a'' [_ Hs]].
        apply Hnot. exists a'', b'. exact Hs.
      * right. exists (String c a), b. rewrite Hidx.
        split; [cbn [append]; rewrite <- Hs; reflexivity|]. split.
        -- destruct (Z.of_nat (String.length a) <? 0) eqn:El;
             [apply Z.ltb_lt in El; lia|].
           cbn [String.length]. lia.
        -- intros a' b' H. destruct (Hshift a' b' H) as [a'' [-> Hs']].
           cbn [String.length]. specialize (Hmin a'' b' Hs'). lia.
Qed.

(** X23.  The range of a hover is that of the first place in the line
    where the class name occurs, not that of the word under the
    cursor: it starts where the leftmost occurrence starts and spans
    the length of the name, wherever in the line the cursor is.  A name
    that does not occur in the line gives the start -1. *)
Theorem hover_range_is_the_first_occurrence (lineText className : string) :
  snd (hoverRange lineText className)
  = fst (hoverRange lineText className)
    + Z.of_nat (String.length className)
  /\ (IsSubstring className lineText ->
      exists a b,
        lineText = (a ++ className ++ b)%string
        /\ fst (hoverRange lineText className) = Z.of_nat (String.length a)
        /\ forall a' b', lineText = (a' ++ className ++ b')%string ->
             (String.length a <= String.length a')%nat)
  /\ (~ IsSubstring className lineText ->
      fst (hoverRange lineText className) = -1)
  /\ hoverRange "<p id='btn' class='btn'>" "btn" = (7, 10).
Proof.
  unfold hoverRange. cbn [fst snd].
  split; [reflexivity|]. split; [|split; [|reflexivity]].
  - intros Hsub.
    destruct (indexOf_spec lineText className) as [[_ Hnot] | H];
      [contradiction | exact H].
  - intros Hnot.
    destruct (indexOf_spec lineText className)
      as [[H _] | [a [b [Hs _]]]]; [exact H|].
    exfalso. apply Hnot. exists a, b. exact Hs.
Qed.

Lemma hover_range_is_the_first_occurrence_witness :
  IsSubstring "btn" "<p class='btn'>"
  /\ exists a b,
       "<p class='btn'>" = (a ++ "btn" ++ b)%string
       /\ fst (hoverRange "<p class='btn'>" "btn")
          = Z.of_nat (String.length a).
Proof.
  assert (IsSubstring "btn" "<p class='btn'>") as Hsub
    by (apply includes_IsSubstring; reflexivity).
  split; [exact Hsub|].
  destruct (proj1 (proj2 (hover_range_is_the_first_occurrence
                            "<p class='btn'>" "btn")) Hsub)
    as (a & b & Hs & Hstart & _).
  exists a, b. auto.
Defined.

(** ** Go to definition *)

(** X24.  Go to definition after indexing.  For a name that the file
    just indexed defines, the definition found lies in that file, at
    the position of the last record the file gives for the name, moved
    from 1-based to 0-based and never negative: a record at line 0 is
    shown at line 0.  A name that the index does not hold, or no name
    under the cursor, gives no definition. *)
Theorem definition_points_into_the_last_indexed_file
  (readFileSync : string -> outcome string)
  (processorParse : bool -> string -> string -> outcome Root)
  (idx : classIndex) (filePath content N : string) (c : CSSClass) :
  readFileSync filePath = Returned content ->
  lastNamed N (classes (parseCSS processorParse content filePath)) = Some c ->
  let idx' := afterIndexFile readFileSync processorParse idx filePath in
  exists loc,
    provideDefinition idx' (Some N) = Some loc
    /\ uri loc = filePath
    /\ locLine loc = Z.max 0 (line c - 1)
    /\ locCharacter loc = Z.max 0 (column c - 1)
    /\ 0 <= locLine loc /\ 0 <= locCharacter loc
    /\ (oneBased c ->
        locLine loc + 1 = line c /\ locCharacter loc + 1 = column c)
    /\ provideDefinition idx' None = None
    /\ (forall M, getClass idx' M = None ->
          provideDefinition idx' (Some M) = None).
Proof.
  intros Hread Hlast idx'.
  assert (getClass idx' N = Some c) as Hget.
  { unfold idx'.
    rewrite afterIndexFile_cases, Hread, mapGet_insertClasses, Hlast.
    reflexivity. }
  assert (sourceFile c = filePath) as Hsrc.
  { apply lastNamed_Some in Hlast. destruct Hlast as [Hin _].
    eapply parseCSS_sourceFile, Hin. }
  eexists. unfold provideDefinition. rewrite Hget.
  split; [reflexivity|]. cbn [uri locLine locCharacter].
  split; [exact Hsrc|]. split; [reflexivity|]. split; [reflexivity|].
  split; [lia|]. split; [lia|]. split.
  - unfold oneBased. lia.
  - split; [reflexivity|]. intros M HM. rewrite HM. reflexivity.
Qed.

Lemma definition_points_into_the_last_indexed_file_witness :
  readsAs "" "/w/card.css" = Returned ""
  /\ exists loc,
       provideDefinition
         (afterIndexFile (readsAs "") (parsesTo cardSheet) primaryIndex
            "/w/card.css") (Some "panel")
       = Some loc
       /\ uri loc = "/w/card.css".
Proof.
  split; [reflexivity|].
  destruct (definition_points_into_the_last_indexed_file (readsAs "")
              (parsesTo cardSheet) primaryIndex "/w/card.css" "" "panel"
              (recordOfToken "/w/card.css" (Some (Comment " helper "))
                 cardRule ".panel")
              eq_refl eq_refl) as (loc & Hloc & Huri & _).
  exists loc. auto.
Defined.

(** ** Indexing a file and deleting it again *)

Lemma filter_filter_compose {A : Type} (p q : A -> bool) (l : list A) :
  filter p (filter q l) = filter (fun x => (q x && p x)%bool) l.
Proof.
  induction l as [|a l IH]; [reflexivity|]. cbn [filter].
  destruct (q a); cbn [filter andb]; rewrite IH; reflexivity.
Qed.

Lemma lastNamed_defined (N : string) (cs : list CSSClass) :
  existsb (String.eqb N) (map name cs) = true
  <-> exists c, lastNamed N cs = Some c.
Proof.
  unfold lastNamed. split.
  - intros H. apply existsb_eqb_In, in_map_iff in H.
    destruct H as [c [Hname Hin]].
    destruct (find (fun c0 => String.eqb (name c0) N) (rev cs)) as [c'|]
      eqn:E; [eauto|].
    exfalso. apply in_rev in Hin.
    pose proof (find_none _ _ E c Hin) as Hfalse. cbn beta in Hfalse.
    apply String.eqb_eq in Hname. congruence.
  - intros [c H]. apply find_some in H. destruct H as [Hin Hname].
    apply existsb_eqb_In, in_map_iff. exists c.
    split; [apply String.eqb_eq, Hname | apply in_rev, Hin].
Qed.

(** X25.  Deleting a file does not bring back what indexing it had
    overwritten.  After a file is indexed and then removed, the index
    holds the entries of the other files except those whose name the
    file defined: such a name looks up to nothing, although the other
    file still defines it, until that file is indexed again.  Names the
    file did not define are as before. *)
Theorem removing_a_file_does_not_restore_overwritten_names
  (readFileSync : string -> outcome string)
  (processorParse : bool -> string -> string -> outcome Root)
  (idx : classIndex) (filePath content : string) :
  wellKeyed idx ->
  readFileSync filePath = Returned content ->
  let recs := classes (parseCSS processorParse content filePath) in
  let idx' :=
    removeClassesFromFile
      (afterIndexFile readFileSync processorParse idx filePath) filePath in
  idx' = filter (fun e => (fromOtherFile filePath e
                           && negb (existsb (String.eqb (fst e))
                                      (map name recs)))%bool) idx
  /\ (forall N c, lastNamed N recs = Some c -> getClass idx' N = None)
  /\ (forall N c, getClass idx N = Some c -> sourceFile c <> filePath ->
        lastNamed N recs = None -> getClass idx' N = Some c).
Proof.
  intros [Hnd _] Hread recs idx'.
  assert (idx' = filter (fun e => (fromOtherFile filePath e
                                   && negb (existsb (String.eqb (fst e))
                                              (map name recs)))%bool) idx)
    as Heq.
  { unfold idx'.
    rewrite removeClassesFromFile_filter by apply afterIndexFile_NoDup, Hnd.
    rewrite afterIndexFile_cases, Hread. fold recs.
    rewrite (removeClassesFromFile_filter _ _ Hnd).
    rewrite filter_insertClasses;
      [|apply filter_keys_NoDup, Hnd|apply parseCSS_all_from_file].
    fold recs. rewrite filter_filter_compose. apply filter_ext. intros e.
    destruct (fromOtherFile filePath e); reflexivity. }
  split; [exact Heq|]. split.
  - intros N c Hlast. rewrite Heq. unfold getClass.
    rewrite (mapGet_filter _ _ _ Hnd).
    destruct (mapGet idx N) as [c0|]; [|reflexivity]. cbn [fst].
    assert (existsb (String.eqb N) (map name recs) = true) as ->
      by (apply lastNamed_defined; eauto).
    rewrite andb_false_r. reflexivity.
  - intros N c Hc Hsrc Hlast. rewrite Heq. unfold getClass in *.
    rewrite (mapGet_filter _ _ _ Hnd), Hc. cbn [fst].
    assert (existsb (String.eqb N) (map name recs) = false) as ->.
    { apply not_true_iff_false. intros H. apply lastNamed_defined in H.
      destruct H as [c' H]. congruence. }
    unfold fromOtherFile. cbn [snd]. apply String.eqb_neq in Hsrc.
    rewrite Hsrc. reflexivity.
Qed.

Lemma removing_a_file_does_not_restore_overwritten_names_witness :
  wellKeyed primaryIndex
  /\ readsAs "" "/w/c.css" = Returned ""
  /\ getClass primaryIndex "xyz" = Some (sampleClass "xyz" "/w/a.css")
  /\ getClass
       (removeClassesFromFile
          (afterIndexFile (readsAs "") (parsesTo xyzSheet) primaryIndex
             "/w/c.css") "/w/c.css") "xyz"
     = None.
Proof.
  split; [exact wellKeyed_primaryIndex|]. split; [reflexivity|].
  split; [reflexivity|].
  apply (proj1 (proj2
           (removing_a_file_does_not_restore_overwritten_names
              (readsAs "") (parsesTo xyzSheet) primaryIndex "/w/c.css" ""
              wellKeyed_primaryIndex eq_refl))
           "xyz"
           (recordOfToken "/w/c.css" None
              (Rule ".xyz" (Some (mkSource (Some (mkPosition 1 1))))
                 [Declaration "color" "blue"]) ".xyz")).
  reflexivity.
Defined.
